(** * Houdini: pagination and list transforms, selection masking and the
      scalar marshal/unmarshal walker

    A shallow embedding of
    - [src/runtime/scalars.ts] (marshalSelection, marshalInputs,
      unmarshalSelection, isScalar),
    - the paginate transform (paginate, replaceArgumentsWithVariables),
    - the list transform (addListFragments, connectionSelection),
    together with the properties their specification states about them. *)

From Stdlib Require Import ZArith String List Bool Lia.
From Stdlib Require Import DecimalString.
From stdpp Require Import base option list gmap strings.

Set Warnings "-register-all".
Local Open Scope string_scope.
Local Open Scope list_scope.

(** ** Exceptions and the result of a call that may throw *)

(** [HoudiniDocumentError]: a GraphQLError carrying the file of the offending
    document.  [locations] is the source range of the node the error is
    about, when the node has one. *)
Record HoudiniError := mkHoudiniError {
  message : string;
  filepath : string;
  locations : option (nat * nat);
}.

(** What a JavaScript call can throw here: the engine's own [TypeError] and
    [RangeError], an [Error] built by the code, or the array of accumulated
    document errors ([throw errors]). *)
Inductive Exception :=
| TypeError (what : string)
| RangeError (what : string)
| Error (what : string)
| ErrorList (errors : list HoudiniError).

Inductive Result (A : Type) :=
| Ok (a : A)
| Throw (e : Exception).
Arguments Ok {A} a.
Arguments Throw {A} e.

#[global] Instance Result_ret : MRet Result := fun _ a => Ok a.
#[global] Instance Result_bind : MBind Result := fun _ _ f r =>
  match r with Ok a => f a | Throw e => Throw e end.
#[global] Instance Result_fmap : FMap Result := fun _ _ f r =>
  match r with Ok a => Ok (f a) | Throw e => Throw e end.

(** [Array.prototype.map] with a callback that may throw: elements are
    converted left to right and the first exception escapes. *)
Fixpoint mapResult {A B} (f : A -> Result B) (l : list A) : Result (list B) :=
  match l with
  | [] => Ok []
  | x :: l' =>
      match f x with
      | Throw e => Throw e
      | Ok y => match mapResult f l' with
                | Throw e => Throw e
                | Ok ys => Ok (y :: ys)
                end
      end
  end.

(** ** JavaScript values *)

Module JS.

(** The values the walkers see ([data: unknown]).  Numbers are kept as
    integers: the walkers never compute with them.  An object is its list of
    own enumerable properties in property order; the keys of an object are
    pairwise distinct.  A read [o[k]] of a plain object used as a dictionary
    is a lookup among its own properties: keys that name a property of
    [Object.prototype] are outside the embedding. *)
Inductive Value :=
| VUndefined
| VNull
| VBool (b : bool)
| VNumber (n : Z)
| VString (s : string)
| VArray (items : list Value)
| VObject (props : list (string * Value)).

(** [Array.isArray] *)
Definition isArray (v : Value) : bool :=
  match v with VArray _ => true | _ => false end.

(** ToBoolean on the values met here ([NaN] is not represented). *)
Definition truthy (v : Value) : bool :=
  match v with
  | VUndefined | VNull => false
  | VBool b => b
  | VNumber n => negb (n =? 0)%Z
  | VString s => negb (String.eqb s "")
  | VArray _ | VObject _ => true
  end.

(** ToBoolean of an optional string property such as [type]. *)
Definition truthy_string (s : option string) : bool :=
  match s with
  | None => false
  | Some s => negb (String.eqb s "")
  end.

Definition index_key (i : nat) : string :=
  NilEmpty.string_of_uint (Nat.to_uint i).

(** The entries of a string primitive: one per code unit, keyed by index. *)
Fixpoint string_entries (i : nat) (s : string) : list (string * Value) :=
  match s with
  | EmptyString => []
  | String c s' => (index_key i, VString (String c EmptyString)) :: string_entries (S i) s'
  end.

(** [Object.entries(data as {})] for a value that is neither null nor
    undefined (those two throw and are never passed by the walkers). *)
Definition Object_entries (data : Value) : list (string * Value) :=
  match data with
  | VObject props => props
  | VArray items => imap (fun i v => (index_key i, v)) items
  | VString s => string_entries 0 s
  | VUndefined | VNull | VBool _ | VNumber _ => []
  end.

(** Property assignment [o[k] = v]: an existing key keeps its position. *)
Fixpoint set_property (k : string) (v : Value) (o : list (string * Value))
  : list (string * Value) :=
  match o with
  | [] => [(k, v)]
  | (k', v') :: o' =>
      if String.eqb k k' then (k, v) :: o' else (k', v') :: set_property k v o'
  end.

(** [Object.fromEntries] *)
Definition Object_fromEntries (entries : list (string * Value)) : Value :=
  VObject (fold_left (fun o kv => set_property kv.1 kv.2 o) entries []).

End JS.
Export JS.

(** ** Runtime types: the compiled selection, the configuration, the artifact *)

Module Runtime.

(** [SubscriptionSelection]: response key to field description.  Only [type]
    and [fields] are read by the walkers; [keyRaw] and [masked] are the other
    attributes every compiled field carries. *)
Inductive SubscriptionSelection : Type :=
| Selection (entries : gmap string SelectionField)
with SelectionField : Type :=
| Field (type : option string) (keyRaw : string) (masked : bool)
        (fields : option SubscriptionSelection).

Definition entries (s : SubscriptionSelection) : gmap string SelectionField :=
  match s with Selection m => m end.
Definition type (f : SelectionField) : option string :=
  match f with Field t _ _ _ => t end.
Definition keyRaw (f : SelectionField) : string :=
  match f with Field _ k _ _ => k end.
Definition masked (f : SelectionField) : bool :=
  match f with Field _ _ m _ => m end.
Definition fields (f : SelectionField) : option SubscriptionSelection :=
  match f with Field _ _ _ fs => fs end.

(** [ScalarSpec] of the configuration file: the runtime type name and the two
    optional conversion functions.  A conversion function is taken to be a
    total function of the value alone: what it throws itself, and the index
    and array [Array.prototype.map] also passes it, are left out. *)
Record ScalarSpec := mkScalarSpec {
  scalar_type : string;
  marshal : option (Value -> Value);
  unmarshal : option (Value -> Value);
}.

(** [ConfigFile], reduced to what the walkers read: [scalars?]. *)
Record ConfigFile := mkConfigFile {
  scalars : option (gmap string ScalarSpec);
}.

(** [config.scalars?.[type]] *)
Definition scalar_of (config : ConfigFile) (t : string) : option ScalarSpec :=
  match scalars config with
  | None => None
  | Some m => m !! t
  end.

(** The input descriptor of an artifact: variable name to type name, and the
    named input object types to their own field types. *)
Record InputObject := mkInputObject {
  input_fields : gmap string string;
  input_types : gmap string (gmap string string);
}.

(** A query, mutation or subscription artifact, reduced to [input?]. *)
Record Artifact := mkArtifact {
  artifact_name : string;
  input : option InputObject;
}.

End Runtime.
Export Runtime.

(** ** src/runtime/scalars.ts *)

Module Scalars.

Definition missing_marshal (t : string) : Exception :=
  Error ("scalar type " +:+ t +:+ " is missing a `marshal` function. see https://github.com/AlecAivazis/houdini#%EF%B8%8Fcustom-scalars").

Definition missing_unmarshal (t : string) : Exception :=
  Error ("scalar type " +:+ t +:+ " is missing an `unmarshal` function. see https://github.com/AlecAivazis/houdini#%EF%B8%8Fcustom-scalars").

(** [const { type, fields } = selection[fieldName]] when [selection[fieldName]]
    is undefined. *)
Definition cannot_destructure (fieldName : string) : Exception :=
  TypeError ("Cannot destructure property 'type' of 'selection[fieldName]' as it is undefined: " +:+ fieldName).

(** The leaf of [marshalSelection]: the field has a type and no sub selection. *)
Definition marshalScalar (config : ConfigFile) (t : string) (value : Value)
  : Result Value :=
  match scalar_of config t with
  | Some spec =>
      match marshal spec with
      | None => Throw (missing_marshal t)
      | Some marshalFn =>
          match value with
          | VArray items => Ok (VArray (map marshalFn items))
          | _ => Ok (marshalFn value)
          end
      end
  | None => Ok value
  end.

(** The leaf of [unmarshalSelection].  The guard reads
    [config.scalars?.[type]?.marshal]. *)
Definition unmarshalScalar (config : ConfigFile) (t : string) (value : Value)
  : Result Value :=
  match scalar_of config t with
  | Some spec =>
      match marshal spec with
      | Some _ =>
          match unmarshal spec with
          | None => Throw (missing_unmarshal t)
          | Some unmarshalFn =>
              match value with
              | VArray items => Ok (VArray (map unmarshalFn items))
              | _ => Ok (unmarshalFn value)
              end
          end
      | None => Ok value
      end
  | None => Ok value
  end.

(** The callback both walkers map over [Object.entries(data)], once
    [selection[fieldName]] is known to hold [f].  [walk] is the walker itself
    and [leaf] the scalar conversion of the direction. *)
Definition walkField (walk : SubscriptionSelection -> Value -> Result Value)
    (leaf : string -> Value -> Result Value)
    (f : SelectionField) (fieldName : string) (value : Value)
  : Result (string * Value) :=
  if negb (truthy_string (type f)) then Ok (fieldName, value)
  else match fields f with
       | Some sub => v ← walk sub value; Ok (fieldName, v)
       | None => v ← leaf (default "" (type f)) value; Ok (fieldName, v)
       end.

(** One level of a walker: null and undefined are returned, an array is
    mapped element by element with the same selection, anything else is
    rebuilt from its entries.  [handler fieldName] is the callback for the
    field, when [selection[fieldName]] is defined. *)
Definition walkLevel
    (handler : string -> option (string -> Value -> Result (string * Value)))
  : Value -> Result Value :=
  fix go (data : Value) : Result Value :=
    match data with
    | VNull | VUndefined => Ok data
    | VArray items => items' ← mapResult go items; Ok (VArray items')
    | _ =>
        es ← mapResult
               (fun kv => match handler kv.1 with
                          | None => Throw (cannot_destructure kv.1)
                          | Some h => h kv.1 kv.2
                          end)
               (Object_entries data);
        Ok (Object_fromEntries es)
    end.

(** The recursion of both walkers descends the selection (a sub selection at
    each object field) and, inside one selection, the arrays of the data. *)
Fixpoint walkSelection (leaf : string -> Value -> Result Value)
    (selection : SubscriptionSelection) {struct selection}
  : Value -> Result Value :=
  match selection with
  | Selection m =>
      walkLevel (fun fieldName =>
        (walkField (walkSelection leaf) leaf <$> m) !! fieldName)
  end.

(** The callback of a walker on one entry of [Object.entries(data)]:
    [selection[fieldName]] is read and destructured, then handled. *)
Definition entryCallback (leaf : string -> Value -> Result Value)
    (selection : SubscriptionSelection) (kv : string * Value)
  : Result (string * Value) :=
  match entries selection !! kv.1 with
  | None => Throw (cannot_destructure kv.1)
  | Some f => walkField (walkSelection leaf) leaf f kv.1 kv.2
  end.

Definition marshalSelection (config : ConfigFile)
    (selection : SubscriptionSelection) (data : Value) : Result Value :=
  walkSelection (marshalScalar config) selection data.

Definition unmarshalSelection (config : ConfigFile)
    (selection : SubscriptionSelection) (data : Value) : Result Value :=
  walkSelection (unmarshalScalar config) selection data.

(** [isScalar]: the built-in scalar names followed by the keys of
    [config.scalars || {}]. *)
Definition isScalar (config : ConfigFile) (t : string) : bool :=
  bool_decide (t ∈ ["String"; "Boolean"; "Float"; "ID"; "Int"]
                   ++ (map_to_list (default ∅ (scalars config))).*1).

(** [marshalInputs].  The recursion follows the named types of the input
    descriptor, not the data alone, so the embedding carries the number of
    stack frames left: a call with none left is the engine's [RangeError].
    [rootType] is passed explicitly (its default is ["@root"]). *)
Fixpoint marshalInputs (frames : nat) (artifact : Artifact) (config : ConfigFile)
    (input : Value) (rootType : string) {struct frames} : Result Value :=
  match frames with
  | O => Throw (RangeError "Maximum call stack size exceeded")
  | S frames =>
      match input with
      | VNull | VUndefined => Ok input
      | _ =>
          match Runtime.input artifact with
          | None => Ok input
          | Some descriptor =>
              let fields :=
                if String.eqb rootType "@root" then Some (input_fields descriptor)
                else input_types descriptor !! rootType in
              match input with
              | VArray items =>
                  items' ← mapResult
                             (fun val => marshalInputs frames artifact config val rootType)
                             items;
                  Ok (VArray items')
              | _ =>
                  es ← mapResult
                         (fun kv =>
                            let fieldName := kv.1 in
                            let value := kv.2 in
                            let type := fields ≫= (fun fs => fs !! fieldName) in
                            if negb (truthy_string type) then Ok (fieldName, value)
                            else
                              let t := default "" type in
                              match scalar_of config t ≫= marshal with
                              | Some marshalFn =>
                                  match value with
                                  | VArray vs => Ok (fieldName, VArray (map marshalFn vs))
                                  | _ => Ok (fieldName, marshalFn value)
                                  end
                              | None =>
                                  if isScalar config t
                                     || negb (bool_decide (is_Some (input_types descriptor !! t)))
                                  then Ok (fieldName, value)
                                  else
                                    v ← marshalInputs frames artifact config value t;
                                    Ok (fieldName, v)
                              end)
                         (Object_entries input);
                  Ok (Object_fromEntries es)
              end
          end
      end
  end.

End Scalars.

(** ** GraphQL documents and schemas, as the transforms read them *)

Module GraphQL.

Inductive ValueNode :=
| VariableNode (name : string)
| IntValueNode (value : string)
| FloatValueNode (value : string)
| StringValueNode (value : string)
| BooleanValueNode (value : bool)
| NullValueNode
| EnumValueNode (value : string)
| ListValueNode (values : list ValueNode)
| ObjectValueNode (fields : list (string * ValueNode)).

Definition isVariable (v : ValueNode) : bool :=
  match v with VariableNode _ => true | _ => false end.

Definition isStringValue (v : ValueNode) : bool :=
  match v with StringValueNode _ => true | _ => false end.

(** [(arg.value as graphql.StringValueNode).value]: the [value] property of a
    literal node, undefined on the kinds that have none. *)
Definition literal_value (v : ValueNode) : Value :=
  match v with
  | IntValueNode s | FloatValueNode s | StringValueNode s | EnumValueNode s => VString s
  | BooleanValueNode b => VBool b
  | VariableNode _ | NullValueNode | ListValueNode _ | ObjectValueNode _ => VUndefined
  end.

Record ArgumentNode := mkArgument {
  arg_name : string;
  arg_value : ValueNode;
}.

Record DirectiveNode := mkDirective {
  directive_name : string;
  directive_arguments : list ArgumentNode;
  directive_loc : option (nat * nat);
}.

(** Selections.  An absent [arguments] or [directives] array is the empty
    list: every read of them in the transforms goes through [?.] or [|| []].
    [selectionSet] is optional on a field; the list is its [selections]. *)
Inductive SelectionNode :=
| FieldNode (alias : option string) (name : string)
            (arguments : list ArgumentNode) (directives : list DirectiveNode)
            (selectionSet : option (list SelectionNode))
| FragmentSpread (name : string) (directives : list DirectiveNode)
| InlineFragment (typeCondition : option string) (directives : list DirectiveNode)
                 (selectionSet : list SelectionNode).

Inductive OperationType := query | mutation | subscription.

Inductive DefinitionNode :=
| OperationDefinition (operation : OperationType) (name : option string)
                      (directives : list DirectiveNode)
                      (selectionSet : list SelectionNode)
| FragmentDefinition (name : string) (typeCondition : string)
                     (directives : list DirectiveNode)
                     (selectionSet : list SelectionNode).

(** The nodes of the [ancestors] argument of a visitor, outermost first.  The
    arrays, the document and the selection sets on the way carry nothing the
    transforms read and are left out. *)
Inductive ASTNode :=
| NDefinition (d : DefinitionNode)
| NSelection (s : SelectionNode).

Definition isFieldNode (n : ASTNode) : bool :=
  match n with NSelection (FieldNode _ _ _ _ _) => true | _ => false end.

(** [field.alias?.value || field.name.value] *)
Definition responseKey (alias : option string) (name : string) : string :=
  match alias with
  | Some a => if String.eqb a "" then name else a
  | None => name
  end.

Definition ancestorKey (n : ASTNode) : string :=
  match n with
  | NSelection (FieldNode alias name _ _ _) => responseKey alias name
  | _ => ""
  end.

(** Schema types.  A type reference names its type; the named types live in
    the schema. *)
Inductive GraphQLType :=
| NamedType (name : string)
| ListType (ofType : GraphQLType)
| NonNullType (ofType : GraphQLType).

Record GraphQLArgument := mkGraphQLArgument {
  argument_name : string;
  argument_type : GraphQLType;
}.

Record GraphQLField := mkGraphQLField {
  args : list GraphQLArgument;
  field_type : GraphQLType;
}.

Inductive TypeKind :=
| ObjectType | InterfaceType | UnionType | ScalarType | EnumType | InputObjectType.

Record GraphQLNamedType := mkNamedType {
  type_name : string;
  type_kind : TypeKind;
  type_fields : list (string * GraphQLField);
}.

(** [type.getFields]: a method of object, interface and input object types
    only. *)
Definition getFields (t : GraphQLNamedType) : option (list (string * GraphQLField)) :=
  match type_kind t with
  | ObjectType | InterfaceType | InputObjectType => Some (type_fields t)
  | UnionType | ScalarType | EnumType => None
  end.

(** [fields[name]] on the map [getFields()] returns *)
Fixpoint field_lookup (name : string) (fs : list (string * GraphQLField))
  : option GraphQLField :=
  match fs with
  | [] => None
  | (k, f) :: fs' => if String.eqb k name then Some f else field_lookup name fs'
  end.

Record GraphQLSchema := mkSchema {
  getQueryType : option string;
  getType : string -> option GraphQLNamedType;
  (** the names of the objects and of the interfaces implementing an
      interface *)
  getImplementations : string -> list string * list string;
}.

(** [TypeWrapper] of [cmd/utils] *)
Inductive TypeWrapper := WNullable | WList | WNonNull.

Record UnwrappedType := mkUnwrapped {
  unwrapped_type : GraphQLNamedType;
  wrappers : list TypeWrapper;
}.

End GraphQL.
Export GraphQL.

(** ** Compiler types: the configuration and the collected documents *)

Module Compiler.

(** [Config], reduced to what the two transforms read. *)
Record Config := mkConfig {
  schema : GraphQLSchema;
  paginateDirective : string;
  listDirective : string;
  argumentsDirective : string;
  withDirective : string;
  paginationQueryName : string -> string;
}.

Inductive ArtifactKind :=
| KindQuery | KindSubscription | KindMutation | KindFragment.

Module RefetchUpdateMode.
Inductive t := append | prepend.
End RefetchUpdateMode.

Inductive RefetchMethod := cursor | offset.

(** [BaseCompiledDocument['refetch']].  [start] is undefined until assigned. *)
Record Refetch := mkRefetch {
  update : RefetchUpdateMode.t;
  path : list string;
  method : RefetchMethod;
  pageSize : Value;
  start : Value;
  embedded : bool;
  targetType : string;
}.

Record CollectedGraphQLDocument := mkDocument {
  kind : ArtifactKind;
  filename : string;
  name : string;
  document : list DefinitionNode;
  originalDocument : list DefinitionNode;
  generate : bool;
  refetch : option Refetch;
}.

End Compiler.
Export Compiler.

(** ** The paginate transform *)

Module Paginate.

Inductive FlagType := TInt | TString.

Record FlagSpec := mkFlag {
  enabled : bool;
  type : FlagType;
  defaultValue : Value;
}.

(** [PaginationFlags]: the six entries the transform creates, in the order of
    the object literal. *)
Record PaginationFlags := mkFlags {
  first : FlagSpec;
  after : FlagSpec;
  last : FlagSpec;
  before : FlagSpec;
  limit : FlagSpec;
  offset : FlagSpec;
}.

Definition initialFlags : PaginationFlags :=
  {| first := mkFlag false TInt VUndefined;
     after := mkFlag false TString VUndefined;
     last := mkFlag false TInt VUndefined;
     before := mkFlag false TString VUndefined;
     limit := mkFlag false TInt VUndefined;
     offset := mkFlag false TInt VUndefined |}.

(** [Object.keys(flags)] *)
Definition flagNames : list string :=
  ["first"; "after"; "last"; "before"; "limit"; "offset"].

(** [flags[name]] *)
Definition flag (flags : PaginationFlags) (name : string) : option FlagSpec :=
  if String.eqb name "first" then Some (first flags)
  else if String.eqb name "after" then Some (after flags)
  else if String.eqb name "last" then Some (last flags)
  else if String.eqb name "before" then Some (before flags)
  else if String.eqb name "limit" then Some (limit flags)
  else if String.eqb name "offset" then Some (offset flags)
  else None.

(** [Object.entries(flags)] *)
Definition flagEntries (flags : PaginationFlags) : list (string * FlagSpec) :=
  [("first", first flags); ("after", after flags); ("last", last flags);
   ("before", before flags); ("limit", limit flags); ("offset", offset flags)].

Definition withEnabled (b : bool) (s : FlagSpec) : FlagSpec :=
  mkFlag b (type s) (defaultValue s).

Definition withDefault (v : Value) (s : FlagSpec) : FlagSpec :=
  mkFlag (enabled s) (type s) v.

(** [flags[name].defaultValue = v] *)
Definition setDefaultValue (name : string) (v : Value) (flags : PaginationFlags)
  : PaginationFlags :=
  if String.eqb name "first" then
    mkFlags (withDefault v (first flags)) (after flags) (last flags) (before flags) (limit flags) (offset flags)
  else if String.eqb name "after" then
    mkFlags (first flags) (withDefault v (after flags)) (last flags) (before flags) (limit flags) (offset flags)
  else if String.eqb name "last" then
    mkFlags (first flags) (after flags) (withDefault v (last flags)) (before flags) (limit flags) (offset flags)
  else if String.eqb name "before" then
    mkFlags (first flags) (after flags) (last flags) (withDefault v (before flags)) (limit flags) (offset flags)
  else if String.eqb name "limit" then
    mkFlags (first flags) (after flags) (last flags) (before flags) (withDefault v (limit flags)) (offset flags)
  else if String.eqb name "offset" then
    mkFlags (first flags) (after flags) (last flags) (before flags) (limit flags) (withDefault v (offset flags))
  else flags.

(** [new Set(names).has(name)] *)
Definition has (names : list string) (name : string) : bool :=
  bool_decide (name ∈ names).

(** The six assignments of the field visitor: which pagination the tagged
    field supports, from the argument names its schema definition declares
    ([args]) and the argument names the call site passes ([passedArgs]). *)
Definition updateFlags (args passedArgs : list string) (flags : PaginationFlags)
  : PaginationFlags :=
  let specifiedForwards := has passedArgs "first" in
  let specifiedBackwards := has passedArgs "last" in
  let forwardPagination :=
    negb specifiedBackwards && has args "first" && has args "after" in
  let backwardsPagination :=
    negb specifiedForwards && has args "last" && has args "before" in
  let offsetPagination :=
    negb forwardPagination && negb backwardsPagination
    && has args "offset" && has args "limit" in
  {| first := withEnabled forwardPagination (first flags);
     after := withEnabled forwardPagination (after flags);
     last := withEnabled backwardsPagination (last flags);
     before := withEnabled backwardsPagination (before flags);
     limit := withEnabled offsetPagination (limit flags);
     offset := withEnabled offsetPagination (offset flags) |}.

Definition variableAsArgument (name : string) : ArgumentNode :=
  mkArgument name (VariableNode name).

Definition plainField (name : string) (selectionSet : option (list SelectionNode))
  : SelectionNode :=
  FieldNode None name [] [] selectionSet.

Definition pageInfoSelection : list SelectionNode :=
  [ plainField "edges"
      (Some [ plainField "cursor" None;
              plainField "node" (Some [ plainField "__typename" None ]) ]);
    plainField "pageInfo"
      (Some [ plainField "hasPreviousPage" None;
              plainField "hasNextPage" None;
              plainField "startCursor" None;
              plainField "endCursor" None ]) ].

Section Transform.

(** Two functions the transform calls and this repository does not define:
    the engine's [parseInt], on the [value] property of a literal, and
    [parentTypeFromAncestors] of the common package. *)
Variable parseInt : Value -> Value.
Variable parentTypeFromAncestors : GraphQLSchema -> list ASTNode -> GraphQLNamedType.

(** [replaceArgumentsWithVariables].  The map over the call-site arguments
    assigns default values into [flags] as it goes, and records the names it
    replaced in [seenArgs]; the loop over the flag names then adds a variable
    reference for each enabled flag that has neither. *)
Definition replaceArgument (acc : list ArgumentNode * PaginationFlags * list string)
    (arg : ArgumentNode) : list ArgumentNode * PaginationFlags * list string :=
  let '(newArgs, flags, seenArgs) := acc in
  match flag flags (arg_name arg) with
  | None => (newArgs ++ [arg], flags, seenArgs)
  | Some spec =>
      if negb (enabled spec) then (newArgs ++ [arg], flags, seenArgs)
      else
        let flags' :=
          if negb (isVariable (arg_value arg)) then
            let oldValue := literal_value (arg_value arg) in
            setDefaultValue (arg_name arg)
              (match type spec with TInt => parseInt oldValue | TString => oldValue end)
              flags
          else flags in
        (newArgs ++ [variableAsArgument (arg_name arg)], flags', arg_name arg :: seenArgs)
  end.

Definition addMissingArgument (flags : PaginationFlags) (seenArgs : list string)
    (newArgs : list ArgumentNode) (name : string) : list ArgumentNode :=
  match flag flags name with
  | None => newArgs
  | Some spec =>
      if truthy (defaultValue spec) || negb (enabled spec) || has seenArgs name
      then newArgs
      else if has ["first"; "after"] name && enabled (before flags) then newArgs
      else if has ["last"; "before"] name && enabled (first flags) then newArgs
      else newArgs ++ [variableAsArgument name]
  end.

Definition replaceArgumentsWithVariables (args : list ArgumentNode)
    (flags : PaginationFlags) : list ArgumentNode * PaginationFlags :=
  let '(newArgs, flags', seenArgs) := fold_left replaceArgument args ([], flags, []) in
  (fold_left (addMissingArgument flags' seenArgs) flagNames newArgs, flags').

(** The state the field visitor closes over. *)
Record VisitState := mkVisitState {
  paginated : bool;
  flags : PaginationFlags;
  paginationPath : list string;
}.

(** The names of the arguments the schema declares for the field:
    [parentTypeFromAncestors(config.schema, ancestors).getFields()[name].args]. *)
Definition declaredArguments (config : Config) (ancestors : list ASTNode)
    (name : string) : Result (list string) :=
  match getFields (parentTypeFromAncestors (schema config) ancestors) with
  | None => Throw (TypeError "getFields is not a function")
  | Some fs =>
      match field_lookup name fs with
      | None => Throw (TypeError "Cannot read properties of undefined (reading 'args')")
      | Some f => Ok (map argument_name (args f))
      end
  end.

Definition hasDirective (directiveName : string) (directives : list DirectiveNode)
  : bool :=
  existsb (fun d => String.eqb (directive_name d) directiveName) directives.

(** The body of the [Field] visitor for a field that carries the paginate
    directive and has a selection set: the new state and the node it
    returns. *)
Definition enterPaginatedField (config : Config) (ancestors : list ASTNode)
    (st : VisitState) (alias : option string) (name : string)
    (arguments : list ArgumentNode) (directives : list DirectiveNode)
    (selections : list SelectionNode) : Result (SelectionNode * VisitState) :=
  args ← declaredArguments config ancestors name;
  let flags1 := updateFlags args (map arg_name arguments) (flags st) in
  let path :=
    (map ancestorKey (filter (fun a => isFieldNode a = true) ancestors)
       ++ [responseKey alias name]) in
  let '(newArgs, flags2) := replaceArgumentsWithVariables arguments flags1 in
  let offsetPagination := enabled (offset flags1) in
  Ok (FieldNode alias name newArgs directives
        (Some (if offsetPagination then selections
               else selections ++ pageInfoSelection)),
      mkVisitState true flags2 path).

(** [graphql.visit] with the [Field] visitor.  A node the visitor returns
    replaces the field and the walk goes on inside it; the selections added by
    the visitor carry no directive, so visiting them changes nothing and the
    walk below goes through the field's own selections only. *)
Fixpoint visitSelection (config : Config) (ancestors : list ASTNode)
    (st : VisitState) (sel : SelectionNode) {struct sel}
  : Result (SelectionNode * VisitState) :=
  let visitAll :=
    fun (visit : VisitState -> SelectionNode -> Result (SelectionNode * VisitState)) =>
      fix all (st : VisitState) (l : list SelectionNode)
        : Result (list SelectionNode * VisitState) :=
        match l with
        | [] => Ok ([], st)
        | s :: l' =>
            r ← visit st s;
            r' ← all r.2 l';
            Ok (r.1 :: r'.1, r'.2)
        end in
  match sel with
  | FieldNode alias name arguments directives selectionSet =>
      match selectionSet with
      | None => Ok (sel, st)
      | Some selections =>
          if hasDirective (paginateDirective config) directives then
            entered ← enterPaginatedField config ancestors st alias name
                        arguments directives selections;
            let node := entered.1 in
            match node with
            | FieldNode alias' name' arguments' directives' selectionSet' =>
                r ← visitAll (fun st s =>
                                visitSelection config (ancestors ++ [NSelection node]) st s)
                      entered.2 selections;
                Ok (FieldNode alias' name' arguments' directives'
                      (Some (if enabled (offset (flags entered.2)) then r.1
                             else r.1 ++ pageInfoSelection)),
                    r.2)
            | _ => Ok entered
            end
          else
            r ← visitAll (fun st s =>
                            visitSelection config (ancestors ++ [NSelection sel]) st s)
                  st selections;
            Ok (FieldNode alias name arguments directives (Some r.1), r.2)
      end
  | FragmentSpread _ _ => Ok (sel, st)
  | InlineFragment typeCondition directives selections =>
      r ← visitAll (fun st s =>
                      visitSelection config (ancestors ++ [NSelection sel]) st s)
            st selections;
      Ok (InlineFragment typeCondition directives r.1, r.2)
  end.

(** The first visit over the definitions of a document. *)
Fixpoint visitSelections (config : Config) (ancestors : list ASTNode)
    (st : VisitState) (l : list SelectionNode)
  : Result (list SelectionNode * VisitState) :=
  match l with
  | [] => Ok ([], st)
  | s :: l' =>
      r ← visitSelection config ancestors st s;
      r' ← visitSelections config ancestors r.2 l';
      Ok (r.1 :: r'.1, r'.2)
  end.

Definition visitDefinition (config : Config) (st : VisitState) (d : DefinitionNode)
  : Result (DefinitionNode * VisitState) :=
  match d with
  | OperationDefinition operation name directives selections =>
      r ← visitSelections config [NDefinition d] st selections;
      Ok (OperationDefinition operation name directives r.1, r.2)
  | FragmentDefinition name typeCondition directives selections =>
      r ← visitSelections config [NDefinition d] st selections;
      Ok (FragmentDefinition name typeCondition directives r.1, r.2)
  end.

Fixpoint visitDefinitions (config : Config) (st : VisitState)
    (ds : list DefinitionNode) : Result (list DefinitionNode * VisitState) :=
  match ds with
  | [] => Ok ([], st)
  | d :: ds' =>
      r ← visitDefinition config st d;
      r' ← visitDefinitions config r.2 ds';
      Ok (r.1 :: r'.1, r'.2)
  end.

(** What the second visit leaves in the variables around it.  Its rewriting
    of the variable definitions and of the arguments directive is not part of
    the embedding. *)
Record DefinitionInfo := mkInfo {
  fragmentName : string;
  refetchQueryName : string;
  nodeQuery : bool;
  fragment : string;
}.

Definition initialInfo : DefinitionInfo := mkInfo "" "" false "".

Definition enterDefinition (config : Config) (info : DefinitionInfo)
    (d : DefinitionNode) : Result DefinitionInfo :=
  match d with
  | OperationDefinition operation name _ _ =>
      match operation with
      | query =>
          Ok (mkInfo (fragmentName info)
                (match name with Some n => n | None => "" end)
                (nodeQuery info) (fragment info))
      | _ =>
          Throw (Error ("@" +:+ paginateDirective config
                          +:+ " can only show up in a query or fragment document"))
      end
  | FragmentDefinition name typeCondition _ _ =>
      Ok (mkInfo name (paginationQueryName config name)
            (negb (bool_decide (getQueryType (schema config) = Some typeCondition)))
            typeCondition)
  end.

Fixpoint enterDefinitions (config : Config) (info : DefinitionInfo)
    (ds : list DefinitionNode) : Result DefinitionInfo :=
  match ds with
  | [] => Ok info
  | d :: ds' => info' ← enterDefinition config info d; enterDefinitions config info' ds'
  end.

(** The 'target' type of the refetch. *)
Definition refetchTargetType (config : Config) (fragment : string) : string :=
  if String.eqb fragment "" then default "" (getQueryType (schema config))
  else
    match getType (schema config) "Node" with
    | Some _ =>
        let '(objects, interfaces) := getImplementations (schema config) "Node" in
        if has objects fragment || has interfaces fragment then "Node" else fragment
    | None => fragment
    end.

Definition refetchUpdate (flags : PaginationFlags) : RefetchUpdateMode.t :=
  if enabled (last flags) then RefetchUpdateMode.prepend else RefetchUpdateMode.append.

(** The default page size and the start the assignments after
    [doc.refetch = ...] leave: [pageSize: 0] and no [start] when no flag is
    enabled. *)
Definition refetchPage (fl : PaginationFlags) : Value * Value :=
  if enabled (first fl) then (defaultValue (first fl), defaultValue (after fl))
  else if enabled (last fl) then (defaultValue (last fl), defaultValue (before fl))
  else if enabled (limit fl) then (defaultValue (limit fl), defaultValue (offset fl))
  else (VNumber 0, VUndefined).

(** [doc.refetch], with the default page size and start filled in. *)
Definition refetchDescriptor (config : Config) (st : VisitState)
    (info : DefinitionInfo) : Refetch :=
  let fl := flags st in
  mkRefetch (refetchUpdate fl) (paginationPath st)
    (if enabled (first fl) || enabled (last fl) then cursor else Compiler.offset)
    (refetchPage fl).1 (refetchPage fl).2
    (nodeQuery info) (refetchTargetType config (fragment info)).

(** The state of the first visit of a document. *)
Definition visitDocument (config : Config) (doc : CollectedGraphQLDocument)
  : Result (list DefinitionNode * VisitState) :=
  visitDefinitions config (mkVisitState false initialFlags []) (document doc).

(** The body of the loop of [paginate] over the documents, up to the refetch
    descriptor it records on the document.  The refetch query it then builds
    for a fragment is not part of the embedding. *)
Definition paginateDocument (config : Config) (doc : CollectedGraphQLDocument)
  : Result CollectedGraphQLDocument :=
  visited ← visitDocument config doc;
  let st := visited.2 in
  if paginated st then
    info ← enterDefinitions config initialInfo visited.1;
    Ok (mkDocument (kind doc) (filename doc) (name doc) visited.1
          (originalDocument doc) (generate doc)
          (Some (refetchDescriptor config st info)))
  else
    Ok (mkDocument (kind doc) (filename doc) (name doc) visited.1
          (originalDocument doc) (generate doc) (refetch doc)).

End Transform.

End Paginate.

(** ** The list transform *)

Module Lists.

(** What [connectionSelection] returns. *)
Record ConnectionSelection := mkConnection {
  selection : option (list SelectionNode);
  type : GraphQLNamedType;
  connection : bool;
}.

(** An entry of the [lists] table. *)
Record ListEntry := mkListEntry {
  list_selection : option (list SelectionNode);
  list_type : GraphQLNamedType;
  list_filename : string;
}.

(** The two accumulators of [addListFragments]. *)
Record ListState := mkListState {
  lists : gmap string ListEntry;
  errors : list HoudiniError;
}.

(** [selection.kind === 'Field' && selection.name.value === name] *)
Definition isFieldNamed (name : string) (s : SelectionNode) : bool :=
  match s with
  | FieldNode _ n _ _ _ => String.eqb n name
  | _ => false
  end.

Definition selectionSetOf (s : SelectionNode) : option (list SelectionNode) :=
  match s with
  | FieldNode _ _ _ _ selectionSet => selectionSet
  | FragmentSpread _ _ => None
  | InlineFragment _ _ selections => Some selections
  end.

(** [wrappers[wrappers.length - 2]] *)
Definition secondToLast (wrappers : list TypeWrapper) : option TypeWrapper :=
  if Nat.ltb (length wrappers) 2 then None
  else wrappers !! (length wrappers - 2)%nat.

Definition isListWrapper (w : option TypeWrapper) : bool :=
  match w with Some WList => true | _ => false end.

(** [node.name.value] of the node a directive sits on, where it has a name. *)
Definition nodeName (n : ASTNode) : option string :=
  match n with
  | NSelection (FieldNode _ name _ _ _) => Some name
  | NSelection (FragmentSpread name _) => Some name
  | NSelection (InlineFragment _ _ _) => None
  | NDefinition (OperationDefinition _ name _ _) => name
  | NDefinition (FragmentDefinition name _ _ _) => Some name
  end.

Definition nodeSelectionSet (n : ASTNode) : option (list SelectionNode) :=
  match n with
  | NSelection s => selectionSetOf s
  | NDefinition (OperationDefinition _ _ _ selections) => Some selections
  | NDefinition (FragmentDefinition _ _ _ selections) => Some selections
  end.

(** [[config.listDirective, config.paginateDirective].includes(node.name.value)] *)
Definition has_directive_name (config : Config) (node : DirectiveNode) : bool :=
  String.eqb (directive_name node) (listDirective config)
  || String.eqb (directive_name node) (paginateDirective config).

Section Transform.

(** [unwrapType] of [cmd/utils] and [parentTypeFromAncestors] of the common
    package are called by the transform and not defined in this repository's
    sources. *)
Variable unwrapType : Config -> GraphQLType -> UnwrappedType.
Variable parentTypeFromAncestors : GraphQLSchema -> list ASTNode -> GraphQLNamedType.

(** [field.args.reduce(...)]: argument name to the name of its unwrapped type *)
Definition fieldArgs (config : Config) (field : GraphQLField) : gmap string string :=
  fold_left
    (fun args arg =>
       <[argument_name arg :=
           type_name (unwrapped_type (unwrapType config (argument_type arg)))]> args)
    (args field) ∅.

(** [connectionSelection].  [field] is what [getFields()[name]] returned at
    the call site, undefined included. *)
Definition connectionSelection (config : Config) (field : option GraphQLField)
    (type : GraphQLNamedType) (selection : option (list SelectionNode))
  : Result ConnectionSelection :=
  match field with
  | None => Throw (TypeError "Cannot read properties of undefined (reading 'args')")
  | Some field =>
      let fieldArgs := fieldArgs config field in
      let forwardPagination :=
        bool_decide (fieldArgs !! "first" = Some "Int")
        && bool_decide (fieldArgs !! "after" = Some "String") in
      let backwardsPagination :=
        bool_decide (fieldArgs !! "last" = Some "Int")
        && bool_decide (fieldArgs !! "before" = Some "String") in
      if negb forwardPagination && negb backwardsPagination then
        Ok (mkConnection selection type false)
      else
        match selection ≫= List.find (isFieldNamed "edges") with
        | None => Ok (mkConnection selection type false)
        | Some edgesField =>
            match selectionSetOf edgesField ≫= List.find (isFieldNamed "node") with
            | None =>
                Throw (TypeError "Cannot read properties of undefined (reading 'selectionSet')")
            | Some nodeSelection =>
                match selectionSetOf nodeSelection with
                | None => Ok (mkConnection selection type false)
                | Some nodeSelectionSet =>
                    match getFields (unwrapped_type (unwrapType config (field_type field))) with
                    | None => Throw (TypeError "getFields is not a function")
                    | Some fs =>
                        match field_lookup "edges" fs with
                        | None =>
                            Throw (TypeError "Cannot read properties of undefined (reading 'type')")
                        | Some edgeField =>
                            let edge := unwrapType config (field_type edgeField) in
                            if negb (isListWrapper (secondToLast (wrappers edge))) then
                              Ok (mkConnection selection type false)
                            else
                              match getFields (unwrapped_type edge) with
                              | None => Throw (TypeError "getFields is not a function")
                              | Some edgeFields =>
                                  match field_lookup "node" edgeFields with
                                  | None => Ok (mkConnection selection type false)
                                  | Some nodeField =>
                                      Ok (mkConnection (Some nodeSelectionSet)
                                            (unwrapped_type (unwrapType config (field_type nodeField)))
                                            true)
                                  end
                              end
                        end
                    end
                end
            end
        end
  end.

(** The error object built for a directive node: a GraphQLError located at
    the node, with the file of the document. *)
Definition directiveError (doc : CollectedGraphQLDocument) (node : DirectiveNode)
    (message : string) : HoudiniError :=
  mkHoudiniError message (filename doc) (directive_loc node).

(** The [Directive] visitor of [addListFragments] on one directive node.
    [ancestors] ends with the node the directive sits on.  The result is the
    node that replaces the directive, when there is one, and the two
    accumulators. *)
Definition visitDirective (config : Config) (doc : CollectedGraphQLDocument)
    (ancestors : list ASTNode) (st : ListState) (node : DirectiveNode)
  : Result (option DirectiveNode * ListState) :=
  if has_directive_name config node then
    match List.find (fun arg => String.eqb (arg_name arg) "name") (directive_arguments node) with
    | None =>
        if String.eqb (directive_name node) (listDirective config) then
          Ok (None,
              mkListState (lists st)
                (errors st ++ [directiveError doc node
                                 ("@" +:+ directive_name node +:+ " must have a name argument")]))
        else Ok (None, st)
    | Some nameArg =>
        match arg_value nameArg with
        | StringValueNode listName =>
            let errors' :=
              match lists st !! listName with
              | Some _ =>
                  errors st ++ [directiveError doc node
                                  ("@" +:+ directive_name node +:+ " name must be unique")]
              | None => errors st
              end in
            match getFields (parentTypeFromAncestors (schema config) (removelast ancestors)) with
            | None => Throw (TypeError "getFields is not a function")
            | Some parentFields =>
                match last ancestors ≫= nodeName with
                | None => Throw (TypeError "Cannot read properties of undefined (reading 'value')")
                | Some targetName =>
                    c ← connectionSelection config
                          (field_lookup targetName parentFields)
                          (parentTypeFromAncestors (schema config) ancestors)
                          (last ancestors ≫= nodeSelectionSet);
                    let lists' :=
                      <[listName := mkListEntry (selection c) (type c) (filename doc)]>
                        (lists st) in
                    Ok (if connection c then
                          Some (mkDirective (directive_name node)
                                  (directive_arguments node
                                     ++ [mkArgument "connection" (BooleanValueNode true)])
                                  (directive_loc node))
                        else None,
                        mkListState lists' errors')
                end
            end
        | _ =>
            Ok (None,
                mkListState (lists st)
                  (errors st ++ [directiveError doc node
                                   ("@" +:+ directive_name node +:+ " name must be a string")]))
        end
    end
  else Ok (None, st).

(** The directive nodes of a document in the order [graphql.visit] enters
    them, each with its ancestors: the directives of a node come before its
    selection set.  The [Field] visitor of the same walk only appends the
    page-info selections to a connection, after the selections
    [connectionSelection] reads, and is not part of the embedding. *)
Fixpoint selectionDirectives (ancestors : list ASTNode) (sel : SelectionNode)
  : list (list ASTNode * DirectiveNode) :=
  let here := ancestors ++ [NSelection sel] in
  match sel with
  | FieldNode _ _ _ directives selectionSet =>
      map (pair here) directives
      ++ match selectionSet with
         | None => []
         | Some selections => flat_map (selectionDirectives here) selections
         end
  | FragmentSpread _ directives => map (pair here) directives
  | InlineFragment _ directives selections =>
      map (pair here) directives ++ flat_map (selectionDirectives here) selections
  end.

Definition definitionDirectives (d : DefinitionNode)
  : list (list ASTNode * DirectiveNode) :=
  match d with
  | OperationDefinition _ _ directives selections
  | FragmentDefinition _ _ directives selections =>
      map (pair [NDefinition d]) directives
      ++ flat_map (selectionDirectives [NDefinition d]) selections
  end.

Definition documentDirectives (doc : CollectedGraphQLDocument)
  : list (list ASTNode * DirectiveNode) :=
  flat_map definitionDirectives (document doc).

(** The walk over one document: the visitor on each directive in turn; an
    exception of the visitor ends the walk. *)
Fixpoint visitDirectives (config : Config) (doc : CollectedGraphQLDocument)
    (st : ListState) (sites : list (list ASTNode * DirectiveNode))
  : Result ListState :=
  match sites with
  | [] => Ok st
  | site :: rest =>
      r ← visitDirective config doc site.1 st site.2;
      visitDirectives config doc r.2 rest
  end.

(** [for (const doc of documents)] *)
Fixpoint walkDocuments (config : Config) (st : ListState)
    (documents : list CollectedGraphQLDocument) : Result ListState :=
  match documents with
  | [] => Ok st
  | doc :: rest =>
      st' ← visitDirectives config doc st (documentDirectives doc);
      walkDocuments config st' rest
  end.

(** [addListFragments], up to the table of lists it goes on to generate the
    fragments from: the walk over every document, then the throw of the
    accumulated errors. *)
Definition addListFragments (config : Config)
    (documents : list CollectedGraphQLDocument) : Result (gmap string ListEntry) :=
  st ← walkDocuments config (mkListState ∅ []) documents;
  if Nat.ltb 0 (length (errors st)) then Throw (ErrorList (errors st))
  else Ok (lists st).

End Transform.

End Lists.

(** ** The selection compiler and the masked flag *)

Module Artifacts.

(** Modelled from the spec: the function that compiles a document's selection
    set into the artifact's selection (cmd/generators/artifacts) is not among
    the sources, only its test file is.  The specification's words: the
    compiler walks the selection set recursively, resolves each field's
    return type, and merges sibling occurrences of the same response alias,
    from direct selection and from fragment spreads, into one node; the
    [masked] flag of the merged node is the logical AND of "not directly
    selected" across the occurrences merged. *)
Fixpoint mergeSelection (a b : SubscriptionSelection) {struct a}
  : SubscriptionSelection :=
  match a, b with
  | Selection ma, Selection mb =>
      Selection (union_with (fun fa fb => Some (mergeField fa fb)) ma mb)
  end
with mergeField (fa fb : SelectionField) {struct fa} : SelectionField :=
  match fa, fb with
  | Field t k m fs, Field _ _ m' fs' =>
      Field t k (m && m')
        (match fs, fs' with
         | Some x, Some y => Some (mergeSelection x y)
         | Some x, None => Some x
         | None, y => y
         end)
  end.

(** Modelled from the spec: the merge of two compiled selection levels, the
    part of the compiler (not among the sources) that merges sibling
    occurrences of the same response alias into one node. *)
Definition mergeEntries (a b : gmap string SelectionField)
  : gmap string SelectionField :=
  union_with (fun fa fb => Some (mergeField fa fb)) a b.

Section Compile.

(** The schema lookup of a field's named return type, from the name of the
    parent type and the field name, and the printer of [keyRaw]. *)
Variable fieldType : string -> string -> string.
Variable fieldKey : string -> list ArgumentNode -> string.

(** Modelled from the spec: the occurrences of one selection node.  A field
    written in the selection set being walked is an occurrence with
    [masked = spread], where [spread] tells whether the walk is inside a
    fragment spread; an inline fragment is walked in place; a fragment
    spread contributes what [expand] compiles for the fragment it names. *)
Fixpoint selectionNode (expand : string -> gmap string SelectionField)
    (rootType : string) (spread : bool) (sel : SelectionNode) {struct sel}
  : gmap string SelectionField :=
  match sel with
  | FieldNode alias name arguments _ selectionSet =>
      let t := fieldType rootType name in
      {[ responseKey alias name :=
           Field (Some t) (fieldKey name arguments) spread
             (match selectionSet with
              | None => None
              | Some selections =>
                  Some (Selection
                          (fold_left
                             (fun acc s => mergeEntries acc (selectionNode expand t spread s))
                             selections ∅))
              end) ]}
  | FragmentSpread name _ => expand name
  | InlineFragment typeCondition _ selections =>
      fold_left
        (fun acc s =>
           mergeEntries acc
             (selectionNode expand (default rootType typeCondition) spread s))
        selections ∅
  end.

(** Modelled from the spec: one level of the compiler (not among the
    sources), the occurrences of the selections of a selection set merged in
    document order. *)
Definition selectionLevel (expand : string -> gmap string SelectionField)
    (rootType : string) (spread : bool) (selections : list SelectionNode)
  : gmap string SelectionField :=
  fold_left (fun acc s => mergeEntries acc (selectionNode expand rootType spread s))
    selections ∅.

(** Modelled from the spec: the compiled selection of a selection set.
    [fragments] maps a fragment name to its type condition and selection
    set.  [depth] bounds the nesting of fragment spreads that is followed (a
    valid document has no cycle of spreads); a spread nested deeper
    contributes nothing. *)
Fixpoint selection (depth : nat) (fragments : gmap string (string * list SelectionNode))
    (rootType : string) (spread : bool) (selections : list SelectionNode)
  : gmap string SelectionField :=
  selectionLevel
    (fun fragmentName =>
       match depth with
       | O => ∅
       | S depth' =>
           match fragments !! fragmentName with
           | None => ∅
           | Some (typeCondition, fragmentSelections) =>
               selection depth' fragments typeCondition true fragmentSelections
           end
       end)
    rootType spread selections.

End Compile.

(** The node at a path of response keys in a compiled selection. *)
Fixpoint lookupPath (s : gmap string SelectionField) (path : list string)
  : option SelectionField :=
  match path with
  | [] => None
  | k :: rest =>
      match s !! k with
      | None => None
      | Some f =>
          match rest with
          | [] => Some f
          | _ =>
              match fields f with
              | Some (Selection sub) => lookupPath sub rest
              | None => None
              end
          end
      end
  end.

(** A path of response keys is directly selected in a selection set when
    following it goes through fields written in the selection sets
    themselves (inline fragments included), never through a fragment
    spread. *)
Fixpoint selectedDirectly (path : list string) (sel : SelectionNode) {struct sel}
  : bool :=
  match sel with
  | FieldNode alias name _ _ selectionSet =>
      match path with
      | [] => false
      | k :: rest =>
          String.eqb (responseKey alias name) k
          && match rest with
             | [] => true
             | _ =>
                 match selectionSet with
                 | None => false
                 | Some selections => existsb (selectedDirectly rest) selections
                 end
             end
      end
  | FragmentSpread _ _ => false
  | InlineFragment _ _ selections => existsb (selectedDirectly path) selections
  end.

End Artifacts.

(** ** Predicates the statements below use *)

Module Props.

Import Scalars.

(** The data has the shape the selection describes: at every position the
    walker visits there is null, undefined, an array of such values or an
    object with pairwise distinct keys, every key of which is in the
    selection. *)
Fixpoint shaped (selection : SubscriptionSelection) (data : Value) {struct data}
  : bool :=
  match data with
  | VNull | VUndefined => true
  | VArray items => forallb (shaped selection) items
  | VObject props =>
      bool_decide (NoDup (map fst props))
      && forallb
           (fun kv =>
              match entries selection !! kv.1 with
              | None => false
              | Some f =>
                  if truthy_string (Runtime.type f) then
                    match fields f with
                    | Some sub => shaped sub kv.2
                    | None => true
                    end
                  else true
              end)
           props
  | VBool _ | VNumber _ | VString _ => false
  end.

(** Every own field of every object the walker visits is in the selection
    (the condition of the round-trip property as the specification words
    it). *)
Fixpoint fieldsSelected (selection : SubscriptionSelection) (data : Value)
    {struct data} : bool :=
  match data with
  | VArray items => forallb (fieldsSelected selection) items
  | VObject props =>
      forallb
        (fun kv =>
           match entries selection !! kv.1 with
           | None => false
           | Some f =>
               if truthy_string (Runtime.type f) then
                 match fields f with
                 | Some sub => fieldsSelected sub kv.2
                 | None => true
                 end
               else true
           end)
        props
  | _ => true
  end.

(** Every configured scalar has both conversion functions and they are
    inverse to one another. *)
Definition inverseScalars (config : ConfigFile) : Prop :=
  forall t spec, scalar_of config t = Some spec ->
    exists m u, marshal spec = Some m /\ unmarshal spec = Some u
                /\ (forall v, u (m v) = v) /\ (forall v, m (u v) = v).

(** No conversion function turns a value that is not an array into an
    array. *)
Definition keepsNonArrays (config : ConfigFile) : Prop :=
  forall t spec f, scalar_of config t = Some spec ->
    marshal spec = Some f \/ unmarshal spec = Some f ->
    forall v, isArray v = false -> isArray (f v) = false.

(** Which of the three pagination strategies has a flag enabled. *)
Definition forwardEnabled (flags : Paginate.PaginationFlags) : bool :=
  Paginate.enabled (Paginate.first flags) || Paginate.enabled (Paginate.after flags).
Definition backwardEnabled (flags : Paginate.PaginationFlags) : bool :=
  Paginate.enabled (Paginate.last flags) || Paginate.enabled (Paginate.before flags).

(** The six [enabled] bits of the flags. *)
Definition enabledBits (flags : Paginate.PaginationFlags) : list bool :=
  map (fun entry => Paginate.enabled entry.2) (Paginate.flagEntries flags).


(** The naming problems of the list transform, as the specification words
    them.  A list or paginate directive registers the string its [name]
    argument holds. *)
Inductive NamingProblem := MissingName | NameNotString | DuplicateName.

Definition nameArgument (node : DirectiveNode) : option ArgumentNode :=
  List.find (fun arg => String.eqb (arg_name arg) "name") (directive_arguments node).

Definition registeredName (config : Config) (node : DirectiveNode) : option string :=
  if Lists.has_directive_name config node then
    match arg_value <$> nameArgument node with
    | Some (StringValueNode listName) => Some listName
    | _ => None
    end
  else None.

(** The problem of one directive, given the names registered before it: a
    list directive without a name; a name that is not a string; a name
    registered earlier.  A paginate directive without a name has none. *)
Definition namingProblem (config : Config) (seen : gset string) (node : DirectiveNode)
  : option NamingProblem :=
  if Lists.has_directive_name config node then
    match arg_value <$> nameArgument node with
    | None =>
        if String.eqb (directive_name node) (listDirective config)
        then Some MissingName else None
    | Some (StringValueNode listName) =>
        if bool_decide (listName ∈ seen) then Some DuplicateName else None
    | Some _ => Some NameNotString
    end
  else None.




(** The masked flag at a path of a compiled selection, when there is a node
    at the path. *)
Definition maskedAt (s : gmap string SelectionField) (path : list string)
  : option bool :=
  masked <$> Artifacts.lookupPath s path.

(** A compiled selection tracks [direct], a set of paths: a node at a path
    is masked exactly when the path is not in [direct], and every path in
    [direct] has a node. *)
Definition Tracks (direct : list string -> bool) (s : gmap string SelectionField)
  : Prop :=
  forall path,
    match maskedAt s path with
    | Some m => m = negb (direct path)
    | None => direct path = false
    end.

(** The round trip of a value through both walkers, in either order. *)
Definition roundTrips (config : ConfigFile) (selection : SubscriptionSelection)
    (data : Value) : Prop :=
  marshalSelection config selection data ≫= unmarshalSelection config selection
    = Ok data
  /\ unmarshalSelection config selection data ≫= marshalSelection config selection
    = Ok data.

(** The two leaf conversions undo one another, in this order. *)
Definition leafInverse (leaf1 leaf2 : string -> Value -> Result Value) : Prop :=
  forall t v, exists w, leaf1 t v = Ok w /\ leaf2 t w = Ok v.

End Props.

(** ** Inputs the examples below run on *)

Module Examples.

Import Scalars.

(** No custom scalar configured. *)
Definition plainConfig : ConfigFile := mkConfigFile None.

(** [scalars: { DateTime: { type: 'Date' } }]: a custom scalar declared with
    neither conversion function. *)
Definition bareDateConfig : ConfigFile :=
  mkConfigFile (Some {[ "DateTime" := mkScalarSpec "Date" None None ]}).

(** [{ createdAt: { type: 'DateTime', keyRaw: 'createdAt' } }] *)
Definition createdAtSelection : SubscriptionSelection :=
  Selection {[ "createdAt" := Field (Some "DateTime") "createdAt" false None ]}.

(** A scalar kept as a number one larger in memory than on the wire. *)
Definition shift (d : Z) (v : Value) : Value :=
  match v with VNumber n => VNumber (n + d) | _ => v end.

Definition offsetConfig : ConfigFile :=
  mkConfigFile
    (Some {[ "Offset" := mkScalarSpec "number" (Some (shift 1)) (Some (shift (-1))) ]}).

(** [{ users: { type: 'User', fields: { id: ID, joined: Offset, tags: Offset } } }] *)
Definition usersSelection : SubscriptionSelection :=
  Selection
    {[ "users" :=
         Field (Some "User") "users" false
           (Some (Selection
                    {[ "id" := Field (Some "ID") "id" false None;
                       "joined" := Field (Some "Offset") "joined" false None;
                       "tags" := Field (Some "Offset") "tags" false None ]})) ]}.

Definition usersData : Value :=
  VObject
    [("users",
      VArray
        [ VObject [("id", VString "1"); ("joined", VNumber 10);
                   ("tags", VArray [VNumber 1; VNumber 2])];
          VNull ])].

(** A scalar whose two functions are one involution exchanging the number 0
    and the empty array. *)
Definition exchange (v : Value) : Value :=
  match v with
  | VNumber 0 => VArray []
  | VArray [] => VNumber 0
  | _ => v
  end.

Definition exchangeConfig : ConfigFile :=
  mkConfigFile
    (Some {[ "Slots" := mkScalarSpec "Slots" (Some exchange) (Some exchange) ]}).

Definition slotsSelection : SubscriptionSelection :=
  Selection {[ "slots" := Field (Some "Slots") "slots" false None ]}.

(** An instance of [parseInt] on the literals of the examples: a string of
    decimal digits is the number it writes, anything else is not a number
    (which stands here as undefined). *)
Fixpoint digits (acc : Z) (s : string) : option Z :=
  match s with
  | EmptyString => Some acc
  | String c s' =>
      let n := Z.of_nat (Ascii.nat_of_ascii c) - 48 in
      if (0 <=? n)%Z && (n <=? 9)%Z then digits (10 * acc + n) s' else None
  end%Z.

Definition decimal (v : Value) : Value :=
  match v with
  | VString (String c s') =>
      match digits 0 (String c s') with Some n => VNumber n | None => VUndefined end
  | _ => VUndefined
  end.

Definition intArg (name : string) : GraphQLArgument :=
  mkGraphQLArgument name (NamedType "Int").
Definition stringArg (name : string) : GraphQLArgument :=
  mkGraphQLArgument name (NamedType "String").

(** [type User { friends(first: Int, after: String, last: Int, before: String): UserConnection!
                 friendsList(limit: Int, offset: Int): [User!]! }] *)
Definition userType : GraphQLNamedType :=
  mkNamedType "User" ObjectType
    [("id", mkGraphQLField [] (NonNullType (NamedType "ID")));
     ("friends",
      mkGraphQLField [intArg "first"; stringArg "after"; intArg "last"; stringArg "before"]
        (NonNullType (NamedType "UserConnection")));
     ("friendsList",
      mkGraphQLField [intArg "limit"; intArg "offset"]
        (NonNullType (ListType (NonNullType (NamedType "User")))))].

Definition userEdgeType : GraphQLNamedType :=
  mkNamedType "UserEdge" ObjectType
    [("cursor", mkGraphQLField [] (NamedType "String"));
     ("node", mkGraphQLField [] (NamedType "User"))].

Definition userConnectionType : GraphQLNamedType :=
  mkNamedType "UserConnection" ObjectType
    [("edges", mkGraphQLField [] (NonNullType (ListType (NamedType "UserEdge"))))].

Definition scalarType (name : string) : GraphQLNamedType :=
  mkNamedType name ScalarType [].

Definition queryType : GraphQLNamedType :=
  mkNamedType "Query" ObjectType [("user", mkGraphQLField [] (NamedType "User"))].

Definition exampleSchema : GraphQLSchema :=
  mkSchema (Some "Query")
    (fun name =>
       if String.eqb name "User" then Some userType
       else if String.eqb name "UserEdge" then Some userEdgeType
       else if String.eqb name "UserConnection" then Some userConnectionType
       else if String.eqb name "Query" then Some queryType
       else if String.eqb name "Int" then Some (scalarType "Int")
       else if String.eqb name "String" then Some (scalarType "String")
       else if String.eqb name "ID" then Some (scalarType "ID")
       else None)
    (fun _ => ([], [])).

Definition exampleConfig : Config :=
  mkConfig exampleSchema "paginate" "list" "arguments" "with"
    (fun fragmentName => fragmentName +:+ "_Pagination_Query").

(** An instance of [parentTypeFromAncestors] for the example documents: the
    type of the last field among the ancestors, [Query] at the root of an
    operation and the type condition at the root of a fragment. *)
Definition exampleParentType (s : GraphQLSchema) (ancestors : list ASTNode)
  : GraphQLNamedType :=
  match last ancestors with
  | Some (NSelection (FieldNode _ "user" _ _ _)) => userType
  | Some (NSelection (FieldNode _ "friends" _ _ _)) => userConnectionType
  | Some (NSelection (FieldNode _ "friendsList" _ _ _)) => userType
  | Some (NSelection (FieldNode _ "edges" _ _ _)) => userEdgeType
  | Some (NSelection (FieldNode _ "node" _ _ _)) => userType
  | Some (NDefinition (FragmentDefinition _ "User" _ _)) => userType
  | _ => queryType
  end.

Definition field (name : string) (selectionSet : option (list SelectionNode))
  : SelectionNode :=
  FieldNode None name [] [] selectionSet.

Definition directive (name : string) (arguments : list ArgumentNode) : DirectiveNode :=
  mkDirective name arguments None.

(** [friends(...) @paginate { edges { node { id } } }] with the given call-site
    arguments *)
Definition paginatedFriends (arguments : list ArgumentNode) : SelectionNode :=
  FieldNode None "friends" arguments [directive "paginate" []]
    (Some [field "edges" (Some [field "node" (Some [field "id" None])])]).

Definition queryDocument (name : string) (selections : list SelectionNode)
  : CollectedGraphQLDocument :=
  let definitions := [OperationDefinition query (Some name) [] selections] in
  mkDocument KindQuery (name +:+ ".graphql") name definitions definitions true None.

(** [query UserFriends { user { friends(last: 10) @paginate { ... } } }] *)
Definition backwardsQuery : CollectedGraphQLDocument :=
  queryDocument "UserFriends"
    [field "user" (Some [paginatedFriends [mkArgument "last" (IntValueNode "10")]])].

(** [query UserFriends { user { friends @paginate { ... } } }] *)
Definition bareQuery : CollectedGraphQLDocument :=
  queryDocument "UserFriends" [field "user" (Some [paginatedFriends []])].

(** An instance of [unwrapType] for the examples.  The wrappers are in
    reverse order, the last one the top level, with a nullable entry where no
    non-null wrapper sits, as the comment in [connectionSelection] has it: a
    nullable list of non-null elements is [[NonNull, List, Nullable]]. *)
Fixpoint unwrapWith (s : GraphQLSchema) (t : GraphQLType) (wrappers : list TypeWrapper)
  : UnwrappedType :=
  match t with
  | NonNullType t' => unwrapWith s t' (WNonNull :: wrappers)
  | ListType t' =>
      let wrappers' :=
        match wrappers with WNonNull :: _ => wrappers | _ => WNullable :: wrappers end in
      unwrapWith s t' (WList :: wrappers')
  | NamedType name =>
      let wrappers' :=
        match wrappers with WNonNull :: _ => wrappers | _ => WNullable :: wrappers end in
      mkUnwrapped (default (scalarType name) (getType s name)) wrappers'
  end.

Definition exampleUnwrap (config : Config) (t : GraphQLType) : UnwrappedType :=
  unwrapWith (schema config) t [].

Definition nameIs (v : ValueNode) : list ArgumentNode := [mkArgument "name" v].

(** [friends @list(name: "Friends") { edges { node { id } } }] *)
Definition friendsConnection (arguments : list ArgumentNode) : SelectionNode :=
  FieldNode None "friends" [] [directive "list" arguments]
    (Some [field "edges" (Some [field "node" (Some [field "id" None])])]).

(** [friends @list(name: "Friends") { edges { cursor } }]: the edges are
    selected without their node. *)
Definition friendsCursors : list SelectionNode :=
  [field "edges" (Some [field "cursor" None])].

(** [friendsList @list(...) { id }] *)
Definition friendsList (directives : list DirectiveNode) : SelectionNode :=
  FieldNode None "friendsList" [] directives (Some [field "id" None]).



(** The schema lookups of the compiler, for the example documents. *)
Definition exampleFieldType (parent name : string) : string :=
  if String.eqb name "user" then "User"
  else if String.eqb name "friends" then "User"
  else if String.eqb name "id" then "ID"
  else "String".

Definition exampleFieldKey (name : string) (arguments : list ArgumentNode) : string :=
  name.

(** [fragment A on User { firstName }] and [fragment B on User { friends { id } }] *)
Definition exampleFragments : gmap string (string * list SelectionNode) :=
  {[ "A" := ("User", [field "firstName" None]);
     "B" := ("User", [field "friends" (Some [field "id" None])]) ]}.

(** [query TestQuery { user { firstName ...A @prepend } }] *)
Definition overlappingSelection : list SelectionNode :=
  [field "user"
     (Some [field "firstName" None; FragmentSpread "A" [directive "prepend" []]])].

(** [query TestQuery { user { friends { firstName } ...B @prepend } }] *)
Definition overlappingNestedSelection : list SelectionNode :=
  [field "user"
     (Some [field "friends" (Some [field "firstName" None]);
            FragmentSpread "B" [directive "prepend" []]])].

(** [query TestQuery { user { ...A @prepend } }] *)
Definition spreadOnlySelection : list SelectionNode :=
  [field "user" (Some [FragmentSpread "A" [directive "prepend" []]])].

End Examples.

(** ** More of the engine: keyed tables, sets and [toString] *)

Module JSObjects.

(** [o[k] = v] on a plain object used as a table: an existing key keeps its
    position, a new key goes last. *)
Fixpoint assoc_set {A} (k : string) (v : A) (o : list (string * A))
  : list (string * A) :=
  match o with
  | [] => [(k, v)]
  | (k', v') :: o' =>
      if String.eqb k k' then (k, v) :: o' else (k', v') :: assoc_set k v o'
  end.

(** [o[k]] *)
Fixpoint assoc_get {A} (k : string) (o : list (string * A)) : option A :=
  match o with
  | [] => None
  | (k', v) :: o' => if String.eqb k k' then Some v else assoc_get k o'
  end.

(** [Object.fromEntries] on entries of any type *)
Definition fromEntries {A} (entries : list (string * A)) : list (string * A) :=
  fold_left (fun o kv => assoc_set kv.1 kv.2 o) entries [].

(** [[...new Set(names)]]: the first occurrence of every name, in order. *)
Definition dedup (names : list string) : list string :=
  fold_left (fun seen name => if bool_decide (name ∈ seen) then seen else seen ++ [name])
    names [].




End JSObjects.
Export JSObjects.

(** ** The paginate transform: the second visit *)

Module Hoist.

Import Paginate.

(** The literal [staticVariableDefinition] builds: [kind] is the type name
    followed by [Value], [value] is the default value as the flag holds it. *)
Record LiteralNode := mkLiteral {
  literal_kind : string;
  literal : Value;
}.

Record VariableDefinitionNode := mkVariableDefinition {
  variable : string;
  variable_type : GraphQLType;
  variable_default : option LiteralNode;
}.

(** The [type] of a flag, as the string the source holds. *)
Definition typeName (t : FlagType) : string :=
  match t with TInt => "Int" | TString => "String" end.

Definition staticVariableDefinition (name : string) (type : FlagType)
    (defaultValue : Value) : VariableDefinitionNode :=
  mkVariableDefinition name (NamedType (typeName type))
    (if negb (truthy defaultValue) then None
     else Some (mkLiteral (typeName type +:+ "Value") defaultValue)).



(** [Object.entries(flags).filter(([, spec]) => spec.enabled)] *)
Definition enabledEntries (flags : PaginationFlags) : list (string * FlagSpec) :=
  filter (fun entry => enabled entry.2 = true) (flagEntries flags).

(** The [OperationDefinition] visitor, past the check of the operation: the
    variable definitions of the query.  The existing definitions are put in a
    table by name, the enabled flags in another; the names of both, each
    once, in this order, are looked up in the first table, then in the
    second. *)
Definition operationVariables (variableDefinitions : list VariableDefinitionNode)
  : list (string * VariableDefinitionNode) :=
  fold_left (fun vars definition => assoc_set (variable definition) definition vars)
    variableDefinitions [].

Definition newVariables (flags : PaginationFlags)
  : list (string * VariableDefinitionNode) :=
  fromEntries
    (map (fun entry =>
            (entry.1, staticVariableDefinition entry.1 (type entry.2) (defaultValue entry.2)))
       (enabledEntries flags)).

Definition finalVariables (variableDefinitions : list VariableDefinitionNode)
    (flags : PaginationFlags) : list VariableDefinitionNode :=
  let operationVariables := operationVariables variableDefinitions in
  let newVariables := newVariables flags in
  let variableNames :=
    dedup (map fst operationVariables ++ map fst newVariables) in
  omap (fun name =>
          match assoc_get name operationVariables with
          | Some definition => Some definition
          | None => assoc_get name newVariables
          end)
    variableNames.




End Hoist.

(** ** The list transform: the field visitor and the generated document *)

Module Generate.

Import Lists.

Inductive GeneratedDefinition :=
| FragmentDefinitionNode (name : string) (typeCondition : string)
                         (selections : list SelectionNode)
| DirectiveDefinitionNode (name : string) (locations : list string)
                          (repeatable : bool).

Definition idField : SelectionNode := FieldNode None "id" [] [] None.

(** The names of the object types among the targets of the lists, each once,
    in the order of the table: [''] stands for a type that is no object type
    and is filtered out, as any empty name is. *)
Definition listTargets (entries : list ListEntry) : list string :=
  filter (fun name => name <> "")
    (dedup (map (fun entry =>
                   match type_kind (list_type entry) with
                   | ObjectType => type_name (list_type entry)
                   | _ => ""
                   end)
              entries)).

Section Transform.

Variable unwrapType : Config -> GraphQLType -> UnwrappedType.
Variable parentTypeFromAncestors : GraphQLSchema -> list ASTNode -> GraphQLNamedType.

(** The naming functions of the configuration. *)
Variable listInsertFragment : string -> string.
Variable listToggleFragment : string -> string.
Variable listRemoveFragment : string -> string.
Variable listDeleteDirective : string -> string.

(** The [Field] visitor of [addListFragments]: the node that replaces the
    field, when the field is tagged as a list and is a connection. *)
Definition enterListField (config : Config) (ancestors : list ASTNode)
    (node : SelectionNode) : Result (option SelectionNode) :=
  match node with
  | FieldNode alias name arguments directives selectionSet =>
      if negb (Paginate.hasDirective (listDirective config) directives) then Ok None
      else
        match getFields (parentTypeFromAncestors (schema config) ancestors) with
        | None => Throw (TypeError "getFields is not a function")
        | Some parentFields =>
            c ← connectionSelection unwrapType config
                  (field_lookup name parentFields)
                  (parentTypeFromAncestors (schema config) ancestors)
                  selectionSet;
            if connection c then
              match selectionSet with
              | Some selections =>
                  Ok (Some (FieldNode alias name arguments directives
                              (Some (selections ++ Paginate.pageInfoSelection))))
              | None =>
                  Throw (TypeError "Cannot read properties of undefined (reading 'selections')")
              end
            else Ok None
        end
  | _ => Ok None
  end.

(** The three fragments generated for one list. *)
Definition listFragments (config : Config) (name : string) (entry : ListEntry)
  : Result (list GeneratedDefinition) :=
  let schemaType := getType (schema config) (type_name (list_type entry)) in
  match list_selection entry with
  | None => Throw (Error "Lists must have a selection")
  | Some selection =>
      let fragmentSelection :=
        if bool_decide (is_Some schemaType)
           && negb (existsb (isFieldNamed "id") selection)
        then selection ++ [idField] else selection in
      let typeCondition := type_name (list_type entry) in
      Ok [ FragmentDefinitionNode (listInsertFragment name) typeCondition
             fragmentSelection;
           FragmentDefinitionNode (listToggleFragment name) typeCondition
             (fragmentSelection ++ [idField]);
           FragmentDefinitionNode (listRemoveFragment name) typeCondition [idField] ]
  end.

(** The definitions of the generated document, from the entries of the
    table of lists ([Object.entries(lists)]): the fragments of every list,
    then a delete directive for every target. *)
Definition generatedDefinitions (config : Config)
    (entries : list (string * ListEntry)) : Result (list GeneratedDefinition) :=
  fragments ← mapResult (fun entry => listFragments config entry.1 entry.2) entries;
  Ok (concat fragments
      ++ map (fun typeName =>
                DirectiveDefinitionNode (listDeleteDirective typeName) ["FIELD"] true)
           (listTargets (map snd entries))).

(** [addListFragments] after the throw of the accumulated errors: nothing
    when no list is registered, else the definitions of the document it
    appends (the text added to the schema is not part of the embedding). *)
Definition generateLists (config : Config) (entries : list (string * ListEntry))
  : Result (option (list GeneratedDefinition)) :=
  if Nat.eqb (length entries) 0 then Ok None
  else definitions ← generatedDefinitions config entries; Ok (Some definitions).

End Transform.

End Generate.

(** ** The paginate transform: the refetch query of a fragment *)

Module RefetchQuery.

Import Paginate Hoist.

(** The operation of the generated document: its name, its variable
    definitions and its selections. *)
Record QueryDocument := mkQueryDocument {
  query_name : string;
  query_variables : list VariableDefinitionNode;
  query_selections : list SelectionNode;
}.

(** The document pushed on [newDocs]. *)
Record GeneratedDocument := mkGenerated {
  generated_kind : ArtifactKind;
  generated_filename : string;
  generated_name : string;
  generated_document : QueryDocument;
  generated_originalDocument : QueryDocument;
  generated_generate : bool;
  generated_refetch : option Refetch;
}.

(** [fragmentSpreadSelection]: the fragment, spread with the enabled flags
    passed on through the with directive. *)
Definition fragmentSpreadSelection (config : Config) (fragmentName : string)
    (flags : PaginationFlags) : list SelectionNode :=
  [FragmentSpread fragmentName
     [mkDirective (withDirective config)
        (map (fun arg => variableAsArgument arg.1) (enabledEntries flags))
        None]].

(** The variable definition of one pagination argument; the default is read
    from [flags[arg.name]]. *)
Definition paginationVariable (flags : PaginationFlags) (arg : string * FlagSpec)
  : Result VariableDefinitionNode :=
  match flag flags arg.1 with
  | None => Throw (TypeError "Cannot read properties of undefined (reading 'defaultValue')")
  | Some spec =>
      Ok (mkVariableDefinition arg.1 (NamedType (typeName (type arg.2)))
            (if negb (truthy (defaultValue spec)) then None
             else Some (mkLiteral (typeName (type arg.2) +:+ "Value") (defaultValue spec))))
  end.

Section Transform.

(** [config.keyFieldsForType], [unwrapType] and [wrapType] of [cmd/utils],
    and [config.typeConfig?.[fragment]?.resolve?.queryField], are not defined
    in this repository's sources. *)
Variable keyFieldsForType : Config -> string -> list string.
Variable unwrapType : Config -> GraphQLType -> UnwrappedType.
Variable wrapType : UnwrappedType -> GraphQLType.
Variable queryField : Config -> string -> option string.

(** The callback of the [flatMap] over the keys of the type. *)
Definition keyVariable (config : Config) (fragment : string) (key : string)
  : Result (list (string * GraphQLType)) :=
  if bool_decide (getQueryType (schema config) = Some fragment) then Ok []
  else
    match getType (schema config) fragment with
    | None => Throw (TypeError "Cannot read properties of undefined (reading 'getFields')")
    | Some fragmentType =>
        match getFields fragmentType with
        | None => Throw (TypeError "getFields is not a function")
        | Some fs =>
            match field_lookup key fs with
            | None => Throw (TypeError "Cannot read properties of undefined (reading 'type')")
            | Some f => Ok [(key, wrapType (unwrapType config (field_type f)))]
            end
        end
    end.

Definition keys (config : Config) (nodeQuery : bool) (fragment : string)
  : Result (list (string * GraphQLType)) :=
  found ← mapResult (keyVariable config fragment)
            (keyFieldsForType config
               (if negb nodeQuery then default "" (getQueryType (schema config))
                else fragment));
  Ok (concat found).

(** The name of the field the fragment is embedded in. *)
Definition embeddingField (config : Config) (fragment : string) : string :=
  match queryField config fragment with
  | Some name => if String.eqb name "" then "node" else name
  | None => "node"
  end.

(** The end of the loop body of [paginate]: nothing more for a document
    that paginates no fragment; for a fragment, the query document that
    refetches it. *)
Definition refetchQuery (config : Config) (doc : CollectedGraphQLDocument)
    (flags : PaginationFlags) (info : DefinitionInfo) (refetch : Refetch)
  : Result (option GeneratedDocument) :=
  if String.eqb (fragment info) "" then Ok None
  else
    let paginationArgs := enabledEntries flags in
    let fragmentSpreadSelection :=
      fragmentSpreadSelection config (fragmentName info) flags in
    keys ← keys config (nodeQuery info) (fragment info);
    variables ← mapResult (paginationVariable flags) paginationArgs;
    let queryDoc :=
      mkQueryDocument (refetchQueryName info)
        (variables
         ++ if negb (nodeQuery info) then []
            else map (fun key => mkVariableDefinition key.1 key.2 None) keys)
        (if negb (nodeQuery info) then fragmentSpreadSelection
         else [FieldNode None (embeddingField config (fragment info))
                 (map (fun key => mkArgument key.1 (VariableNode key.1)) keys)
                 [] (Some fragmentSpreadSelection)]) in
    Ok (Some (mkGenerated KindQuery (filename doc) (refetchQueryName info)
                queryDoc queryDoc true (Some refetch))).

End Transform.

End RefetchQuery.

(** ** Predicates of the further statements *)

Module MoreProps.

Import Scalars.

(** The nesting depth of arrays and objects in a value. *)
Fixpoint height (v : Value) : nat :=
  match v with
  | VArray items => S (foldr Nat.max 0 (map height items))
  | VObject props => S (foldr Nat.max 0 (map (fun kv => height kv.2) props))
  | _ => 0
  end.

(** The type the descriptor gives a field of [rootType]: [fields?.[fieldName]]. *)
Definition inputFieldType (descriptor : InputObject) (rootType fieldName : string)
  : option string :=
  (if String.eqb rootType "@root" then Some (input_fields descriptor)
   else input_types descriptor !! rootType) ≫= (fun fs => fs !! fieldName).

(** The input has the shape the descriptor gives [rootType]: wherever
    [marshalInputs] recurses there is null, undefined, an array of such
    values or an object with pairwise distinct keys. *)
Fixpoint describedInput (descriptor : InputObject) (config : ConfigFile)
    (rootType : string) (data : Value) {struct data} : bool :=
  match data with
  | VNull | VUndefined => true
  | VArray items => forallb (describedInput descriptor config rootType) items
  | VObject props =>
      bool_decide (NoDup (map fst props))
      && forallb
           (fun kv =>
              let type := inputFieldType descriptor rootType kv.1 in
              if negb (truthy_string type) then true
              else
                let t := default "" type in
                match scalar_of config t ≫= marshal with
                | Some _ => true
                | None =>
                    if isScalar config t
                       || negb (bool_decide (is_Some (input_types descriptor !! t)))
                    then true
                    else describedInput descriptor config t kv.2
                end)
           props
  | VBool _ | VNumber _ | VString _ => false
  end.

(** The callback [marshalInputs] maps over the entries of an object, with
    the recursive call given. *)
Definition inputEntry (recurse : Value -> string -> Result Value)
    (config : ConfigFile) (descriptor : InputObject) (rootType : string)
    (kv : string * Value) : Result (string * Value) :=
  let type := inputFieldType descriptor rootType kv.1 in
  if negb (truthy_string type) then Ok (kv.1, kv.2)
  else
    let t := default "" type in
    match scalar_of config t ≫= marshal with
    | Some marshalFn =>
        match kv.2 with
        | VArray vs => Ok (kv.1, VArray (map marshalFn vs))
        | _ => Ok (kv.1, marshalFn kv.2)
        end
    | None =>
        if isScalar config t
           || negb (bool_decide (is_Some (input_types descriptor !! t)))
        then Ok (kv.1, kv.2)
        else v ← recurse kv.2 t; Ok (kv.1, v)
    end.

(** A directive of the given name sits somewhere in the selection. *)
Fixpoint mentions (directiveName : string) (sel : SelectionNode) {struct sel} : bool :=
  match sel with
  | FieldNode _ _ _ directives selectionSet =>
      Paginate.hasDirective directiveName directives
      || match selectionSet with
         | None => false
         | Some selections => existsb (mentions directiveName) selections
         end
  | FragmentSpread _ directives => Paginate.hasDirective directiveName directives
  | InlineFragment _ directives selections =>
      Paginate.hasDirective directiveName directives
      || existsb (mentions directiveName) selections
  end.

Definition definitionSelections (d : DefinitionNode) : list SelectionNode :=
  match d with
  | OperationDefinition _ _ _ selections
  | FragmentDefinition _ _ _ selections => selections
  end.

(** No field of the document carries the directive. *)
Definition fieldsFreeOf (directiveName : string) (doc : CollectedGraphQLDocument)
  : bool :=
  forallb (fun d => negb (existsb (mentions directiveName) (definitionSelections d)))
    (document doc).

(** An operation definition that is no query. *)
Definition isNonQueryOperation (d : DefinitionNode) : bool :=
  match d with
  | OperationDefinition query _ _ _ => false
  | OperationDefinition _ _ _ _ => true
  | FragmentDefinition _ _ _ _ => false
  end.

(** [flags[name]] is defined and enabled. *)
Definition flagEnabled (flags : Paginate.PaginationFlags) (name : string) : bool :=
  match Paginate.flag flags name with
  | Some spec => Paginate.enabled spec
  | None => false
  end.

(** A call-site argument as [replaceArgumentsWithVariables] leaves it: a
    variable reference of the same name when the name is an enabled flag,
    the argument itself otherwise. *)
Definition replaced (flags : Paginate.PaginationFlags) (arg : ArgumentNode)
  : ArgumentNode :=
  if flagEnabled flags (arg_name arg) then Paginate.variableAsArgument (arg_name arg)
  else arg.

(** The variables a value, a list of arguments, a list of directives and a
    selection refer to. *)
Fixpoint valueVariables (v : ValueNode) {struct v} : list string :=
  match v with
  | VariableNode name => [name]
  | ListValueNode values => flat_map valueVariables values
  | ObjectValueNode fields => flat_map (fun kv => valueVariables kv.2) fields
  | _ => []
  end.

Definition argumentVariables (arguments : list ArgumentNode) : list string :=
  flat_map (fun arg => valueVariables (arg_value arg)) arguments.

Definition directiveVariables (directives : list DirectiveNode) : list string :=
  flat_map (fun d => argumentVariables (directive_arguments d)) directives.

Fixpoint selectionVariables (sel : SelectionNode) {struct sel} : list string :=
  match sel with
  | FieldNode _ _ arguments directives selectionSet =>
      argumentVariables arguments ++ directiveVariables directives
      ++ match selectionSet with
         | None => []
         | Some selections => flat_map selectionVariables selections
         end
  | FragmentSpread _ directives => directiveVariables directives
  | InlineFragment _ directives selections =>
      directiveVariables directives ++ flat_map selectionVariables selections
  end.

(** A field of the selection carries the directive and has a selection
    set: the fields the [Field] visitor of the paginate transform acts on. *)
Fixpoint paginates (directiveName : string) (sel : SelectionNode) {struct sel} : bool :=
  match sel with
  | FieldNode _ _ _ directives selectionSet =>
      match selectionSet with
      | None => false
      | Some selections =>
          Paginate.hasDirective directiveName directives
          || existsb (paginates directiveName) selections
      end
  | FragmentSpread _ _ => false
  | InlineFragment _ _ selections => existsb (paginates directiveName) selections
  end.

Definition paginatesDocument (directiveName : string) (doc : CollectedGraphQLDocument)
  : bool :=
  existsb (fun d => existsb (paginates directiveName) (definitionSelections d))
    (document doc).

(** The first visit has found a paginated field and recorded where. *)
Definition located (st : Paginate.VisitState) : Prop :=
  Paginate.paginated st = true /\ Paginate.paginationPath st <> [].

End MoreProps.

(** ** Inputs of the further examples *)

Module MoreExamples.

(** An artifact whose input descriptor has a recursive input type:
    [fields: { filter: 'Filter', since: 'Offset' }] and
    [types: { Filter: { and: 'Filter', name: 'String', since: 'Offset' } }]. *)
Definition filterDescriptor : InputObject :=
  mkInputObject
    {[ "filter" := "Filter"; "since" := "Offset" ]}
    {[ "Filter" := {[ "and" := "Filter"; "name" := "String"; "since" := "Offset" ]} ]}.

Definition filterArtifact : Artifact := mkArtifact "FilteredQuery" (Some filterDescriptor).

(** [{ filter: { and: { and: null, name: 'x', since: 5 } }, since: 7, extra: true }] *)
Definition filterInput : Value :=
  VObject
    [("filter",
      VObject [("and", VObject [("and", VNull); ("name", VString "x");
                                ("since", VNumber 5)])]);
     ("since", VNumber 7);
     ("extra", VBool true)].

(** [mutation AddFriend { user { friends(first: 10) @paginate { edges { node { id } } } } }] *)
Definition paginatedMutation : CollectedGraphQLDocument :=
  let definitions :=
    [OperationDefinition mutation (Some "AddFriend") []
       [Examples.field "user"
          (Some [Examples.paginatedFriends [mkArgument "first" (IntValueNode "10")]])]] in
  mkDocument KindMutation "AddFriend.graphql" "AddFriend" definitions definitions true None.

(** [mutation AddFriend { user { friends(first: 10) { edges { node { id } } } } }] *)
Definition plainMutation : CollectedGraphQLDocument :=
  let definitions :=
    [OperationDefinition mutation (Some "AddFriend") []
       [Examples.field "user"
          (Some [FieldNode None "friends" [mkArgument "first" (IntValueNode "10")] []
                   (Some [Examples.field "edges"
                            (Some [Examples.field "node"
                                     (Some [Examples.field "id" None])])])])]] in
  mkDocument KindMutation "AddFriend.graphql" "AddFriend" definitions definitions true None.

(** [query Friends { user { friends @list(name: "Friends") { edges { node { id } } } } }] *)
Definition friendsListQuery : CollectedGraphQLDocument :=
  Examples.queryDocument "Friends"
    [Examples.field "user"
       (Some [Examples.friendsConnection (Examples.nameIs (StringValueNode "Friends"))])].

(** [query TestQuery { user { firstName ...A @prepend } }] *)
Definition prependQuery : CollectedGraphQLDocument :=
  Examples.queryDocument "TestQuery" Examples.overlappingSelection.

(** The naming functions of the default configuration. *)
Definition insertName (name : string) : string := name +:+ "_insert".
Definition toggleName (name : string) : string := name +:+ "_toggle".
Definition removeName (name : string) : string := name +:+ "_remove".
Definition deleteName (name : string) : string := name +:+ "_delete".

(** A table with one list of users whose selection does not ask for [id]. *)
Definition friendsEntries : list (string * Lists.ListEntry) :=
  [("Friends",
    Lists.mkListEntry (Some [Examples.field "firstName" None]) Examples.userType
      "Friends.graphql")].

(** Instances for the refetch query of the examples: every type is keyed
    by [id], a key is passed with the non-null type of its name, and no type
    configures a query field. *)
Definition idKeys (config : Config) (typeName : string) : list string := ["id"].

Definition nonNullWrap (t : UnwrappedType) : GraphQLType :=
  NonNullType (NamedType (type_name (unwrapped_type t))).

Definition noQueryField (config : Config) (typeName : string) : option string := None.

(** What the second visit leaves after
    [fragment UserFriends on User { friends(first: 10) @paginate { ... } }]. *)
Definition userFriendsInfo : Paginate.DefinitionInfo :=
  Paginate.mkInfo "UserFriends" "UserFriends_Pagination_Query" true "User".

Definition forwardFlags : Paginate.PaginationFlags :=
  (Paginate.replaceArgumentsWithVariables Examples.decimal
     [mkArgument "first" (IntValueNode "10")]
     (Paginate.updateFlags ["first"; "after"; "last"; "before"] ["first"]
        Paginate.initialFlags)).2.

Definition forwardRefetch : Refetch :=
  mkRefetch RefetchUpdateMode.append ["friends"] cursor (VNumber 10) VUndefined true "Node".

(** [fragment QueryFriends on Query { user { friends(first: 10) @paginate { ... } } }] *)
Definition queryFragment : list DefinitionNode :=
  [FragmentDefinition "QueryFriends" "Query" []
     [Examples.field "user"
        (Some [Examples.paginatedFriends [mkArgument "first" (IntValueNode "10")]])]].

End MoreExamples.

(** * Properties *)

(** ** The walkers, clause by clause *)

Section ScalarsFacts.

Import Scalars Props.

Lemma mapResult_ext {A B} (f g : A -> Result B) (l : list A) :
  (forall x, f x = g x) -> mapResult f l = mapResult g l.
Proof.
  intros Hfg. induction l as [|x l IH]; simpl; [reflexivity|].
  rewrite Hfg, IH. reflexivity.
Qed.

Lemma walkSelection_unfold leaf selection data :
  walkSelection leaf selection data =
  match data with
  | VNull | VUndefined => Ok data
  | VArray items =>
      items' ← mapResult (walkSelection leaf selection) items; Ok (VArray items')
  | _ =>
      es ← mapResult (entryCallback leaf selection) (Object_entries data);
      Ok (Object_fromEntries es)
  end.
Proof.
  destruct selection as [m].
  assert (Hcb : forall kv : string * Value,
             match (walkField (walkSelection leaf) leaf <$> m) !! kv.1 with
             | None => Throw (cannot_destructure kv.1)
             | Some h => h kv.1 kv.2
             end = entryCallback leaf (Selection m) kv).
  { intros kv. unfold entryCallback. simpl. rewrite lookup_fmap.
    destruct (m !! kv.1); reflexivity. }
  destruct data; simpl; try reflexivity;
    try (rewrite (mapResult_ext _ _ _ Hcb); reflexivity).
Qed.

Lemma marshalSelection_unfold config selection data :
  marshalSelection config selection data =
  match data with
  | VNull | VUndefined => Ok data
  | VArray items =>
      items' ← mapResult (marshalSelection config selection) items; Ok (VArray items')
  | _ =>
      es ← mapResult (entryCallback (marshalScalar config) selection)
             (Object_entries data);
      Ok (Object_fromEntries es)
  end.
Proof. apply walkSelection_unfold. Qed.

Lemma unmarshalSelection_unfold config selection data :
  unmarshalSelection config selection data =
  match data with
  | VNull | VUndefined => Ok data
  | VArray items =>
      items' ← mapResult (unmarshalSelection config selection) items; Ok (VArray items')
  | _ =>
      es ← mapResult (entryCallback (unmarshalScalar config) selection)
             (Object_entries data);
      Ok (Object_fromEntries es)
  end.
Proof. apply walkSelection_unfold. Qed.

(** Induction on a value, with the hypothesis for every element of an array
    and every property of an object. *)
Lemma Value_nested_ind (P : Value -> Prop) :
  P VUndefined -> P VNull ->
  (forall b, P (VBool b)) -> (forall n, P (VNumber n)) -> (forall s, P (VString s)) ->
  (forall items, Forall P items -> P (VArray items)) ->
  (forall props, Forall (fun kv => P kv.2) props -> P (VObject props)) ->
  forall v, P v.
Proof.
  intros Hu Hn Hb Hz Hs Ha Ho.
  fix IH 1. intros [ | | b | n | s | items | props ].
  - exact Hu.
  - exact Hn.
  - apply Hb.
  - apply Hz.
  - apply Hs.
  - apply Ha. induction items as [|x items IHitems]; constructor.
    + apply IH.
    + exact IHitems.
  - apply Ho. induction props as [|[k x] props IHprops]; constructor.
    + apply IH.
    + exact IHprops.
Qed.

(** Assigning a fresh key appends it. *)
Lemma set_property_fresh k v o :
  k ∉ map fst o -> set_property k v o = o ++ [(k, v)].
Proof.
  induction o as [|[k' v'] o IH]; simpl; intros Hk; [reflexivity|].
  destruct (String.eqb_spec k k') as [->|Hne].
  - exfalso. apply Hk. left.
  - f_equal. apply IH. intros Hin. apply Hk. right. exact Hin.
Qed.

Lemma fold_set_property_NoDup es acc :
  NoDup (map fst (acc ++ es)) ->
  fold_left (fun o kv => set_property kv.1 kv.2 o) es acc = acc ++ es.
Proof.
  revert acc. induction es as [|[k v] es IH]; intros acc Hnd; simpl.
  - symmetry. apply app_nil_r.
  - rewrite set_property_fresh.
    + rewrite IH; rewrite <- app_assoc; [reflexivity | exact Hnd].
    + rewrite map_app in Hnd. apply NoDup_app in Hnd as (_ & Hdisj & _).
      intros Hin. apply (Hdisj _ Hin). left.
Qed.

(** [Object.fromEntries] of entries with pairwise distinct keys is the object
    with these entries. *)
Lemma Object_fromEntries_NoDup es :
  NoDup (map fst es) -> Object_fromEntries es = VObject es.
Proof.
  intros Hnd. unfold Object_fromEntries. f_equal.
  apply (fold_set_property_NoDup es []). exact Hnd.
Qed.

(** An entry whose key the selection lacks makes the map over the entries
    throw, whatever the leaf conversion. *)
Lemma mapResult_absent_entry leaf selection props :
  (exists kv, In kv props /\ entries selection !! kv.1 = None) ->
  exists e, mapResult (entryCallback leaf selection) props = Throw e.
Proof.
  intros (kv & Hin & Hnone).
  induction props as [|kv' props IH]; [destruct Hin|].
  simpl. destruct (entryCallback leaf selection kv') as [y|e] eqn:Hcb;
    [|eexists; reflexivity].
  destruct Hin as [->|Hin].
  - unfold entryCallback in Hcb. rewrite Hnone in Hcb. discriminate.
  - destruct (IH Hin) as [e ->]. eexists; reflexivity.
Qed.

Lemma walkSelection_absent_field leaf selection props :
  (exists kv, In kv props /\ entries selection !! kv.1 = None) ->
  exists e, walkSelection leaf selection (VObject props) = Throw e.
Proof.
  intros H. rewrite walkSelection_unfold. simpl.
  destruct (mapResult_absent_entry leaf selection props H) as [e ->].
  eexists; reflexivity.
Qed.

(** ** Fields absent from the selection *)

(** C2.  The walkers do not pass a field absent from the selection through:
    for every object with an own field whose name the selection lacks,
    [marshalSelection] and [unmarshalSelection] both throw
    ([selection[fieldName]] is undefined and is destructured). *)
Theorem absent_field_throws config selection props :
  (exists kv, In kv props /\ entries selection !! kv.1 = None) ->
  (exists e, marshalSelection config selection (VObject props) = Throw e)
  /\ (exists e, unmarshalSelection config selection (VObject props) = Throw e).
Proof.
  intros H. split; apply walkSelection_absent_field; exact H.
Qed.

Lemma absent_field_throws_witness :
  (exists kv, In kv [("createdAt", VNumber 1650000000); ("extra", VNumber 1)]
              /\ entries Examples.createdAtSelection !! kv.1 = None)
  /\ (exists e, marshalSelection Examples.plainConfig Examples.createdAtSelection
                  (VObject [("createdAt", VNumber 1650000000); ("extra", VNumber 1)]) = Throw e)
  /\ (exists e, unmarshalSelection Examples.plainConfig Examples.createdAtSelection
                  (VObject [("createdAt", VNumber 1650000000); ("extra", VNumber 1)]) = Throw e).
Proof.
  assert (H : exists kv, In kv [("createdAt", VNumber 1650000000); ("extra", VNumber 1)]
                         /\ entries Examples.createdAtSelection !! kv.1 = None).
  { exists ("extra", VNumber 1). split; [right; left; reflexivity | reflexivity]. }
  split; [exact H|].
  exact (absent_field_throws Examples.plainConfig Examples.createdAtSelection _ H).
Defined.

(** The exception is the TypeError of the destructuring, at the first field
    the selection lacks. *)
Lemma absent_field_example :
  marshalSelection Examples.plainConfig Examples.createdAtSelection
    (VObject [("createdAt", VNumber 1650000000); ("extra", VNumber 1)])
  = Throw (cannot_destructure "extra")
  /\ unmarshalSelection Examples.plainConfig Examples.createdAtSelection
       (VObject [("createdAt", VNumber 1650000000); ("extra", VNumber 1)])
     = Throw (cannot_destructure "extra").
Proof. split; reflexivity. Qed.

(** ** A custom scalar without its conversion function *)

(** Where the guard of the direction lets a configured scalar through, the
    missing function is reported: [marshalSelection] for any configured
    scalar, [unmarshalSelection] for one that has a [marshal] function. *)
Lemma marshalScalar_missing_function config t spec value :
  scalar_of config t = Some spec -> marshal spec = None ->
  marshalScalar config t value = Throw (missing_marshal t).
Proof. intros Hspec Hm. unfold marshalScalar. rewrite Hspec, Hm. reflexivity. Qed.

Lemma unmarshalScalar_missing_function config t spec m value :
  scalar_of config t = Some spec -> marshal spec = Some m -> unmarshal spec = None ->
  unmarshalScalar config t value = Throw (missing_unmarshal t).
Proof.
  intros Hspec Hm Hu. unfold unmarshalScalar. rewrite Hspec, Hm, Hu. reflexivity.
Qed.

(** C4.  A value whose field type is a configured scalar with neither
    conversion function makes [marshalSelection] throw, and is returned
    unchanged, with no error, by [unmarshalSelection]: its guard reads the
    [marshal] function of the scalar. *)
Theorem unmarshal_bare_scalar_is_silent
    config selection fieldName t key msk value spec :
  entries selection !! fieldName = Some (Field (Some t) key msk None) ->
  t <> "" ->
  scalar_of config t = Some spec ->
  marshal spec = None ->
  unmarshal spec = None ->
  unmarshalSelection config selection (VObject [(fieldName, value)])
    = Ok (VObject [(fieldName, value)])
  /\ marshalSelection config selection (VObject [(fieldName, value)])
    = Throw (missing_marshal t).
Proof.
  intros Hsel Ht Hspec Hm Hu.
  assert (Htruthy : truthy_string (Some t) = true).
  { simpl. destruct (String.eqb_spec t ""); [contradiction | reflexivity]. }
  split.
  - rewrite unmarshalSelection_unfold. simpl.
    unfold entryCallback. simpl. rewrite Hsel.
    unfold walkField. simpl Runtime.type. rewrite Htruthy. simpl.
    unfold unmarshalScalar. rewrite Hspec, Hm. reflexivity.
  - rewrite marshalSelection_unfold. simpl.
    unfold entryCallback. simpl. rewrite Hsel.
    unfold walkField. simpl Runtime.type. rewrite Htruthy. simpl.
    unfold marshalScalar. rewrite Hspec, Hm. reflexivity.
Qed.

Lemma unmarshal_bare_scalar_is_silent_witness :
  unmarshalSelection Examples.bareDateConfig Examples.createdAtSelection
    (VObject [("createdAt", VNumber 1650000000)])
    = Ok (VObject [("createdAt", VNumber 1650000000)])
  /\ marshalSelection Examples.bareDateConfig Examples.createdAtSelection
       (VObject [("createdAt", VNumber 1650000000)])
    = Throw (missing_marshal "DateTime").
Proof.
  apply (unmarshal_bare_scalar_is_silent Examples.bareDateConfig
           Examples.createdAtSelection "createdAt" "DateTime" "createdAt" false
           (VNumber 1650000000) (mkScalarSpec "Date" None None));
    [reflexivity | discriminate | reflexivity | reflexivity | reflexivity].
Defined.

(** ** Inputs of an artifact without an input descriptor *)

(** C10.  When the artifact has no input descriptor, [marshalInputs] returns
    its input unchanged, whatever the input, the configuration and the root
    type: no conversion is applied and no recursive call is made (one stack
    frame is enough). *)
Theorem marshalInputs_without_descriptor frames artifact config input rootType :
  Runtime.input artifact = None ->
  marshalInputs (S frames) artifact config input rootType = Ok input.
Proof.
  intros Hnone. simpl. rewrite Hnone. destruct input; reflexivity.
Qed.

Lemma marshalInputs_without_descriptor_witness :
  Runtime.input (mkArtifact "TestQuery" None) = None
  /\ marshalInputs 1 (mkArtifact "TestQuery" None) Examples.offsetConfig
       (VObject [("joined", VNumber 10)]) "@root"
     = Ok (VObject [("joined", VNumber 10)]).
Proof.
  split; [reflexivity|].
  apply (marshalInputs_without_descriptor 0 (mkArtifact "TestQuery" None)).
  reflexivity.
Defined.

(** ** The round trip through both walkers *)

Lemma mapResult_roundtrip {A B} (f : A -> Result B) (g : B -> Result A) l :
  Forall (fun x => exists y, f x = Ok y /\ g y = Ok x) l ->
  exists ys, mapResult f l = Ok ys /\ mapResult g ys = Ok l.
Proof.
  induction 1 as [|x l (y & Hf & Hg) _ (ys & Hfs & Hgs)]; simpl.
  - exists []. split; reflexivity.
  - exists (y :: ys). rewrite Hf, Hfs. simpl. rewrite Hg, Hgs. split; reflexivity.
Qed.

(** The same for the entries of an object: the keys are kept. *)
Lemma mapResult_roundtrip_keys
    (f g : string * Value -> Result (string * Value)) l :
  Forall (fun kv => exists w, f kv = Ok (kv.1, w) /\ g (kv.1, w) = Ok kv) l ->
  exists es, mapResult f l = Ok es /\ map fst es = map fst l
             /\ mapResult g es = Ok l.
Proof.
  induction 1 as [|kv l (w & Hf & Hg) _ (es & Hfs & Hkeys & Hgs)]; simpl.
  - exists []. repeat split.
  - exists ((kv.1, w) :: es). rewrite Hf, Hfs. simpl. rewrite Hg, Hgs, Hkeys.
    repeat split.
Qed.

(** One entry of a shaped object goes through the two callbacks and back. *)
Lemma entryCallback_roundtrip leaf1 leaf2 selection k v f :
  leafInverse leaf1 leaf2 ->
  entries selection !! k = Some f ->
  (truthy_string (Runtime.type f) = true ->
   forall sub, fields f = Some sub ->
     exists w, walkSelection leaf1 sub v = Ok w /\ walkSelection leaf2 sub w = Ok v) ->
  exists w, entryCallback leaf1 selection (k, v) = Ok (k, w)
            /\ entryCallback leaf2 selection (k, w) = Ok (k, v).
Proof.
  intros Hleaf Hsel Hsub. unfold entryCallback. simpl. rewrite Hsel.
  unfold walkField. destruct (truthy_string (Runtime.type f)) eqn:Ht; simpl.
  - destruct (fields f) as [sub|] eqn:Hf.
    + destruct (Hsub eq_refl sub eq_refl) as (w & H1 & H2).
      exists w. rewrite H1. simpl. rewrite H2. split; reflexivity.
    + destruct (Hleaf (default "" (Runtime.type f)) v) as (w & H1 & H2).
      exists w. rewrite H1. simpl. rewrite H2. split; reflexivity.
  - exists v. split; reflexivity.
Qed.

(** A shaped value goes through a walker and back through the walker of the
    inverse leaf conversion. *)
Lemma walkSelection_roundtrip leaf1 leaf2 :
  leafInverse leaf1 leaf2 ->
  forall data selection, shaped selection data = true ->
    exists w, walkSelection leaf1 selection data = Ok w
              /\ walkSelection leaf2 selection w = Ok data.
Proof.
  intros Hleaf data.
  induction data as [ | | b | n | s | items IH | props IH ] using Value_nested_ind;
    intros selection Hshape; try discriminate.
  - exists VUndefined. split; rewrite walkSelection_unfold; reflexivity.
  - exists VNull. split; rewrite walkSelection_unfold; reflexivity.
  - simpl in Hshape.
    destruct (mapResult_roundtrip (walkSelection leaf1 selection)
                (walkSelection leaf2 selection) items) as (ws & H1 & H2).
    { rewrite Forall_forall in IH. apply Forall_forall. intros x Hx.
      apply IH; [exact Hx|].
      rewrite forallb_forall in Hshape. apply Hshape.
      apply list_elem_of_In. exact Hx. }
    exists (VArray ws). split; rewrite walkSelection_unfold.
    + rewrite H1. reflexivity.
    + rewrite H2. reflexivity.
  - simpl in Hshape. apply andb_prop in Hshape as [Hnd Hall].
    apply bool_decide_eq_true in Hnd.
    destruct (mapResult_roundtrip_keys (entryCallback leaf1 selection)
                (entryCallback leaf2 selection) props) as (es & H1 & Hkeys & H2).
    { rewrite Forall_forall in IH. apply Forall_forall. intros [k v] Hkv.
      rewrite forallb_forall in Hall.
      pose proof (Hall _ (proj1 (list_elem_of_In _ _) Hkv)) as Hkv'. simpl in Hkv'.
      destruct (entries selection !! k) as [f|] eqn:Hsel; [|discriminate].
      apply (entryCallback_roundtrip leaf1 leaf2 selection k v f Hleaf Hsel).
      intros Ht sub Hf. rewrite Ht, Hf in Hkv'.
      apply (IH _ Hkv sub Hkv'). }
    exists (VObject es). split; rewrite walkSelection_unfold; simpl.
    + rewrite H1. simpl. rewrite Object_fromEntries_NoDup; [reflexivity|].
      rewrite Hkeys. exact Hnd.
    + rewrite H2. simpl. rewrite Object_fromEntries_NoDup; [reflexivity|exact Hnd].
Qed.

(** The elements of an array go through inverse functions and back. *)
Lemma map_inverse (m u : Value -> Value) items :
  (forall v, u (m v) = v) -> map u (map m items) = items.
Proof.
  intros Hinv. rewrite map_map. induction items as [|x items IH]; simpl;
    [reflexivity | rewrite Hinv, IH; reflexivity].
Qed.

Lemma marshalScalar_inverse config :
  inverseScalars config -> keepsNonArrays config ->
  leafInverse (marshalScalar config) (unmarshalScalar config).
Proof.
  intros Hinv Hkeep t v. unfold marshalScalar, unmarshalScalar.
  destruct (scalar_of config t) as [spec|] eqn:Hspec; [|exists v; split; reflexivity].
  destruct (Hinv t spec Hspec) as (m & u & Hm & Hu & Hum & Hmu).
  rewrite Hm, Hu.
  destruct (isArray v) eqn:Harr.
  - destruct v; try discriminate. eexists. split; [reflexivity|].
    simpl. rewrite (map_inverse m u items Hum). reflexivity.
  - exists (m v). split; [destruct v; try discriminate; reflexivity|].
    pose proof (Hkeep t spec m Hspec (or_introl Hm) v Harr) as Hmv.
    rewrite <- (Hum v) at 2. destruct (m v); try discriminate; reflexivity.
Qed.

Lemma unmarshalScalar_inverse config :
  inverseScalars config -> keepsNonArrays config ->
  leafInverse (unmarshalScalar config) (marshalScalar config).
Proof.
  intros Hinv Hkeep t v. unfold marshalScalar, unmarshalScalar.
  destruct (scalar_of config t) as [spec|] eqn:Hspec; [|exists v; split; reflexivity].
  destruct (Hinv t spec Hspec) as (m & u & Hm & Hu & Hum & Hmu).
  rewrite Hm, Hu.
  destruct (isArray v) eqn:Harr.
  - destruct v; try discriminate. eexists. split; [reflexivity|].
    simpl. rewrite (map_inverse u m items Hmu). reflexivity.
  - exists (u v). split; [destruct v; try discriminate; reflexivity|].
    pose proof (Hkeep t spec u Hspec (or_intror Hu) v Harr) as Huv.
    rewrite <- (Hmu v) at 2. destruct (u v); try discriminate; reflexivity.
Qed.

Lemma inverseScalars_plainConfig : inverseScalars Examples.plainConfig.
Proof. intros t spec H. discriminate H. Qed.

Lemma exchange_involutive v : Examples.exchange (Examples.exchange v) = v.
Proof.
  destruct v as [ | | b | n | s | items | props ]; try reflexivity.
  - destruct n; reflexivity.
  - destruct items; reflexivity.
Qed.

Lemma inverseScalars_exchangeConfig : inverseScalars Examples.exchangeConfig.
Proof.
  intros t spec H. unfold scalar_of in H. simpl in H.
  apply lookup_singleton_Some in H as [_ <-].
  exists Examples.exchange, Examples.exchange.
  repeat split; auto using exchange_involutive.
Qed.

(** C9, as stated, fails twice over.  A number has no object field, and
    comes back from either walker as the empty object.  And with a scalar
    whose inverse functions exchange the number 0 and the empty array, the
    field [slots: 0] is marshaled to [[]], which [unmarshalSelection] maps
    element by element, so it comes back as [[]]. *)
Lemma roundtrip_counterexample :
  (inverseScalars Examples.plainConfig
   /\ fieldsSelected (Selection ∅) (VNumber 5) = true
   /\ ~ roundTrips Examples.plainConfig (Selection ∅) (VNumber 5))
  /\ (inverseScalars Examples.exchangeConfig
      /\ fieldsSelected Examples.slotsSelection (VObject [("slots", VNumber 0)]) = true
      /\ ~ roundTrips Examples.exchangeConfig Examples.slotsSelection
             (VObject [("slots", VNumber 0)])).
Proof.
  split; split.
  - exact inverseScalars_plainConfig.
  - split; [reflexivity|]. intros [H _]. vm_compute in H. discriminate H.
  - exact inverseScalars_exchangeConfig.
  - split; [reflexivity|]. intros [H _]. vm_compute in H. discriminate H.
Qed.

(** C9, amended.  When every configured scalar has inverse [marshal] and
    [unmarshal] functions, neither of which turns a value that is not an
    array into an array, every value shaped by the selection (null,
    undefined, arrays and objects with distinct keys at the positions the
    walker visits, every key in the selection) is returned unchanged by
    [marshalSelection] followed by [unmarshalSelection], and by
    [unmarshalSelection] followed by [marshalSelection]. *)
Theorem roundtrip_of_shaped_data config selection data :
  inverseScalars config ->
  keepsNonArrays config ->
  shaped selection data = true ->
  roundTrips config selection data.
Proof.
  intros Hinv Hkeep Hshape. unfold roundTrips, marshalSelection, unmarshalSelection.
  split.
  - destruct (walkSelection_roundtrip _ _ (marshalScalar_inverse config Hinv Hkeep)
                data selection Hshape) as (w & H1 & H2).
    rewrite H1. simpl. exact H2.
  - destruct (walkSelection_roundtrip _ _ (unmarshalScalar_inverse config Hinv Hkeep)
                data selection Hshape) as (w & H1 & H2).
    rewrite H1. simpl. exact H2.
Qed.

Lemma shift_inverse d v : Examples.shift (- d) (Examples.shift d v) = v.
Proof. destruct v; simpl; try reflexivity. f_equal. lia. Qed.

Lemma shift_keeps_shape d v : isArray v = false -> isArray (Examples.shift d v) = false.
Proof. destruct v; simpl; auto. Qed.

Lemma roundtrip_of_shaped_data_witness :
  shaped Examples.usersSelection Examples.usersData = true
  /\ marshalSelection Examples.offsetConfig Examples.usersSelection Examples.usersData
     = Ok (VObject
             [("users",
               VArray
                 [ VObject [("id", VString "1"); ("joined", VNumber 11);
                            ("tags", VArray [VNumber 2; VNumber 3])];
                   VNull ])])
  /\ roundTrips Examples.offsetConfig Examples.usersSelection Examples.usersData.
Proof.
  split; [reflexivity|]. split; [reflexivity|].
  apply (roundtrip_of_shaped_data Examples.offsetConfig Examples.usersSelection
           Examples.usersData).
  - intros t spec H. unfold scalar_of in H. simpl in H.
    apply lookup_singleton_Some in H as [_ <-].
    exists (Examples.shift 1), (Examples.shift (-1)). repeat split.
    + intros v. apply (shift_inverse 1).
    + intros v. apply (shift_inverse (-1)).
  - intros t spec f H Hf. unfold scalar_of in H. simpl in H.
    apply lookup_singleton_Some in H as [_ <-].
    simpl in Hf. destruct Hf as [Hf|Hf]; injection Hf as <-; apply shift_keeps_shape.
  - reflexivity.
Defined.

End ScalarsFacts.

(** ** The pagination flags *)

Section PaginateFacts.

Import Props.
Import Paginate.

Lemma has_true names name : has names name = true <-> name ∈ names.
Proof. unfold has. apply bool_decide_eq_true. Qed.

Lemma has_false names name : has names name = false <-> name ∉ names.
Proof. unfold has. apply bool_decide_eq_false. Qed.




(** Recording a default value leaves the [enabled] bits alone. *)
Lemma setDefaultValue_enabledBits name v fl :
  enabledBits (setDefaultValue name v fl) = enabledBits fl.
Proof.
  unfold setDefaultValue.
  repeat match goal with
         | |- context [String.eqb name ?x] => destruct (String.eqb name x)
         end; reflexivity.
Qed.

Section Visitor.

Variable parseInt : Value -> Value.
Variable parentTypeFromAncestors : GraphQLSchema -> list ASTNode -> GraphQLNamedType.

Lemma replaceArgument_enabledBits acc arg :
  enabledBits (replaceArgument parseInt acc arg).1.2 = enabledBits acc.1.2.
Proof.
  destruct acc as [[newArgs fl] seen]. unfold replaceArgument. simpl.
  destruct (flag fl (arg_name arg)) as [spec|]; [|reflexivity].
  destruct (enabled spec); simpl; [|reflexivity].
  destruct (isVariable (arg_value arg)); simpl; [reflexivity|].
  apply setDefaultValue_enabledBits.
Qed.

Lemma fold_replaceArgument_enabledBits args acc :
  enabledBits (fold_left (replaceArgument parseInt) args acc).1.2 = enabledBits acc.1.2.
Proof.
  revert acc. induction args as [|arg args IH]; intros acc; simpl; [reflexivity|].
  rewrite IH. apply replaceArgument_enabledBits.
Qed.




(** C8.  For a document in which the first visit found a paginate-tagged
    field, the refetch descriptor [paginateDocument] records has [update]
    equal to [prepend] when the [last] flag is enabled after the visit, and
    to [append] when it is not. *)
Theorem refetch_update_follows_last config doc defs st doc' :
  visitDocument parseInt parentTypeFromAncestors config doc = Ok (defs, st) ->
  paginated st = true ->
  paginateDocument parseInt parentTypeFromAncestors config doc = Ok doc' ->
  exists r, refetch doc' = Some r
    /\ (update r = RefetchUpdateMode.prepend <-> enabled (last (flags st)) = true)
    /\ (update r = RefetchUpdateMode.append <-> enabled (last (flags st)) = false).
Proof.
  intros Hvisit Hpag Hdoc. unfold paginateDocument in Hdoc.
  rewrite Hvisit in Hdoc. simpl in Hdoc. rewrite Hpag in Hdoc.
  destruct (enterDefinitions config initialInfo defs) as [info|e]; [|discriminate].
  simpl in Hdoc. injection Hdoc as <-. simpl.
  eexists. split; [reflexivity|]. simpl. unfold refetchUpdate.
  destruct (enabled (last (flags st))); simpl;
    split; split; intros H; try reflexivity; discriminate H.
Qed.

End Visitor.


Lemma refetch_update_follows_last_witness :
  exists defs st doc',
    visitDocument Examples.decimal Examples.exampleParentType Examples.exampleConfig
      Examples.backwardsQuery = Ok (defs, st)
    /\ paginated st = true
    /\ enabled (last (flags st)) = true
    /\ paginateDocument Examples.decimal Examples.exampleParentType
         Examples.exampleConfig Examples.backwardsQuery = Ok doc'
    /\ exists r, refetch doc' = Some r
         /\ (update r = RefetchUpdateMode.prepend <-> enabled (last (flags st)) = true)
         /\ (update r = RefetchUpdateMode.append <-> enabled (last (flags st)) = false).
Proof.
  eexists _, _, _.
  split; [vm_compute; reflexivity|].
  split; [reflexivity|]. split; [reflexivity|].
  split; [vm_compute; reflexivity|].
  eapply (refetch_update_follows_last Examples.decimal Examples.exampleParentType
            Examples.exampleConfig Examples.backwardsQuery);
    [vm_compute; reflexivity | reflexivity | vm_compute; reflexivity].
Defined.

End PaginateFacts.

(** ** The list transform *)

Section ListsFacts.

Import Props.
Import Lists.

Variable unwrapType : Config -> GraphQLType -> UnwrappedType.
Variable parentTypeFromAncestors : GraphQLSchema -> list ASTNode -> GraphQLNamedType.

(** C3.  Classification does raise an error at one of its steps: on a field
    with a cursor argument pair whose selection has an [edges] field, when
    the [edges] selection has no [node] field (or [edges] has no selection
    set at all), [connectionSelection] reads [selectionSet] of undefined and
    throws a TypeError instead of returning [connection: false]. *)
Theorem connection_without_node_throws config field type selections edgesField :
  (fieldArgs unwrapType config field !! "first" = Some "Int"
   /\ fieldArgs unwrapType config field !! "after" = Some "String")
  \/ (fieldArgs unwrapType config field !! "last" = Some "Int"
      /\ fieldArgs unwrapType config field !! "before" = Some "String") ->
  List.find (isFieldNamed "edges") selections = Some edgesField ->
  selectionSetOf edgesField ≫= List.find (isFieldNamed "node") = None ->
  connectionSelection unwrapType config (Some field) type (Some selections)
    = Throw (TypeError "Cannot read properties of undefined (reading 'selectionSet')").
Proof.
  intros Hargs Hedges Hnode. unfold connectionSelection.
  assert (Hpair :
    negb (bool_decide (fieldArgs unwrapType config field !! "first" = Some "Int")
          && bool_decide (fieldArgs unwrapType config field !! "after" = Some "String"))
    && negb (bool_decide (fieldArgs unwrapType config field !! "last" = Some "Int")
             && bool_decide (fieldArgs unwrapType config field !! "before" = Some "String"))
    = false).
  { destruct Hargs as [[H1 H2]|[H1 H2]];
      rewrite (bool_decide_eq_true_2 _ H1), (bool_decide_eq_true_2 _ H2); simpl;
      [reflexivity | apply andb_false_r]. }
  rewrite Hpair. simpl. rewrite Hedges. simpl in Hnode |- *. rewrite Hnode.
  reflexivity.
Qed.

(** The naming problems, one directive at a time. *)
Lemma namingProblem_list_without_name config seen node :
  directive_name node = listDirective config -> nameArgument node = None ->
  namingProblem config seen node = Some MissingName.
Proof.
  intros Hname Harg. unfold namingProblem, has_directive_name.
  rewrite Harg, Hname, String.eqb_refl. reflexivity.
Qed.

Lemma namingProblem_paginate_without_name config seen node :
  directive_name node = paginateDirective config ->
  paginateDirective config <> listDirective config ->
  nameArgument node = None ->
  namingProblem config seen node = None.
Proof.
  intros Hname Hne Harg. unfold namingProblem, has_directive_name.
  rewrite Harg, Hname, String.eqb_refl, orb_true_r. simpl.
  destruct (String.eqb_spec (paginateDirective config) (listDirective config));
    [contradiction | reflexivity].
Qed.

Lemma namingProblem_name_not_string config seen node arg :
  has_directive_name config node = true -> nameArgument node = Some arg ->
  isStringValue (arg_value arg) = false ->
  namingProblem config seen node = Some NameNotString.
Proof.
  intros Hdir Harg Hkind. unfold namingProblem. rewrite Hdir, Harg. simpl.
  destruct (arg_value arg); try reflexivity. discriminate Hkind.
Qed.

Lemma namingProblem_duplicate config seen node arg listName :
  has_directive_name config node = true -> nameArgument node = Some arg ->
  arg_value arg = StringValueNode listName -> listName ∈ seen ->
  namingProblem config seen node = Some DuplicateName.
Proof.
  intros Hdir Harg Hvalue Hseen. unfold namingProblem.
  rewrite Hdir, Harg. simpl. rewrite Hvalue.
  rewrite bool_decide_eq_true_2 by exact Hseen. reflexivity.
Qed.





End ListsFacts.


Lemma connection_without_node_throws_witness :
  Lists.connectionSelection Examples.exampleUnwrap Examples.exampleConfig
    (field_lookup "friends" (type_fields Examples.userType))
    Examples.userConnectionType (Some Examples.friendsCursors)
  = Throw (TypeError "Cannot read properties of undefined (reading 'selectionSet')").
Proof.
  apply (connection_without_node_throws Examples.exampleUnwrap Examples.exampleConfig
           _ Examples.userConnectionType Examples.friendsCursors
           (Examples.field "edges" (Some [Examples.field "cursor" None]))).
  - left. split; reflexivity.
  - reflexivity.
  - reflexivity.
Defined.

(** ** The masked flag of a compiled selection *)

Section ArtifactsFacts.

Import Props.
Import Artifacts.

(** Induction on a selection node, with the hypothesis for every selection
    of its selection set. *)
Lemma SelectionNode_nested_ind (P : SelectionNode -> Prop) :
  (forall alias name arguments directives,
      P (FieldNode alias name arguments directives None)) ->
  (forall alias name arguments directives selections,
      Forall P selections ->
      P (FieldNode alias name arguments directives (Some selections))) ->
  (forall name directives, P (FragmentSpread name directives)) ->
  (forall typeCondition directives selections,
      Forall P selections -> P (InlineFragment typeCondition directives selections)) ->
  forall sel, P sel.
Proof.
  intros Hleaf Hfield Hspread Hinline.
  fix IH 1. intros [alias name arguments directives [selections|]
                   | name directives | typeCondition directives selections].
  - apply Hfield. induction selections as [|x selections IHs]; constructor.
    + apply IH.
    + exact IHs.
  - apply Hleaf.
  - apply Hspread.
  - apply Hinline. induction selections as [|x selections IHs]; constructor.
    + apply IH.
    + exact IHs.
Qed.

(** The masked flag at a path of two merged selections is the conjunction
    of the flags the two have there. *)
Lemma maskedAt_mergeEntries path : forall a b,
  maskedAt (mergeEntries a b) path
  = union_with (fun x y => Some (x && y)) (maskedAt a path) (maskedAt b path).
Proof.
  unfold maskedAt.
  induction path as [|k rest IH]; intros a b; [reflexivity|].
  simpl. unfold mergeEntries at 1. rewrite lookup_union_with.
  destruct (a !! k) as [[t kr m fs]|], (b !! k) as [[t' kr' m' fs']|];
    cbn -[lookupPath]; try reflexivity.
  - destruct rest as [|k' rest']; [reflexivity|].
    destruct fs as [[x]|], fs' as [[y]|]; cbn -[lookupPath].
    + apply (IH x y).
    + destruct (lookupPath x (k' :: rest')); reflexivity.
    + destruct (lookupPath y (k' :: rest')); reflexivity.
    + reflexivity.
  - destruct rest as [|k' rest']; [reflexivity|].
    destruct fs as [[x]|]; cbn -[lookupPath]; [|reflexivity].
    destruct (lookupPath x (k' :: rest')); reflexivity.
  - destruct rest as [|k' rest']; [reflexivity|].
    destruct fs' as [[y]|]; cbn -[lookupPath]; [|reflexivity].
    destruct (lookupPath y (k' :: rest')); reflexivity.
Qed.

Lemma Tracks_ext direct direct' s :
  (forall path, direct path = direct' path) -> Tracks direct s -> Tracks direct' s.
Proof.
  intros Hext H path. specialize (H path). rewrite <- Hext. exact H.
Qed.

Lemma Tracks_empty : Tracks (fun _ => false) ∅.
Proof. intros [|k rest]; reflexivity. Qed.

Lemma Tracks_mergeEntries da db a b :
  Tracks da a -> Tracks db b ->
  Tracks (fun path => da path || db path) (mergeEntries a b).
Proof.
  intros Ha Hb path. specialize (Ha path). specialize (Hb path).
  rewrite maskedAt_mergeEntries.
  destruct (maskedAt a path) as [ma|], (maskedAt b path) as [mb|]; simpl;
    subst; rewrite ?Ha, ?Hb; simpl;
    try reflexivity.
  - symmetry. apply negb_orb.
  - rewrite orb_false_r. reflexivity.
Qed.

(** Merging the occurrences of a list of selections, one after the other. *)
Lemma Tracks_fold (f : SelectionNode -> gmap string SelectionField)
    (ds : SelectionNode -> list string -> bool) selections :
  Forall (fun sel => Tracks (ds sel) (f sel)) selections ->
  forall dacc acc, Tracks dacc acc ->
    Tracks (fun path => dacc path || existsb (fun sel => ds sel path) selections)
      (fold_left (fun acc sel => mergeEntries acc (f sel)) selections acc).
Proof.
  induction 1 as [|sel selections Hsel _ IH]; intros dacc acc Hacc; simpl.
  - eapply Tracks_ext; [|exact Hacc]. intros path. symmetry. apply orb_false_r.
  - eapply Tracks_ext; [|apply (IH _ _ (Tracks_mergeEntries _ _ _ _ Hacc Hsel))].
    intros path. simpl. symmetry. apply orb_assoc.
Qed.

Lemma existsb_andb_l {A} (b : bool) (f : A -> bool) l :
  existsb (fun x => b && f x) l = b && existsb f l.
Proof.
  induction l as [|x l IH]; simpl; [symmetry; apply andb_false_r|].
  rewrite IH. destruct b; reflexivity.
Qed.

(** The compiled selection of a field: one node under its response key. *)
Lemma Tracks_field key t kr spread sub (dsub : list string -> bool) :
  match sub with
  | Some (Selection m) => Tracks dsub m
  | None => forall path, dsub path = false
  end ->
  Tracks
    (fun path =>
       match path with
       | [] => false
       | k :: rest =>
           String.eqb key k
           && match rest with [] => negb spread | _ => dsub rest end
       end)
    {[ key := Field t kr spread sub ]}.
Proof.
  intros Hsub [|k rest]; [reflexivity|].
  unfold maskedAt. simpl.
  destruct (String.eqb_spec key k) as [->|Hne].
  - rewrite lookup_singleton_eq. simpl.
    destruct rest as [|k' rest']; [simpl; symmetry; apply negb_involutive|].
    destruct sub as [[m]|]; [apply (Hsub (k' :: rest')) | apply Hsub].
  - rewrite lookup_singleton_ne by exact Hne. reflexivity.
Qed.

Section Compile.

Variable fieldType : string -> string -> string.
Variable fieldKey : string -> list ArgumentNode -> string.

(** The occurrences of one selection node track the paths selected directly
    through it, when the walk is not inside a spread, and no path when it
    is. *)
Lemma Tracks_selectionNode expand spread :
  (forall name, Tracks (fun _ => false) (expand name)) ->
  forall sel rootType,
    Tracks (fun path => negb spread && selectedDirectly path sel)
      (selectionNode fieldType fieldKey expand rootType spread sel).
Proof.
  intros Hexpand sel.
  induction sel as [ alias name arguments directives
                   | alias name arguments directives selections IH
                   | name directives
                   | typeCondition directives selections IH ]
    using SelectionNode_nested_ind; intros rootType.
  - eapply Tracks_ext;
      [|apply (Tracks_field (responseKey alias name) _ _ spread None (fun _ => false))].
    + intros [|k [|k' rest']]; simpl; rewrite ?andb_false_r; try reflexivity.
      destruct (String.eqb (responseKey alias name) k), spread; reflexivity.
    + reflexivity.
  - eapply Tracks_ext;
      [|apply (Tracks_field (responseKey alias name) _ _ spread (Some (Selection _))
                 (fun rest => false || existsb
                    (fun sel => negb spread && selectedDirectly rest sel) selections))].
    + intros [|k [|k' rest']]; simpl; rewrite ?andb_false_r; try reflexivity.
      * destruct (String.eqb (responseKey alias name) k), spread; reflexivity.
      * rewrite (existsb_andb_l (negb spread)
                   (selectedDirectly (k' :: rest')) selections).
        destruct (String.eqb (responseKey alias name) k), spread; reflexivity.
    + apply (Tracks_fold
               (selectionNode fieldType fieldKey expand (fieldType rootType name) spread)
               (fun sel path => negb spread && selectedDirectly path sel)).
      * apply Forall_forall. intros sel Hsel.
        rewrite Forall_forall in IH. apply (IH sel Hsel).
      * apply Tracks_empty.
  - eapply Tracks_ext; [|apply Hexpand].
    intros path. simpl. symmetry. apply andb_false_r.
  - assert (Hall : Forall
                     (fun sel =>
                        Tracks (fun path => negb spread && selectedDirectly path sel)
                          (selectionNode fieldType fieldKey expand
                             (default rootType typeCondition) spread sel))
                     selections).
    { apply Forall_forall. intros sel Hsel.
      rewrite Forall_forall in IH. apply (IH sel Hsel). }
    eapply Tracks_ext;
      [|apply (Tracks_fold _ _ selections Hall (fun _ => false) ∅ Tracks_empty)].
    intros path. simpl.
    apply (existsb_andb_l (negb spread) (selectedDirectly path) selections).
Qed.

Lemma Tracks_selectionLevel expand rootType spread selections :
  (forall name, Tracks (fun _ => false) (expand name)) ->
  Tracks (fun path => negb spread && existsb (selectedDirectly path) selections)
    (selectionLevel fieldType fieldKey expand rootType spread selections).
Proof.
  intros Hexpand. unfold selectionLevel.
  assert (Hall : Forall
                   (fun sel =>
                      Tracks (fun path => negb spread && selectedDirectly path sel)
                        (selectionNode fieldType fieldKey expand rootType spread sel))
                   selections).
  { apply Forall_forall. intros sel _. apply Tracks_selectionNode. exact Hexpand. }
  eapply Tracks_ext;
    [|apply (Tracks_fold _ _ selections Hall (fun _ => false) ∅ Tracks_empty)].
  intros path. simpl.
  apply (existsb_andb_l (negb spread) (selectedDirectly path) selections).
Qed.

(** The compiled selection tracks the paths its selection set selects
    directly, whatever the nesting of spreads followed. *)
Lemma Tracks_selection depth : forall fragments rootType spread selections,
  Tracks (fun path => negb spread && existsb (selectedDirectly path) selections)
    (selection fieldType fieldKey depth fragments rootType spread selections).
Proof.
  induction depth as [|depth IH]; intros fragments rootType spread selections.
  - apply Tracks_selectionLevel. intros name. apply Tracks_empty.
  - apply Tracks_selectionLevel. intros name.
    destruct (fragments !! name) as [[typeCondition fragmentSelections]|];
      [|apply Tracks_empty].
    apply (IH fragments typeCondition true fragmentSelections).
Qed.

(** C6.  In the compiled selection of a document, the node at any path of
    response keys has [masked] true exactly when the path is not selected
    directly (it is reached through fragment spreads only); and a path that
    is selected directly has a node, with [masked] false, whatever fragment
    spreads also reach it. *)
Theorem masked_iff_not_selected_directly depth fragments rootType selections path :
  (forall f,
      lookupPath (selection fieldType fieldKey depth fragments rootType false selections)
        path = Some f ->
      masked f = negb (existsb (selectedDirectly path) selections))
  /\ (existsb (selectedDirectly path) selections = true ->
      exists f,
        lookupPath (selection fieldType fieldKey depth fragments rootType false selections)
          path = Some f
        /\ masked f = false).
Proof.
  pose proof (Tracks_selection depth fragments rootType false selections path) as H.
  unfold maskedAt in H. simpl in H.
  destruct (lookupPath _ path) as [f|]; simpl in H.
  - split.
    + intros f' [= <-]. exact H.
    + intros Hdirect. exists f. split; [reflexivity|]. rewrite H, Hdirect. reflexivity.
  - split.
    + intros f' Hf'. discriminate Hf'.
    + intros Hdirect. rewrite Hdirect in H. discriminate H.
Qed.

End Compile.

End ArtifactsFacts.

(** The masked flags of the snapshots of the artifact tests "selection
    includes fragments", "overlapping query and fragment selection" and
    "overlapping query and fragment nested selection". *)
Lemma masked_flags_of_test_snapshots :
  let compile :=
    Artifacts.selection Examples.exampleFieldType Examples.exampleFieldKey 1
      Examples.exampleFragments "Query" false in
  Props.maskedAt (compile Examples.spreadOnlySelection) ["user"] = Some false
  /\ Props.maskedAt (compile Examples.spreadOnlySelection) ["user"; "firstName"]
     = Some true
  /\ Props.maskedAt (compile Examples.overlappingSelection) ["user"; "firstName"]
     = Some false
  /\ Props.maskedAt (compile Examples.overlappingNestedSelection) ["user"; "friends"]
     = Some false
  /\ Props.maskedAt (compile Examples.overlappingNestedSelection)
       ["user"; "friends"; "firstName"] = Some false
  /\ Props.maskedAt (compile Examples.overlappingNestedSelection)
       ["user"; "friends"; "id"] = Some true.
Proof. repeat split. Qed.

Lemma masked_iff_not_selected_directly_witness :
  let compiled :=
    Artifacts.selection Examples.exampleFieldType Examples.exampleFieldKey 1
      Examples.exampleFragments "Query" false Examples.overlappingNestedSelection in
  Artifacts.lookupPath compiled ["user"; "friends"; "id"]
    = Some (Field (Some "ID") "id" true None)
  /\ existsb (Artifacts.selectedDirectly ["user"; "friends"; "id"])
       Examples.overlappingNestedSelection = false
  /\ existsb (Artifacts.selectedDirectly ["user"; "friends"])
       Examples.overlappingNestedSelection = true
  /\ exists f, Artifacts.lookupPath compiled ["user"; "friends"] = Some f
               /\ masked f = false.
Proof.
  split; [reflexivity|]. split; [reflexivity|]. split; [reflexivity|].
  apply (masked_iff_not_selected_directly Examples.exampleFieldType
           Examples.exampleFieldKey 1 Examples.exampleFragments "Query"
           Examples.overlappingNestedSelection ["user"; "friends"]).
  reflexivity.
Defined.

(** * Further properties of the code *)

(** ** The walkers of [scalars.ts] *)

Section MoreScalarsFacts.

Import Scalars Props MoreProps.

Lemma mapResult_identity {A} (f : A -> Result A) l :
  Forall (fun x => f x = Ok x) l -> mapResult f l = Ok l.
Proof.
  induction 1 as [|x l Hx _ IH]; simpl; [reflexivity|].
  rewrite Hx, IH. reflexivity.
Qed.

Lemma mapResult_length {A B} (f : A -> Result B) l l' :
  mapResult f l = Ok l' -> length l' = length l.
Proof.
  revert l'. induction l as [|x l IH]; simpl; intros l'.
  - intros [= <-]. reflexivity.
  - destruct (f x) as [y|e]; [|discriminate].
    destruct (mapResult f l) as [ys|e]; [|discriminate].
    intros [= <-]. simpl. f_equal. apply IH. reflexivity.
Qed.

Lemma mapResult_keys {A} (f : string * A -> Result (string * A)) l l' :
  (forall kv kv', f kv = Ok kv' -> kv'.1 = kv.1) ->
  mapResult f l = Ok l' -> map fst l' = map fst l.
Proof.
  intros Hkey. revert l'. induction l as [|x l IH]; simpl; intros l'.
  - intros [= <-]. reflexivity.
  - destruct (f x) as [y|e] eqn:Hx; [|discriminate].
    destruct (mapResult f l) as [ys|e]; [|discriminate].
    intros [= <-]. simpl. rewrite (Hkey _ _ Hx). f_equal. apply IH. reflexivity.
Qed.

Lemma entryCallback_key leaf selection kv kv' :
  entryCallback leaf selection kv = Ok kv' -> kv'.1 = kv.1.
Proof.
  unfold entryCallback, walkField.
  destruct (entries selection !! kv.1) as [f|]; [|discriminate].
  destruct (negb (truthy_string (Runtime.type f))); [intros [= <-]; reflexivity|].
  destruct (fields f) as [sub|].
  - destruct (walkSelection leaf sub kv.2); simpl; [intros [= <-]; reflexivity|discriminate].
  - destruct (leaf _ kv.2); simpl; [intros [= <-]; reflexivity|discriminate].
Qed.

Lemma walkSelection_identity leaf :
  (forall t v, leaf t v = Ok v) ->
  forall data selection, shaped selection data = true ->
    walkSelection leaf selection data = Ok data.
Proof.
  intros Hleaf data.
  induction data as [ | | b | n | s | items IH | props IH ] using Value_nested_ind;
    intros selection Hshape; try discriminate;
    rewrite walkSelection_unfold; try reflexivity.
  - simpl in Hshape. rewrite mapResult_identity; [reflexivity|].
    rewrite Forall_forall in IH. apply Forall_forall. intros x Hx.
    apply IH; [exact Hx|].
    rewrite forallb_forall in Hshape. apply Hshape. apply list_elem_of_In. exact Hx.
  - simpl in Hshape |- *. apply andb_prop in Hshape as [Hnd Hall].
    apply bool_decide_eq_true in Hnd.
    rewrite mapResult_identity.
    + simpl. f_equal. apply Object_fromEntries_NoDup. exact Hnd.
    + rewrite Forall_forall in IH. apply Forall_forall. intros [k v] Hkv.
      rewrite forallb_forall in Hall.
      pose proof (Hall _ (proj1 (list_elem_of_In _ _) Hkv)) as Hkv'. simpl in Hkv'.
      unfold entryCallback, walkField. simpl.
      destruct (entries selection !! k) as [f|]; [|discriminate].
      destruct (truthy_string (Runtime.type f)); simpl; [|reflexivity].
      destruct (fields f) as [sub|].
      * pose proof (IH _ Hkv sub Hkv') as Hrec. simpl in Hrec.
        rewrite Hrec. reflexivity.
      * rewrite Hleaf. reflexivity.
Qed.

(** X1.  With no custom scalar configured, both walkers return a value
    shaped by the selection unchanged. *)
Theorem walkers_identity_without_scalars config selection data :
  (forall t, scalar_of config t = None) ->
  shaped selection data = true ->
  marshalSelection config selection data = Ok data
  /\ unmarshalSelection config selection data = Ok data.
Proof.
  intros Hnone Hshape. split.
  - apply walkSelection_identity; [|exact Hshape].
    intros t v. unfold marshalScalar. rewrite Hnone. reflexivity.
  - apply walkSelection_identity; [|exact Hshape].
    intros t v. unfold unmarshalScalar. rewrite Hnone. reflexivity.
Qed.

Lemma walkers_identity_without_scalars_witness :
  shaped Examples.usersSelection Examples.usersData = true
  /\ marshalSelection Examples.plainConfig Examples.usersSelection Examples.usersData
     = Ok Examples.usersData
  /\ unmarshalSelection Examples.plainConfig Examples.usersSelection Examples.usersData
     = Ok Examples.usersData.
Proof.
  split; [reflexivity|].
  apply (walkers_identity_without_scalars Examples.plainConfig
           Examples.usersSelection Examples.usersData).
  - intros t. reflexivity.
  - reflexivity.
Defined.

Lemma walkSelection_shape leaf selection data r :
  walkSelection leaf selection data = Ok r ->
  match data with
  | VUndefined | VNull => r = data
  | VBool _ | VNumber _ => r = VObject []
  | VString _ => True
  | VArray items => exists items', r = VArray items' /\ length items' = length items
  | VObject props =>
      NoDup (map fst props) ->
      exists es, r = VObject es /\ map fst es = map fst props
  end.
Proof.
  rewrite walkSelection_unfold.
  destruct data as [ | | b | n | s | items | props ]; simpl;
    try (intros [= <-]; reflexivity); try (intros _; exact I).
  - destruct (mapResult _ items) as [items'|e] eqn:Hmap; [|discriminate].
    simpl. intros [= <-]. exists items'. split; [reflexivity|].
    apply (mapResult_length _ _ _ Hmap).
  - destruct (mapResult _ props) as [es|e] eqn:Hmap; [|discriminate].
    simpl. intros [= <-] Hnd.
    pose proof (mapResult_keys _ _ _ (entryCallback_key leaf selection) Hmap) as Hkeys.
    exists es. split; [|exact Hkeys].
    apply Object_fromEntries_NoDup. rewrite Hkeys. exact Hnd.
Qed.

(** X2.  What a walker returns has the shape of what it was given: null and
    undefined are returned as they are, an array comes back as an array of
    the same length, an object with distinct keys as an object with the same
    keys in the same order; a number or a boolean comes back as the empty
    object. *)
Theorem walkers_keep_shape config selection data r :
  marshalSelection config selection data = Ok r
  \/ unmarshalSelection config selection data = Ok r ->
  match data with
  | VUndefined | VNull => r = data
  | VBool _ | VNumber _ => r = VObject []
  | VString _ => True
  | VArray items => exists items', r = VArray items' /\ length items' = length items
  | VObject props =>
      NoDup (map fst props) ->
      exists es, r = VObject es /\ map fst es = map fst props
  end.
Proof.
  intros [H|H]; exact (walkSelection_shape _ _ _ _ H).
Qed.

Lemma walkers_keep_shape_witness :
  exists r,
    marshalSelection Examples.offsetConfig Examples.usersSelection Examples.usersData
      = Ok r
    /\ (NoDup (map fst [("users",
                          VArray
                            [ VObject [("id", VString "1"); ("joined", VNumber 10);
                                       ("tags", VArray [VNumber 1; VNumber 2])];
                              VNull ])]) ->
        exists es, r = VObject es /\ map fst es = ["users"]).
Proof.
  eexists. split; [reflexivity|].
  apply (walkers_keep_shape Examples.offsetConfig Examples.usersSelection
           Examples.usersData).
  left. reflexivity.
Defined.


(** ** marshalInputs *)

Lemma marshalInputs_unfold frames artifact config input rootType :
  marshalInputs (S frames) artifact config input rootType =
  match input with
  | VNull | VUndefined => Ok input
  | _ =>
      match Runtime.input artifact with
      | None => Ok input
      | Some descriptor =>
          match input with
          | VArray items =>
              items' ← mapResult
                         (fun val => marshalInputs frames artifact config val rootType)
                         items;
              Ok (VArray items')
          | _ =>
              es ← mapResult
                     (inputEntry (marshalInputs frames artifact config) config
                        descriptor rootType)
                     (Object_entries input);
              Ok (Object_fromEntries es)
          end
      end
  end.
Proof. destruct input; reflexivity. Qed.

(** The callback throws what the recursive call throws, nothing else. *)
Lemma inputEntry_throws recurse config descriptor rootType kv e :
  inputEntry recurse config descriptor rootType kv = Throw e ->
  exists v t, recurse v t = Throw e.
Proof.
  unfold inputEntry.
  destruct (negb (truthy_string _)); [discriminate|].
  destruct (scalar_of config _ ≫= marshal) as [marshalFn|].
  - destruct kv.2; discriminate.
  - destruct (isScalar config _ || _); [discriminate|].
    destruct (recurse kv.2 _) as [v|e'] eqn:Hrec; simpl; [discriminate|].
    intros [= <-]. eauto.
Qed.

Lemma mapResult_throws {A B} (f : A -> Result B) l e :
  mapResult f l = Throw e -> exists x, In x l /\ f x = Throw e.
Proof.
  induction l as [|x l IH]; simpl; [discriminate|].
  destruct (f x) as [y|e'] eqn:Hx.
  - destruct (mapResult f l) as [ys|e'']; [discriminate|].
    intros [= <-]. destruct (IH eq_refl) as (x' & Hin & Hx'). eauto.
  - intros [= <-]. eauto.
Qed.

(** X4.  [marshalInputs] throws nothing of its own: a field the descriptor
    does not know, a type that is no scalar and no input type, a custom
    scalar without a [marshal] function are all passed through, and the only
    exception a call can end in is the engine's RangeError of a recursion
    that went too deep. *)
Theorem marshalInputs_throws_only_RangeError frames :
  forall artifact config input rootType e,
    marshalInputs frames artifact config input rootType = Throw e ->
    e = RangeError "Maximum call stack size exceeded".
Proof.
  induction frames as [|frames IH]; intros artifact config input rootType e.
  - simpl. intros [= <-]. reflexivity.
  - rewrite marshalInputs_unfold.
    destruct input as [ | | b | n | s | items | props ]; try discriminate;
      destruct (Runtime.input artifact) as [descriptor|]; try discriminate;
      simpl.
    all: match goal with
         | |- context [mapResult ?f ?l] =>
             destruct (mapResult f l) as [r|e'] eqn:Hmap; simpl; [discriminate|]
         end.
    all: intros [= <-]; apply mapResult_throws in Hmap as (x & _ & Hx).
    all: try (apply inputEntry_throws in Hx as (v & t & Hx)).
    all: exact (IH _ _ _ _ _ Hx).
Qed.

Lemma marshalInputs_throws_only_RangeError_witness :
  marshalInputs 1
    (mkArtifact "Q" (Some (mkInputObject {[ "filter" := "Filter" ]}
                             {[ "Filter" := {[ "and" := "Filter" ]} ]})))
    Examples.plainConfig
    (VObject [("filter", VObject [("and", VNull)])]) "@root"
  = Throw (RangeError "Maximum call stack size exceeded")
  /\ RangeError "Maximum call stack size exceeded"
     = RangeError "Maximum call stack size exceeded".
Proof.
  split; [reflexivity|].
  apply (marshalInputs_throws_only_RangeError 1
           (mkArtifact "Q" (Some (mkInputObject {[ "filter" := "Filter" ]}
                                    {[ "Filter" := {[ "and" := "Filter" ]} ]})))
           Examples.plainConfig
           (VObject [("filter", VObject [("and", VNull)])]) "@root").
  reflexivity.
Defined.

Lemma height_item x (items : list Value) :
  In x items -> height x <= foldr Nat.max 0 (map height items).
Proof.
  induction items as [|y items IH]; simpl; [intros []|].
  intros [->|Hin]; [lia|]. specialize (IH Hin). lia.
Qed.

Lemma height_prop (kv : string * Value) props :
  In kv props -> height kv.2 <= foldr Nat.max 0 (map (fun kv => height kv.2) props).
Proof.
  induction props as [|y props IH]; simpl; [intros []|].
  intros [->|Hin]; [lia|]. specialize (IH Hin). lia.
Qed.

Lemma mapResult_total {A} (f : A -> Result A) (same : Prop) l :
  Forall (fun x => exists r, f x = Ok r /\ (same -> r = x)) l ->
  exists rs, mapResult f l = Ok rs /\ (same -> rs = l).
Proof.
  induction 1 as [|x l (r & Hx & Hsame) _ (rs & Hrs & Hsames)]; simpl.
  - exists []. split; reflexivity.
  - exists (r :: rs). rewrite Hx, Hrs. split; [reflexivity|].
    intros Hs. rewrite (Hsame Hs), (Hsames Hs). reflexivity.
Qed.

(** On an input the descriptor describes, a call with more frames than the
    input is deep returns; and it returns the input itself when no
    configured scalar has a [marshal] function. *)
Lemma marshalInputs_described artifact config descriptor :
  Runtime.input artifact = Some descriptor ->
  forall data frames rootType,
    describedInput descriptor config rootType data = true ->
    height data < frames ->
    exists r, marshalInputs frames artifact config data rootType = Ok r
              /\ ((forall t spec, scalar_of config t = Some spec -> marshal spec = None)
                  -> r = data).
Proof.
  intros Hdesc data.
  induction data as [ | | b | n | s | items IH | props IH ] using Value_nested_ind;
    intros frames rootType Hshape Hheight; try discriminate;
    (destruct frames as [|frames]; [lia|]); rewrite marshalInputs_unfold.
  - exists VUndefined. split; reflexivity.
  - exists VNull. split; reflexivity.
  - rewrite Hdesc. simpl in Hshape, Hheight.
    destruct (mapResult_total
                (fun val => marshalInputs frames artifact config val rootType)
                (forall t spec, scalar_of config t = Some spec -> marshal spec = None)
                items) as (rs & Hrs & Hsame).
    { rewrite Forall_forall in IH. apply Forall_forall. intros x Hx.
      pose proof (proj1 (list_elem_of_In _ _) Hx) as Hin.
      apply IH; [exact Hx| |].
      - rewrite forallb_forall in Hshape. apply Hshape. exact Hin.
      - pose proof (height_item x items Hin). lia. }
    exists (VArray rs). rewrite Hrs. split; [reflexivity|].
    intros Hs. rewrite (Hsame Hs). reflexivity.
  - rewrite Hdesc. simpl in Hshape, Hheight.
    apply andb_prop in Hshape as [Hnd Hall]. apply bool_decide_eq_true in Hnd.
    destruct (mapResult_total
                (inputEntry (marshalInputs frames artifact config) config
                   descriptor rootType)
                (forall t spec, scalar_of config t = Some spec -> marshal spec = None)
                props) as (rs & Hrs & Hsame).
    { rewrite Forall_forall in IH. apply Forall_forall. intros [k v] Hkv.
      pose proof (proj1 (list_elem_of_In _ _) Hkv) as Hin.
      rewrite forallb_forall in Hall. pose proof (Hall _ Hin) as Hkv'.
      pose proof (height_prop (k, v) props Hin) as Hh.
      simpl in Hkv', Hh. unfold inputEntry. simpl.
      destruct (negb (truthy_string (inputFieldType descriptor rootType k)));
        [exists (k, v); split; reflexivity|].
      destruct (scalar_of config _ ≫= marshal) as [marshalFn|] eqn:Hfn.
      - assert (Hno : (forall t spec, scalar_of config t = Some spec ->
                                      marshal spec = None) -> False).
        { intros Hs. destruct (scalar_of config _) as [spec|] eqn:Hspec;
            [|discriminate]. simpl in Hfn. rewrite (Hs _ _ Hspec) in Hfn.
          discriminate. }
        destruct v; eexists; (split; [reflexivity|]);
          intros Hs; destruct (Hno Hs).
      - destruct (isScalar config _ || _); [exists (k, v); split; reflexivity|].
        destruct (IH _ Hkv frames _ Hkv' ltac:(simpl; lia)) as (r & Hr & Hsame).
        simpl in Hr. exists (k, r). rewrite Hr. split; [reflexivity|].
        intros Hs. rewrite (Hsame Hs). reflexivity. }
    simpl. rewrite Hrs. simpl. eexists. split; [reflexivity|].
    intros Hs. rewrite (Hsame Hs). apply Object_fromEntries_NoDup. exact Hnd.
Qed.

(** X5.  On an input the descriptor describes (null, undefined, arrays and
    objects wherever [marshalInputs] recurses), a call returns as soon as it
    has more stack frames than the input has levels of nesting: the
    recursion through the named input types, recursive ones included, is
    bounded by the data. *)
Theorem marshalInputs_returns artifact config descriptor data frames rootType :
  Runtime.input artifact = Some descriptor ->
  describedInput descriptor config rootType data = true ->
  height data < frames ->
  exists r, marshalInputs frames artifact config data rootType = Ok r.
Proof.
  intros Hdesc Hshape Hheight.
  destruct (marshalInputs_described artifact config descriptor Hdesc data frames
              rootType Hshape Hheight) as (r & Hr & _).
  exists r. exact Hr.
Qed.

(** X6.  When no configured scalar has a [marshal] function, [marshalInputs]
    returns such an input unchanged. *)
Theorem marshalInputs_identity_without_marshal
    artifact config descriptor data frames rootType :
  Runtime.input artifact = Some descriptor ->
  (forall t spec, scalar_of config t = Some spec -> marshal spec = None) ->
  describedInput descriptor config rootType data = true ->
  height data < frames ->
  marshalInputs frames artifact config data rootType = Ok data.
Proof.
  intros Hdesc Hnone Hshape Hheight.
  destruct (marshalInputs_described artifact config descriptor Hdesc data frames
              rootType Hshape Hheight) as (r & Hr & Hsame).
  rewrite Hr, (Hsame Hnone). reflexivity.
Qed.

Lemma marshalInputs_returns_witness :
  exists r,
    marshalInputs 4 MoreExamples.filterArtifact Examples.offsetConfig
      MoreExamples.filterInput "@root" = Ok r.
Proof.
  apply (marshalInputs_returns MoreExamples.filterArtifact Examples.offsetConfig
           MoreExamples.filterDescriptor MoreExamples.filterInput 4 "@root").
  - reflexivity.
  - vm_compute. reflexivity.
  - simpl. lia.
Defined.

Lemma marshalInputs_identity_without_marshal_witness :
  marshalInputs 4 MoreExamples.filterArtifact Examples.bareDateConfig
    MoreExamples.filterInput "@root" = Ok MoreExamples.filterInput.
Proof.
  apply (marshalInputs_identity_without_marshal MoreExamples.filterArtifact
           Examples.bareDateConfig MoreExamples.filterDescriptor
           MoreExamples.filterInput 4 "@root").
  - reflexivity.
  - intros t spec H. unfold scalar_of in H. simpl in H.
    apply lookup_singleton_Some in H as [_ <-]. reflexivity.
  - vm_compute. reflexivity.
  - simpl. lia.
Defined.

Lemma mapResult_In {A B} (f : A -> Result B) l l' x :
  mapResult f l = Ok l' -> In x l -> exists y, f x = Ok y /\ In y l'.
Proof.
  revert l'. induction l as [|x' l IH]; simpl; intros l' Hmap; [intros []|].
  destruct (f x') as [y'|e] eqn:Hx'; [|discriminate].
  destruct (mapResult f l) as [ys|e]; [|discriminate].
  injection Hmap as <-. intros [->|Hin].
  - exists y'. split; [exact Hx' | left; reflexivity].
  - destruct (IH ys eq_refl Hin) as (y & Hy & Hin'). exists y.
    split; [exact Hy | right; exact Hin'].
Qed.

Lemma inputEntry_key recurse config descriptor rootType kv kv' :
  inputEntry recurse config descriptor rootType kv = Ok kv' -> kv'.1 = kv.1.
Proof.
  unfold inputEntry.
  destruct (negb (truthy_string _)); [intros [= <-]; reflexivity|].
  destruct (scalar_of config _ ≫= marshal) as [marshalFn|].
  - destruct kv.2; intros [= <-]; reflexivity.
  - destruct (isScalar config _ || _); [intros [= <-]; reflexivity|].
    destruct (recurse kv.2 _); simpl; [intros [= <-]; reflexivity|discriminate].
Qed.

(** X7.  What [marshalInputs] returns for an object with distinct keys is an
    object with the same keys in the same order, in which every field whose
    type in the descriptor is a custom scalar with a [marshal] function
    holds the marshaled value: the function applied to the value, or to
    every element when the value is an array. *)
Theorem marshalInputs_converts_scalars
    frames artifact config descriptor props rootType r :
  Runtime.input artifact = Some descriptor ->
  NoDup (map fst props) ->
  marshalInputs frames artifact config (VObject props) rootType = Ok r ->
  exists es,
    r = VObject es /\ map fst es = map fst props
    /\ forall k v t spec marshalFn,
         In (k, v) props ->
         inputFieldType descriptor rootType k = Some t -> t <> "" ->
         scalar_of config t = Some spec -> marshal spec = Some marshalFn ->
         In (k, match v with
                | VArray vs => VArray (map marshalFn vs)
                | _ => marshalFn v
                end) es.
Proof.
  intros Hdesc Hnd. destruct frames as [|frames]; [discriminate|].
  rewrite marshalInputs_unfold, Hdesc. simpl.
  destruct (mapResult _ props) as [es|e] eqn:Hmap; [|discriminate].
  simpl. intros [= <-].
  pose proof (mapResult_keys _ _ _
                (inputEntry_key (marshalInputs frames artifact config) config
                   descriptor rootType) Hmap) as Hkeys.
  exists es. split; [|split; [exact Hkeys|]].
  - apply Object_fromEntries_NoDup. rewrite Hkeys. exact Hnd.
  - intros k v t spec marshalFn Hin Htype Ht Hspec Hfn.
    destruct (mapResult_In _ _ _ _ Hmap Hin) as (y & Hy & Hyin).
    unfold inputEntry in Hy. simpl in Hy. rewrite Htype in Hy. simpl in Hy.
    destruct (String.eqb_spec t ""); [contradiction|]. simpl in Hy.
    rewrite Hspec in Hy. simpl in Hy. rewrite Hfn in Hy.
    destruct v; injection Hy as <-; exact Hyin.
Qed.

Lemma marshalInputs_converts_scalars_witness :
  exists es,
    marshalInputs 4 MoreExamples.filterArtifact Examples.offsetConfig
      MoreExamples.filterInput "@root" = Ok (VObject es)
    /\ map fst es = ["filter"; "since"; "extra"]
    /\ In ("since", VNumber 8) es.
Proof.
  destruct (marshalInputs_converts_scalars 4 MoreExamples.filterArtifact
              Examples.offsetConfig MoreExamples.filterDescriptor
              [("filter",
                VObject [("and", VObject [("and", VNull); ("name", VString "x");
                                          ("since", VNumber 5)])]);
               ("since", VNumber 7);
               ("extra", VBool true)] "@root"
              (VObject
                 [("filter",
                   VObject [("and", VObject [("and", VNull); ("name", VString "x");
                                             ("since", VNumber 6)])]);
                  ("since", VNumber 8);
                  ("extra", VBool true)])
              eq_refl ltac:(apply (bool_decide_unpack _); vm_compute; exact I)
              ltac:(vm_compute; reflexivity))
    as (es & Hes & Hkeys & Hconv).
  exists es. split; [rewrite <- Hes; vm_compute; reflexivity|].
  split; [exact Hkeys|].
  apply (Hconv "since" (VNumber 7) "Offset"
           (mkScalarSpec "number" (Some (Examples.shift 1)) (Some (Examples.shift (-1))))
           (Examples.shift 1)).
  - right. left. reflexivity.
  - reflexivity.
  - discriminate.
  - reflexivity.
  - reflexivity.
Defined.

End MoreScalarsFacts.

(** ** The paginate transform *)

Section MorePaginateFacts.

Import Props MoreProps.
Import Paginate.

Variable parseInt : Value -> Value.
Variable parentTypeFromAncestors : GraphQLSchema -> list ASTNode -> GraphQLNamedType.

(** The walk over the selections of a selection set, when the walk of every
    one of them changes nothing. *)
Lemma visitAll_unchanged
    (visit : VisitState -> SelectionNode -> Result (SelectionNode * VisitState)) l :
  Forall (fun s => forall st, visit st s = Ok (s, st)) l ->
  forall st,
    (fix all (st : VisitState) (l : list SelectionNode)
       : Result (list SelectionNode * VisitState) :=
       match l with
       | [] => Ok ([], st)
       | s :: l' => r ← visit st s; r' ← all r.2 l'; Ok (r.1 :: r'.1, r'.2)
       end) st l = Ok (l, st).
Proof.
  induction 1 as [|s l Hs _ IH]; intros st; [reflexivity|].
  rewrite Hs. simpl. rewrite IH. reflexivity.
Qed.

Lemma visitSelection_unchanged config sel :
  mentions (paginateDirective config) sel = false ->
  forall ancestors st,
    visitSelection parseInt parentTypeFromAncestors config ancestors st sel
    = Ok (sel, st).
Proof.
  induction sel as [ alias name arguments directives
                   | alias name arguments directives selections IH
                   | name directives
                   | typeCondition directives selections IH ]
    using SelectionNode_nested_ind; intros Hfree ancestors st;
    simpl in Hfree |- *; try reflexivity.
  - apply orb_false_elim in Hfree as [Hdir Hsub]. rewrite Hdir.
    rewrite visitAll_unchanged; [reflexivity|].
    rewrite Forall_forall in IH. apply Forall_forall. intros s Hs st'.
    apply IH; [exact Hs|].
    destruct (mentions (paginateDirective config) s) eqn:Hm; [|reflexivity].
    rewrite <- Hsub. symmetry. apply existsb_exists. exists s.
    split; [apply list_elem_of_In; exact Hs | exact Hm].
  - apply orb_false_elim in Hfree as [_ Hsub].
    rewrite visitAll_unchanged; [reflexivity|].
    rewrite Forall_forall in IH. apply Forall_forall. intros s Hs st'.
    apply IH; [exact Hs|].
    destruct (mentions (paginateDirective config) s) eqn:Hm; [|reflexivity].
    rewrite <- Hsub. symmetry. apply existsb_exists. exists s.
    split; [apply list_elem_of_In; exact Hs | exact Hm].
Qed.

Lemma visitSelections_unchanged config ancestors l :
  existsb (mentions (paginateDirective config)) l = false ->
  forall st,
    visitSelections parseInt parentTypeFromAncestors config ancestors st l = Ok (l, st).
Proof.
  induction l as [|s l IH]; simpl; intros Hfree st; [reflexivity|].
  apply orb_false_elim in Hfree as [Hs Hl].
  rewrite (visitSelection_unchanged config s Hs). simpl.
  rewrite (IH Hl). reflexivity.
Qed.

Lemma visitDefinitions_unchanged config ds :
  forallb (fun d => negb (existsb (mentions (paginateDirective config))
                            (definitionSelections d))) ds = true ->
  forall st,
    visitDefinitions parseInt parentTypeFromAncestors config st ds = Ok (ds, st).
Proof.
  induction ds as [|d ds IH]; simpl; intros Hfree st; [reflexivity|].
  apply andb_prop in Hfree as [Hd Hds]. apply negb_true_iff in Hd.
  assert (Hdef : visitDefinition parseInt parentTypeFromAncestors config st d
                 = Ok (d, st)).
  { destruct d; simpl in Hd |- *;
      rewrite (visitSelections_unchanged config _ _ Hd); reflexivity. }
  rewrite Hdef. simpl. rewrite (IH Hds). reflexivity.
Qed.

(** X8.  A document none of whose fields carries the paginate directive goes
    through the transform unchanged, whatever its kind: nothing is thrown
    (a mutation is not rejected), and no refetch descriptor is recorded. *)
Theorem paginateDocument_without_directive config doc :
  fieldsFreeOf (paginateDirective config) doc = true ->
  paginateDocument parseInt parentTypeFromAncestors config doc = Ok doc.
Proof.
  intros Hfree. unfold paginateDocument, visitDocument.
  rewrite (visitDefinitions_unchanged config _ Hfree). simpl.
  destruct doc; reflexivity.
Qed.

(** The first visit keeps the definitions that are no query operations. *)
Lemma visitDefinitions_nonQuery config ds : forall st ds' st',
  visitDefinitions parseInt parentTypeFromAncestors config st ds = Ok (ds', st') ->
  existsb isNonQueryOperation ds' = existsb isNonQueryOperation ds.
Proof.
  induction ds as [|d ds IH]; simpl; intros st ds' st'.
  - intros [= <- _]. reflexivity.
  - destruct (visitDefinition _ _ _ _ d) as [[d1 st1]|e] eqn:Hd; [|discriminate].
    simpl. destruct (visitDefinitions _ _ _ _ ds) as [[ds1 st2]|e] eqn:Hds;
      [|discriminate].
    simpl. intros [= <- _]. simpl. rewrite (IH _ _ _ Hds). f_equal.
    destruct d; simpl in Hd;
      destruct (visitSelections _ _ _ _ _ _) as [r|e]; try discriminate;
      simpl in Hd; injection Hd as <- _; reflexivity.
Qed.

Lemma enterDefinitions_nonQuery config ds : forall info,
  existsb isNonQueryOperation ds = true ->
  enterDefinitions config info ds
  = Throw (Error ("@" +:+ paginateDirective config
                    +:+ " can only show up in a query or fragment document")).
Proof.
  induction ds as [|d ds IH]; simpl; intros info Hex; [discriminate|].
  destruct d as [[ | | ] name directives selections
                | name typeCondition directives selections];
    simpl in Hex |- *; try reflexivity; apply (IH _ Hex).
Qed.

(** X9.  A document in which a paginate-tagged field was found and that
    holds a mutation or a subscription is rejected: the transform throws
    the error that the directive can only show up in a query or fragment
    document, and records nothing. *)
Theorem paginateDocument_rejects_non_query config doc defs st :
  visitDocument parseInt parentTypeFromAncestors config doc = Ok (defs, st) ->
  paginated st = true ->
  existsb isNonQueryOperation (document doc) = true ->
  paginateDocument parseInt parentTypeFromAncestors config doc
  = Throw (Error ("@" +:+ paginateDirective config
                    +:+ " can only show up in a query or fragment document")).
Proof.
  intros Hvisit Hpag Hop. unfold paginateDocument. rewrite Hvisit. simpl.
  rewrite Hpag. unfold visitDocument in Hvisit.
  rewrite (enterDefinitions_nonQuery config defs initialInfo); [reflexivity|].
  rewrite (visitDefinitions_nonQuery _ _ _ _ _ Hvisit). exact Hop.
Qed.

End MorePaginateFacts.

Lemma paginateDocument_without_directive_witness :
  MoreProps.fieldsFreeOf (paginateDirective Examples.exampleConfig)
    MoreExamples.plainMutation = true
  /\ Paginate.paginateDocument Examples.decimal Examples.exampleParentType
       Examples.exampleConfig MoreExamples.plainMutation
     = Ok MoreExamples.plainMutation.
Proof.
  split; [reflexivity|].
  apply (paginateDocument_without_directive Examples.decimal
           Examples.exampleParentType Examples.exampleConfig
           MoreExamples.plainMutation).
  reflexivity.
Defined.

Lemma paginateDocument_rejects_non_query_witness :
  Paginate.paginateDocument Examples.decimal Examples.exampleParentType
    Examples.exampleConfig MoreExamples.paginatedMutation
  = Throw (Error "@paginate can only show up in a query or fragment document").
Proof.
  eapply (paginateDocument_rejects_non_query Examples.decimal
            Examples.exampleParentType Examples.exampleConfig
            MoreExamples.paginatedMutation);
    [vm_compute; reflexivity | reflexivity | reflexivity].
Defined.

(** ** replaceArgumentsWithVariables *)

Section MoreArgumentsFacts.

Import Props MoreProps.
Import Paginate.

Variable parseInt : Value -> Value.

(** Recording a default value changes the entry of that name only, and only
    its default value. *)
Lemma flag_setDefaultValue name v fl n :
  flag (setDefaultValue name v fl) n
  = if String.eqb n name then withDefault v <$> flag fl n else flag fl n.
Proof.
  unfold setDefaultValue.
  destruct (String.eqb_spec n name) as [->|Hne].
  - unfold flag.
    repeat match goal with
           | |- context [String.eqb name ?x] => destruct (String.eqb name x) eqn:?
           end; simpl; try reflexivity; congruence.
  - repeat match goal with
           | |- context [String.eqb name ?x] =>
               destruct (String.eqb_spec name x); [subst name|]
           end; unfold flag; simpl; try reflexivity;
      repeat match goal with
             | |- context [String.eqb n ?x] =>
                 destruct (String.eqb_spec n x); [subst n|]
             end; try reflexivity; congruence.
Qed.

Lemma flagEnabled_setDefaultValue name v fl n :
  flagEnabled (setDefaultValue name v fl) n = flagEnabled fl n.
Proof.
  unfold flagEnabled. rewrite flag_setDefaultValue.
  destruct (String.eqb n name); [|reflexivity].
  destruct (flag fl n); reflexivity.
Qed.

(** The map over the call-site arguments: what it returns, which names it
    has seen, and what it leaves of the flags. *)
Lemma fold_replaceArgument_spec args : forall acc fl seen,
  let r := fold_left (replaceArgument parseInt) args (acc, fl, seen) in
  r.1.1 = acc ++ map (replaced fl) args
  /\ (forall n, flagEnabled r.1.2 n = flagEnabled fl n)
  /\ (forall n, n ∈ r.2 ->
                n ∈ seen \/ (n ∈ map arg_name args /\ flagEnabled fl n = true))
  /\ (forall n, n ∈ map arg_name args -> flagEnabled fl n = true -> n ∈ r.2)
  /\ (forall n, n ∈ seen -> n ∈ r.2)
  /\ (forall n, n ∉ r.2 -> flag r.1.2 n = flag fl n).
Proof.
  induction args as [|arg args IH]; intros acc fl seen.
  - simpl. repeat split; auto.
    + symmetry. apply app_nil_r.
    + intros n Hn. inversion Hn.
  - cbn [fold_left map]. cbv zeta.
    set (step := replaceArgument parseInt (acc, fl, seen) arg).
    assert (Hstep :
      step.1.1 = acc ++ [replaced fl arg]
      /\ (forall n, flagEnabled step.1.2 n = flagEnabled fl n)
      /\ (forall n, n ∈ step.2 ->
                    n ∈ seen \/ (n = arg_name arg /\ flagEnabled fl n = true))
      /\ (flagEnabled fl (arg_name arg) = true -> arg_name arg ∈ step.2)
      /\ (forall n, n ∈ seen -> n ∈ step.2)
      /\ (forall n, n ∉ step.2 -> flag step.1.2 n = flag fl n)).
    { subst step. unfold replaceArgument, replaced, flagEnabled.
      destruct (flag fl (arg_name arg)) as [spec|] eqn:Hflag; simpl;
        [|repeat split; auto; discriminate].
      destruct (enabled spec) eqn:Hen; simpl; [|repeat split; auto; discriminate].
      repeat split.
      - intros n. destruct (isVariable (arg_value arg)); simpl; [reflexivity|].
        apply flagEnabled_setDefaultValue.
      - intros n Hn. apply elem_of_cons in Hn as [->|Hn]; [right|left; exact Hn].
        split; [reflexivity|]. rewrite Hflag. exact Hen.
      - intros _. left.
      - intros n Hn. right. exact Hn.
      - intros n Hn. destruct (isVariable (arg_value arg)); simpl; [reflexivity|].
        rewrite flag_setDefaultValue.
        destruct (String.eqb_spec n (arg_name arg)) as [->|Hne]; [|reflexivity].
        exfalso. apply Hn. left. }
    destruct step as [[acc' fl'] seen']. simpl in Hstep.
    destruct Hstep as (Hacc & Hen & Hseen & Hin & Hmono & Hflag).
    specialize (IH acc' fl' seen'). cbv zeta in IH.
    destruct IH as (IHacc & IHen & IHseen & IHin & IHmono & IHflag).
    repeat split.
    + rewrite IHacc, Hacc, <- app_assoc. simpl. f_equal. f_equal.
      apply map_ext. intros a. unfold replaced. rewrite Hen. reflexivity.
    + intros n. rewrite IHen. apply Hen.
    + intros n Hn. destruct (IHseen n Hn) as [Hn'|[Hn' Hen']].
      * destruct (Hseen n Hn') as [Hs|[-> He]]; [left; exact Hs|].
        right. split; [left | exact He].
      * right. split; [right; exact Hn' | rewrite <- Hen; exact Hen'].
    + intros n Hn He. apply elem_of_cons in Hn as [->|Hn].
      * apply IHmono. apply Hin. exact He.
      * apply IHin; [exact Hn | rewrite Hen; exact He].
    + intros n Hn. apply IHmono. apply Hmono. exact Hn.
    + intros n Hn. rewrite (IHflag n Hn). apply Hflag.
      intros Hn'. apply Hn. apply IHmono. exact Hn'.
Qed.

(** The loop over the flag names only appends, and only variable references
    of enabled flags that the map has not seen. *)
Lemma fold_addMissingArgument_spec fl seen names : forall acc,
  exists extra,
    fold_left (addMissingArgument fl seen) names acc = acc ++ extra
    /\ Forall (fun a => a = variableAsArgument (arg_name a)
                        /\ flagEnabled fl (arg_name a) = true
                        /\ arg_name a ∉ seen) extra.
Proof.
  induction names as [|name names IH]; intros acc; simpl.
  - exists []. split; [symmetry; apply app_nil_r | constructor].
  - assert (Hstep : addMissingArgument fl seen acc name = acc
                    \/ (addMissingArgument fl seen acc name
                        = acc ++ [variableAsArgument name]
                        /\ flagEnabled fl name = true /\ name ∉ seen)).
    { unfold addMissingArgument, flagEnabled.
      destruct (flag fl name) as [spec|]; [|left; reflexivity].
      destruct (truthy (defaultValue spec)); simpl; [left; reflexivity|].
      destruct (enabled spec); simpl; [|left; reflexivity].
      destruct (has seen name) eqn:Hseen; simpl; [left; reflexivity|].
      apply has_false in Hseen.
      destruct (has ["first"; "after"] name && enabled (before fl));
        [left; reflexivity|].
      destruct (has ["last"; "before"] name && enabled (first fl));
        [left; reflexivity|].
      right. repeat split; assumption. }
    destruct Hstep as [->|(-> & Hen & Hseen)].
    + apply IH.
    + destruct (IH (acc ++ [variableAsArgument name])) as (extra & -> & Hall).
      exists (variableAsArgument name :: extra).
      split; [rewrite <- app_assoc; reflexivity|].
      constructor; [|exact Hall]. simpl. repeat split; assumption.
Qed.

(** X10.  [replaceArgumentsWithVariables] keeps the call-site arguments in
    their order, each one untouched unless its name is an enabled flag, in
    which case it becomes a reference to the variable of that name; whatever
    follows them is a reference to the variable of an enabled flag the call
    site did not pass. *)
Theorem replaceArgumentsWithVariables_arguments args flags :
  exists extra,
    (replaceArgumentsWithVariables parseInt args flags).1
    = map (replaced flags) args ++ extra
    /\ Forall (fun a => a = variableAsArgument (arg_name a)
                        /\ flagEnabled flags (arg_name a) = true
                        /\ arg_name a ∉ map arg_name args) extra.
Proof.
  unfold replaceArgumentsWithVariables.
  pose proof (fold_replaceArgument_spec args [] flags []) as Hfold.
  simpl in Hfold.
  destruct (fold_left (replaceArgument parseInt) args ([], flags, []))
    as [[newArgs fl'] seen].
  simpl in Hfold. destruct Hfold as (Hargs & Hen & _ & Hin & _ & _).
  destruct (fold_addMissingArgument_spec fl' seen flagNames newArgs)
    as (extra & Hextra & Hall).
  exists extra. cbn [fst]. rewrite Hextra, Hargs. split; [reflexivity|].
  eapply Forall_impl; [exact Hall|]. simpl.
  intros a (Hvar & Hena & Hseen). rewrite Hen in Hena.
  repeat split; try assumption.
  intros Hpassed. apply Hseen. apply Hin; assumption.
Qed.

Lemma addMissingArgument_skip fl seen acc name spec :
  flag fl name = Some spec ->
  enabled spec = false
  \/ has ["first"; "after"] name && enabled (before fl) = true
  \/ has ["last"; "before"] name && enabled (first fl) = true ->
  addMissingArgument fl seen acc name = acc.
Proof.
  intros Hflag Hskip. unfold addMissingArgument. rewrite Hflag.
  destruct (truthy (defaultValue spec)); simpl; [reflexivity|].
  destruct (enabled spec); simpl; [|reflexivity].
  destruct (has seen name); simpl; [reflexivity|].
  destruct Hskip as [H|[->| ->]]; [discriminate|reflexivity|].
  destruct (has ["first"; "after"] name && enabled (before fl)); reflexivity.
Qed.

(** X11.  On a field whose schema definition declares [first], [after],
    [last] and [before], called with neither [first] nor [last] (so that
    both directions are enabled), no pagination argument is injected: the
    rewritten arguments are the call-site arguments, one for one. *)
Theorem both_directions_inject_nothing declared args flags0 :
  "first" ∈ declared -> "after" ∈ declared ->
  "last" ∈ declared -> "before" ∈ declared ->
  "first" ∉ map arg_name args -> "last" ∉ map arg_name args ->
  let flags := updateFlags declared (map arg_name args) flags0 in
  (replaceArgumentsWithVariables parseInt args flags).1 = map (replaced flags) args.
Proof.
  intros Hf Ha Hl Hb Hpf Hpl flags.
  apply has_true in Hf, Ha, Hl, Hb. apply has_false in Hpf, Hpl.
  assert (Hbits : enabledBits flags = [true; true; true; true; false; false]).
  { subst flags. unfold updateFlags, enabledBits. simpl.
    rewrite Hf, Ha, Hl, Hb, Hpf, Hpl. reflexivity. }
  unfold replaceArgumentsWithVariables.
  pose proof (fold_replaceArgument_spec args [] flags []) as Hfold.
  pose proof (fold_replaceArgument_enabledBits parseInt args ([], flags, [])) as Hbits'.
  destruct (fold_left (replaceArgument parseInt) args ([], flags, []))
    as [[newArgs fl'] seen].
  cbv zeta in Hfold. simpl in Hfold, Hbits'. destruct Hfold as (Hargs & _).
  rewrite Hbits in Hbits'. unfold enabledBits in Hbits'. simpl in Hbits'.
  injection Hbits' as H1 H2 H3 H4 H5 H6.
  cbn [fst]. rewrite <- Hargs. unfold flagNames. cbn [fold_left].
  rewrite (addMissingArgument_skip fl' seen newArgs "first" (first fl') eq_refl)
    by (right; left; rewrite H4; reflexivity).
  rewrite (addMissingArgument_skip fl' seen newArgs "after" (after fl') eq_refl)
    by (right; left; rewrite H4; reflexivity).
  rewrite (addMissingArgument_skip fl' seen newArgs "last" (last fl') eq_refl)
    by (right; right; rewrite H1; reflexivity).
  rewrite (addMissingArgument_skip fl' seen newArgs "before" (before fl') eq_refl)
    by (right; right; rewrite H1; reflexivity).
  rewrite (addMissingArgument_skip fl' seen newArgs "limit" (limit fl') eq_refl)
    by (left; exact H5).
  rewrite (addMissingArgument_skip fl' seen newArgs "offset" (offset fl') eq_refl)
    by (left; exact H6).
  reflexivity.
Qed.

Lemma flag_Some_flagNames fl n spec : flag fl n = Some spec -> n ∈ flagNames.
Proof.
  unfold flag, flagNames.
  repeat match goal with
         | |- context [String.eqb n ?x] =>
             destruct (String.eqb_spec n x); [subst n; intros _; set_solver|]
         end.
  discriminate.
Qed.

Lemma fold_addMissingArgument_keeps fl seen names a : forall acc,
  In a acc -> In a (fold_left (addMissingArgument fl seen) names acc).
Proof.
  intros acc Hin.
  destruct (fold_addMissingArgument_spec fl seen names acc) as (extra & -> & _).
  apply in_or_app. left. exact Hin.
Qed.

Lemma fold_addMissingArgument_adds fl seen names name spec :
  name ∈ names ->
  flag fl name = Some spec ->
  truthy (defaultValue spec) = false -> enabled spec = true -> name ∉ seen ->
  has ["first"; "after"] name && enabled (before fl) = false ->
  has ["last"; "before"] name && enabled (first fl) = false ->
  forall acc,
    In (variableAsArgument name) (fold_left (addMissingArgument fl seen) names acc).
Proof.
  intros Hin Hflag Hdef Hen Hseen Hg1 Hg2.
  induction names as [|n names IH]; intros acc; [inversion Hin|].
  simpl. apply elem_of_cons in Hin as [<-|Hin]; [|apply (IH Hin)].
  apply fold_addMissingArgument_keeps.
  unfold addMissingArgument. rewrite Hflag, Hdef, Hen. simpl.
  apply has_false in Hseen. rewrite Hseen, Hg1, Hg2.
  apply in_or_app. right. left. reflexivity.
Qed.

(** X12.  When forward and backward pagination are not both enabled and no
    default value is left from an earlier field, every enabled flag ends up
    on the field as a reference to the variable of its name, whether the
    call site passed the argument or not. *)
Theorem every_enabled_flag_becomes_variable args flags name :
  (forall n spec, flag flags n = Some spec -> truthy (defaultValue spec) = false) ->
  forwardEnabled flags && backwardEnabled flags = false ->
  flagEnabled flags name = true ->
  In (variableAsArgument name) (replaceArgumentsWithVariables parseInt args flags).1.
Proof.
  intros Hdefaults Hone Hname.
  unfold replaceArgumentsWithVariables.
  pose proof (fold_replaceArgument_spec args [] flags []) as Hfold.
  destruct (fold_left (replaceArgument parseInt) args ([], flags, []))
    as [[newArgs fl'] seen].
  cbv zeta in Hfold. simpl in Hfold.
  destruct Hfold as (Hargs & Hen & Hseen & _ & _ & Hflag).
  cbn [fst].
  destruct (decide (name ∈ seen)) as [Hin|Hout].
  - apply fold_addMissingArgument_keeps.
    destruct (Hseen name Hin) as [Hnil|[Hpassed _]]; [inversion Hnil|].
    rewrite Hargs. apply list_elem_of_In in Hpassed.
    apply in_map_iff in Hpassed as (arg & <- & Harg).
    apply in_map_iff. exists arg. split; [|exact Harg].
    unfold replaced. rewrite Hname. reflexivity.
  - unfold flagEnabled in Hname.
    destruct (flag flags name) as [spec|] eqn:Hspec; [|discriminate].
    assert (Hbefore : enabled (before fl') = flagEnabled flags "before")
      by (rewrite <- Hen; reflexivity).
    assert (Hfirst : enabled (first fl') = flagEnabled flags "first")
      by (rewrite <- Hen; reflexivity).
    apply (fold_addMissingArgument_adds fl' seen flagNames name spec).
    + apply (flag_Some_flagNames flags name spec Hspec).
    + rewrite (Hflag name Hout). exact Hspec.
    + apply (Hdefaults name spec Hspec).
    + exact Hname.
    + exact Hout.
    + rewrite Hbefore. unfold has.
      destruct (bool_decide (name ∈ ["first"; "after"])) eqn:Hfw; [|reflexivity].
      apply bool_decide_eq_true in Hfw. simpl.
      unfold forwardEnabled, backwardEnabled, flagEnabled in Hone |- *. simpl.
      assert (Hforward : enabled (first flags) || enabled (after flags) = true).
      { apply elem_of_cons in Hfw as [->|Hfw]; simpl in Hspec.
        - injection Hspec as <-. rewrite Hname. reflexivity.
        - apply list_elem_of_singleton in Hfw as ->. simpl in Hspec.
          injection Hspec as <-. rewrite Hname. apply orb_true_r. }
      rewrite Hforward in Hone. simpl in Hone.
      apply orb_false_elim in Hone as [_ Hone]. exact Hone.
    + rewrite Hfirst. unfold has.
      destruct (bool_decide (name ∈ ["last"; "before"])) eqn:Hbw; [|reflexivity].
      apply bool_decide_eq_true in Hbw. simpl.
      unfold forwardEnabled, backwardEnabled, flagEnabled in Hone |- *. simpl.
      assert (Hbackward : enabled (last flags) || enabled (before flags) = true).
      { apply elem_of_cons in Hbw as [->|Hbw]; simpl in Hspec.
        - injection Hspec as <-. rewrite Hname. reflexivity.
        - apply list_elem_of_singleton in Hbw as ->. simpl in Hspec.
          injection Hspec as <-. rewrite Hname. apply orb_true_r. }
      rewrite Hbackward, andb_true_r in Hone.
      apply orb_false_elim in Hone as [Hone _]. exact Hone.
Qed.

End MoreArgumentsFacts.

Lemma both_directions_inject_nothing_witness :
  (Paginate.replaceArgumentsWithVariables Examples.decimal
     [mkArgument "after" (StringValueNode "abc")]
     (Paginate.updateFlags ["first"; "after"; "last"; "before"] ["after"]
        Paginate.initialFlags)).1
  = [Paginate.variableAsArgument "after"].
Proof.
  apply (both_directions_inject_nothing Examples.decimal
           ["first"; "after"; "last"; "before"]
           [mkArgument "after" (StringValueNode "abc")] Paginate.initialFlags);
    apply (bool_decide_unpack _); vm_compute; exact I.
Defined.

Lemma every_enabled_flag_becomes_variable_witness :
  In (Paginate.variableAsArgument "after")
    (Paginate.replaceArgumentsWithVariables Examples.decimal
       [mkArgument "first" (IntValueNode "10")]
       (Paginate.updateFlags ["first"; "after"; "last"; "before"] ["first"]
          Paginate.initialFlags)).1.
Proof.
  apply (every_enabled_flag_becomes_variable Examples.decimal
           [mkArgument "first" (IntValueNode "10")]
           (Paginate.updateFlags ["first"; "after"; "last"; "before"] ["first"]
              Paginate.initialFlags) "after").
  - intros n spec. unfold Paginate.flag.
    repeat match goal with
           | |- context [String.eqb n ?x] => destruct (String.eqb n x)
           end;
      intros H; try discriminate H; injection H as <-; reflexivity.
  - reflexivity.
  - reflexivity.
Defined.

(** ** The second visit of the paginate transform *)

Section MoreHoistFacts.

Import Paginate Hoist.

Lemma assoc_set_fresh {A} k (v : A) o :
  k ∉ map fst o -> assoc_set k v o = o ++ [(k, v)].
Proof.
  induction o as [|[k' v'] o IH]; simpl; intros Hk; [reflexivity|].
  apply not_elem_of_cons in Hk as [Hne Hk].
  destruct (String.eqb_spec k k') as [->|_]; [contradiction|].
  rewrite (IH Hk). reflexivity.
Qed.

Lemma fold_assoc_set {A B} (key : B -> string) (val : B -> A) l : forall acc,
  NoDup (map key l) ->
  (forall x, x ∈ l -> key x ∉ map fst acc) ->
  fold_left (fun o x => assoc_set (key x) (val x) o) l acc
  = acc ++ map (fun x => (key x, val x)) l.
Proof.
  induction l as [|x l IH]; intros acc Hnodup Hfresh; simpl.
  - symmetry. apply app_nil_r.
  - simpl in Hnodup. apply NoDup_cons in Hnodup as [Hx Hnodup].
    rewrite (assoc_set_fresh (key x) (val x) acc) by (apply Hfresh; left).
    rewrite (IH _ Hnodup).
    + rewrite <- app_assoc. reflexivity.
    + intros y Hy. rewrite map_app. apply not_elem_of_app. split.
      * apply Hfresh. right. exact Hy.
      * simpl. intros Hin. apply list_elem_of_singleton in Hin.
        apply Hx. rewrite <- Hin. apply list_elem_of_In, in_map, list_elem_of_In, Hy.
Qed.

Lemma assoc_get_fresh {A} k (o : list (string * A)) :
  k ∉ map fst o -> assoc_get k o = None.
Proof.
  induction o as [|[k' v'] o IH]; simpl; intros Hk; [reflexivity|].
  apply not_elem_of_cons in Hk as [Hne Hk].
  destruct (String.eqb_spec k k') as [->|_]; [contradiction|]. apply (IH Hk).
Qed.

Lemma assoc_get_app {A} k (o1 o2 : list (string * A)) :
  assoc_get k (o1 ++ o2)
  = match assoc_get k o1 with Some v => Some v | None => assoc_get k o2 end.
Proof.
  induction o1 as [|[k' v'] o1 IH]; simpl; [reflexivity|].
  destruct (String.eqb k k'); [reflexivity | exact IH].
Qed.

(** Looking up, in a table with distinct keys, the keys of a part of it. *)
Lemma omap_assoc_get {A} (f : string -> option A) (o : list (string * A)) :
  (forall k v, (k, v) ∈ o -> f k = Some v) ->
  omap f (map fst o) = map snd o.
Proof.
  induction o as [|[k v] o IH]; intros Hf; simpl; [reflexivity|].
  rewrite (Hf k v) by left. f_equal. apply IH.
  intros k' v' Hin. apply Hf. right. exact Hin.
Qed.

Lemma assoc_get_NoDup {A} k (v : A) o :
  NoDup (map fst o) -> (k, v) ∈ o -> assoc_get k o = Some v.
Proof.
  induction o as [|[k' v'] o IH]; simpl; intros Hnodup Hin; [inversion Hin|].
  apply NoDup_cons in Hnodup as [Hk' Hnodup].
  apply elem_of_cons in Hin as [[= <- <-]|Hin].
  - rewrite String.eqb_refl. reflexivity.
  - destruct (String.eqb_spec k k') as [->|_]; [|apply (IH Hnodup Hin)].
    exfalso. apply Hk'. apply list_elem_of_In, in_map_iff.
    exists (k', v). split; [reflexivity | apply list_elem_of_In, Hin].
Qed.

Lemma filter_agree {A} (P Q : A -> Prop) `{!forall x, Decision (P x)}
    `{!forall x, Decision (Q x)} (l : list A) :
  (forall x, x ∈ l -> P x <-> Q x) -> filter P l = filter Q l.
Proof.
  induction l as [|x l IH]; intros Hagree; [reflexivity|].
  assert (Hrest : filter P l = filter Q l).
  { apply IH. intros y Hy. apply Hagree. right. exact Hy. }
  destruct (decide (P x)) as [HP|HP].
  - rewrite (filter_cons_True P x l HP).
    rewrite (filter_cons_True Q x l) by (apply Hagree; [left | exact HP]).
    rewrite Hrest. reflexivity.
  - rewrite (filter_cons_False P x l HP).
    rewrite (filter_cons_False Q x l)
      by (intros HQ; apply HP, Hagree; [left | exact HQ]).
    exact Hrest.
Qed.

(** [[...new Set(names)]] on names that are already distinct, after the
    names seen so far. *)
Lemma dedup_fold_NoDup (l : list string) : forall acc,
  NoDup l ->
  fold_left (fun seen name => if bool_decide (name ∈ seen) then seen else seen ++ [name])
    l acc
  = acc ++ filter (fun name => name ∉ acc) l.
Proof.
  induction l as [|x l IH]; intros acc Hnodup; simpl.
  - symmetry. apply app_nil_r.
  - apply NoDup_cons in Hnodup as [Hx Hnodup].
    destruct (bool_decide_reflect (x ∈ acc)) as [Hin|Hout].
    + rewrite (IH _ Hnodup). rewrite filter_cons_False by (intros H; exact (H Hin)).
      reflexivity.
    + rewrite (IH _ Hnodup). rewrite filter_cons_True by exact Hout.
      rewrite <- app_assoc. simpl. do 2 f_equal.
      apply filter_agree. intros y Hyl. split.
      * intros Hy. apply not_elem_of_app in Hy as [Hy _]. exact Hy.
      * intros Hy. apply not_elem_of_app. split; [exact Hy|].
        intros Hin. apply list_elem_of_singleton in Hin. subst y. contradiction.
Qed.

Lemma filter_all {A} (P : A -> Prop) `{!forall x, Decision (P x)} (l : list A) :
  (forall x, x ∈ l -> P x) -> filter P l = l.
Proof.
  induction l as [|x l IH]; intros HP; [reflexivity|].
  rewrite filter_cons_True by (apply HP; left).
  f_equal. apply IH. intros y Hy. apply HP. right. exact Hy.
Qed.

Lemma dedup_app_NoDup (l1 l2 : list string) :
  NoDup l1 -> NoDup l2 ->
  dedup (l1 ++ l2) = l1 ++ filter (fun name => name ∉ l1) l2.
Proof.
  intros H1 H2. unfold dedup. rewrite fold_left_app.
  rewrite (dedup_fold_NoDup l1 [] H1). simpl.
  rewrite filter_all by (intros x _ Hin; inversion Hin).
  apply (dedup_fold_NoDup l2 l1 H2).
Qed.

Lemma flagEntries_keys fl :
  map fst (flagEntries fl) = flagNames.
Proof. reflexivity. Qed.

Lemma map_fst_filter {A} (P : string * A -> Prop) `{!forall x, Decision (P x)}
    (o : list (string * A)) :
  NoDup (map fst o) -> NoDup (map fst (filter P o)).
Proof.
  induction o as [|[k v] o IH]; simpl; intros Hnodup; [constructor|].
  apply NoDup_cons in Hnodup as [Hk Hnodup].
  destruct (decide (P (k, v))) as [HP|HP].
  - rewrite filter_cons_True by exact HP. simpl. apply NoDup_cons. split.
    + intros Hin. apply Hk. apply list_elem_of_In, in_map_iff in Hin as ([k' v'] & Hfst & Hin).
      simpl in Hfst. subst k'. apply list_elem_of_In, list_elem_of_filter in Hin as [_ Hin].
      apply list_elem_of_In, in_map_iff. exists (k, v').
      split; [reflexivity | apply list_elem_of_In, Hin].
    + apply (IH Hnodup).
  - rewrite filter_cons_False by exact HP. apply (IH Hnodup).
Qed.

(** The table of the new variables: one entry for each enabled flag, in the
    order of the flags. *)
Lemma newVariables_entries fl :
  newVariables fl
  = map (fun entry =>
           (entry.1, staticVariableDefinition entry.1 (type entry.2) (defaultValue entry.2)))
      (enabledEntries fl)
  /\ NoDup (map fst (newVariables fl)).
Proof.
  assert (Hkeys : NoDup (map fst (enabledEntries fl))).
  { apply map_fst_filter. rewrite flagEntries_keys.
    apply (bool_decide_unpack _). vm_compute. exact I. }
  assert (Heq : newVariables fl
    = map (fun entry =>
             (entry.1, staticVariableDefinition entry.1 (type entry.2) (defaultValue entry.2)))
        (enabledEntries fl)).
  { unfold newVariables, fromEntries.
    rewrite (fold_assoc_set fst snd).
    - simpl. rewrite map_map. apply map_ext. intros [k v]. reflexivity.
    - rewrite map_map. simpl. exact Hkeys.
    - intros x _ Hin. inversion Hin. }
  split; [exact Heq|]. rewrite Heq, map_map. simpl. exact Hkeys.
Qed.

Lemma omap_filter_lookup {A B} (f : string -> option B) (keep : string -> Prop)
    `{!forall k, Decision (keep k)} (key : A -> string) (val : A -> B) (part : list A) :
  (forall x, x ∈ part -> keep (key x) -> f (key x) = Some (val x)) ->
  omap f (filter keep (map key part))
  = map val (filter (fun x => keep (key x)) part).
Proof.
  induction part as [|x part IH]; intros Hf; [reflexivity|].
  assert (Hrest : omap f (filter keep (map key part))
                  = map val (filter (fun x => keep (key x)) part)).
  { apply IH. intros y Hy. apply Hf. right. exact Hy. }
  cbn [map]. destruct (decide (keep (key x))) as [Hk|Hk].
  - rewrite (filter_cons_True keep) by exact Hk.
    rewrite (filter_cons_True (fun x => keep (key x))) by exact Hk.
    cbn [map omap list_omap]. rewrite (Hf x) by (left || exact Hk).
    fold (omap f (filter keep (map key part))). rewrite Hrest. reflexivity.
  - rewrite (filter_cons_False keep) by exact Hk.
    rewrite (filter_cons_False (fun x => keep (key x))) by exact Hk.
    exact Hrest.
Qed.

Lemma filter_map {A B} (P : B -> Prop) `{!forall y, Decision (P y)} (g : A -> B)
    (l : list A) :
  filter P (map g l) = map g (filter (fun x => P (g x)) l).
Proof.
  induction l as [|x l IH]; [reflexivity|]. cbn [map].
  destruct (decide (P (g x))) as [HP|HP].
  - rewrite (filter_cons_True P) by exact HP.
    rewrite (filter_cons_True (fun x => P (g x))) by exact HP.
    cbn [map]. rewrite IH. reflexivity.
  - rewrite (filter_cons_False P) by exact HP.
    rewrite (filter_cons_False (fun x => P (g x))) by exact HP.
    exact IH.
Qed.

(** The variable definitions of the query after the second visit. *)
Lemma finalVariables_spec variableDefinitions flags :
  NoDup (map variable variableDefinitions) ->
  finalVariables variableDefinitions flags
  = variableDefinitions
    ++ filter (fun definition => variable definition ∉ map variable variableDefinitions)
         (map (fun entry =>
                 staticVariableDefinition entry.1 (type entry.2) (defaultValue entry.2))
            (enabledEntries flags)).
Proof.
  intros Hnodup.
  assert (Hown : operationVariables variableDefinitions
                 = map (fun d => (variable d, d)) variableDefinitions).
  { unfold operationVariables.
    rewrite (fold_assoc_set variable (fun d => d) variableDefinitions [] Hnodup);
      [reflexivity|].
    intros x _ Hin. inversion Hin. }
  assert (Hkeys : map fst (operationVariables variableDefinitions)
                  = map variable variableDefinitions).
  { rewrite Hown, map_map. reflexivity. }
  destruct (newVariables_entries flags) as [Hnew Hnewkeys].
  unfold finalVariables. cbv zeta.
  rewrite dedup_app_NoDup by (rewrite ?Hkeys; assumption).
  rewrite omap_app. f_equal.
  - rewrite (omap_assoc_get _ (operationVariables variableDefinitions)).
    + rewrite Hown, map_map. simpl. apply map_id.
    + intros k v Hin.
      rewrite (assoc_get_NoDup k v _ ltac:(rewrite Hkeys; exact Hnodup) Hin).
      reflexivity.
  - rewrite Hkeys, Hnew, map_map. cbn [fst].
    rewrite (omap_filter_lookup _ _ fst
               (fun entry => staticVariableDefinition entry.1 (type entry.2)
                               (defaultValue entry.2))).
    + rewrite filter_map. reflexivity.
    + intros entry Hin Hfresh.
      rewrite assoc_get_fresh by (rewrite Hown, map_map; exact Hfresh).
      rewrite <- Hnew. apply assoc_get_NoDup; [exact Hnewkeys|].
      rewrite Hnew. apply list_elem_of_In, in_map_iff.
      exists entry. split; [reflexivity | apply list_elem_of_In, Hin].
Qed.

(** X13.  On a query whose variable definitions have pairwise distinct
    names, the second visit keeps the definitions of the query, in their
    order, and adds after them one definition for each enabled flag the
    query does not already define a variable for: a definition of the query
    is never replaced by the one of a flag. *)
Theorem finalVariables_keeps_own_definitions variableDefinitions flags :
  NoDup (map variable variableDefinitions) ->
  finalVariables variableDefinitions flags
  = variableDefinitions
    ++ filter (fun definition => variable definition ∉ map variable variableDefinitions)
         (map (fun entry =>
                 staticVariableDefinition entry.1 (type entry.2) (defaultValue entry.2))
            (enabledEntries flags)).
Proof. apply finalVariables_spec. Qed.






End MoreHoistFacts.

Lemma finalVariables_keeps_own_definitions_witness :
  Hoist.finalVariables
    [Hoist.mkVariableDefinition "first" (NonNullType (NamedType "Int")) None]
    (Paginate.updateFlags ["first"; "after"; "last"; "before"] ["first"]
       Paginate.initialFlags)
  = [Hoist.mkVariableDefinition "first" (NonNullType (NamedType "Int")) None;
     Hoist.mkVariableDefinition "after" (NamedType "String") None].
Proof.
  etransitivity.
  - apply (finalVariables_keeps_own_definitions
             [Hoist.mkVariableDefinition "first" (NonNullType (NamedType "Int")) None]).
    apply (bool_decide_unpack _). vm_compute. exact I.
  - vm_compute. reflexivity.
Defined.

(** ** The list transform: classification, registration, generated fragments *)

Section MoreListsFacts.

Import Props MoreProps.
Import Lists Generate.

Variable unwrapType : Config -> GraphQLType -> UnwrappedType.
Variable parentTypeFromAncestors : GraphQLSchema -> list ASTNode -> GraphQLNamedType.

(** X15.  What [connectionSelection] returns when it returns: either it
    reports no connection and hands back the selection and the type it was
    given, or it reports a connection and the selection is the selection set
    of the first [node] field under the first [edges] field of the selection
    it was given. *)
Theorem connectionSelection_result config field type sel c :
  connectionSelection unwrapType config field type sel = Ok c ->
  if connection c then
    exists selections edgesField nodeSelection nodeSelectionSet,
      sel = Some selections
      /\ List.find (isFieldNamed "edges") selections = Some edgesField
      /\ selectionSetOf edgesField ≫= List.find (isFieldNamed "node") = Some nodeSelection
      /\ selectionSetOf nodeSelection = Some nodeSelectionSet
      /\ selection c = Some nodeSelectionSet
  else selection c = sel /\ Lists.type c = type.
Proof.
  unfold connectionSelection. destruct field as [f|]; [|discriminate].
  destruct (negb _ && negb _); [intros [= <-]; simpl; split; reflexivity|].
  destruct sel as [selections|]; simpl; [|intros [= <-]; simpl; split; reflexivity].
  destruct (List.find (isFieldNamed "edges") selections) as [edgesField|] eqn:Hedges;
    [|intros [= <-]; simpl; split; reflexivity].
  destruct (selectionSetOf edgesField ≫= List.find (isFieldNamed "node"))
    as [nodeSelection|] eqn:Hnode; [|discriminate].
  destruct (selectionSetOf nodeSelection) as [nodeSelectionSet|] eqn:Hset;
    [|intros [= <-]; simpl; split; reflexivity].
  destruct (getFields _) as [fs|]; [|discriminate].
  destruct (field_lookup "edges" fs) as [edgeField|]; [|discriminate].
  destruct (negb _); [intros [= <-]; simpl; split; reflexivity|].
  destruct (getFields _) as [edgeFields|]; [|discriminate].
  destruct (field_lookup "node" edgeFields) as [nodeField|];
    [|intros [= <-]; simpl; split; reflexivity].
  intros [= <-]. simpl. exists selections, edgesField, nodeSelection, nodeSelectionSet.
  repeat split; assumption || reflexivity.
Qed.

Lemma find_app_Some {A} (p : A -> bool) l extra x :
  List.find p l = Some x -> List.find p (l ++ extra) = Some x.
Proof.
  induction l as [|y l IH]; simpl; [discriminate|].
  destruct (p y); [intros H; exact H | exact IH].
Qed.

(** The classification of a connection does not depend on the type it is
    given, nor on selections appended to the ones it was found in. *)
Lemma connectionSelection_app config field type selections c :
  connectionSelection unwrapType config field type (Some selections) = Ok c ->
  connection c = true ->
  forall type' extra,
    connectionSelection unwrapType config field type' (Some (selections ++ extra)) = Ok c.
Proof.
  intros Hrun Hc type' extra. revert Hrun.
  unfold connectionSelection. destruct field as [f|]; [|discriminate].
  destruct (negb _ && negb _); [intros [= <-]; discriminate|].
  simpl.
  destruct (List.find (isFieldNamed "edges") selections) as [edgesField|] eqn:Hedges;
    [|intros [= <-]; discriminate].
  rewrite (find_app_Some _ _ extra _ Hedges).
  destruct (selectionSetOf edgesField ≫= List.find (isFieldNamed "node"))
    as [nodeSelection|]; [|discriminate].
  destruct (selectionSetOf nodeSelection) as [nodeSelectionSet|];
    [|intros [= <-]; discriminate].
  destruct (getFields _) as [fs|]; [|discriminate].
  destruct (field_lookup "edges" fs) as [edgeField|]; [|discriminate].
  destruct (negb _); [intros [= <-]; discriminate|].
  destruct (getFields _) as [edgeFields|]; [|discriminate].
  destruct (field_lookup "node" edgeFields) as [nodeField|];
    [|intros [= <-]; discriminate].
  intros H. exact H.
Qed.

(** X16.  When the [Field] visitor replaces a field, the field was
    classified as a connection and the new node is the field with the
    page-info selections after its own; the new node is classified as the
    same connection, whatever type the classification is given, so the
    [Directive] visitor that runs next on the directives of the new node
    registers the selection of the nodes of the field as it was written. *)
Theorem field_visitor_keeps_classification config ancestors node node' :
  enterListField unwrapType parentTypeFromAncestors config ancestors node
    = Ok (Some node') ->
  exists alias name arguments directives selections parentFields c,
    node = FieldNode alias name arguments directives (Some selections)
    /\ node' = FieldNode alias name arguments directives
                 (Some (selections ++ Paginate.pageInfoSelection))
    /\ getFields (parentTypeFromAncestors (schema config) ancestors) = Some parentFields
    /\ connection c = true
    /\ connectionSelection unwrapType config (field_lookup name parentFields)
         (parentTypeFromAncestors (schema config) ancestors) (selectionSetOf node)
       = Ok c
    /\ forall type,
         connectionSelection unwrapType config (field_lookup name parentFields)
           type (selectionSetOf node')
         = Ok c.
Proof.
  unfold enterListField.
  destruct node as [alias name arguments directives selectionSet| |]; try discriminate.
  destruct (negb _); [discriminate|].
  destruct (getFields _) as [parentFields|] eqn:Hparent; [|discriminate].
  destruct (connectionSelection _ _ _ _ _) as [c|e] eqn:Hrun; [|discriminate].
  simpl. destruct (connection c) eqn:Hc; [|discriminate].
  destruct selectionSet as [selections|]; [|discriminate].
  intros [= <-].
  exists alias, name, arguments, directives, selections, parentFields, c.
  repeat split; try reflexivity; try assumption.
  intros type. simpl. apply (connectionSelection_app _ _ _ _ _ Hrun Hc).
Qed.

(** The walk over directives of other names leaves the accumulators alone. *)
Lemma visitDirectives_other_names config doc st sites :
  Forall (fun site => has_directive_name config site.2 = false) sites ->
  visitDirectives unwrapType parentTypeFromAncestors config doc st sites = Ok st.
Proof.
  induction 1 as [|[ancestors node] sites Hsite _ IH]; simpl; [reflexivity|].
  unfold visitDirective. simpl in Hsite. rewrite Hsite. simpl. exact IH.
Qed.

Lemma walkDocuments_other_names config st documents :
  Forall (fun doc =>
            Forall (fun site => has_directive_name config site.2 = false)
              (documentDirectives doc))
    documents ->
  walkDocuments unwrapType parentTypeFromAncestors config st documents = Ok st.
Proof.
  induction 1 as [|doc documents Hdoc _ IH]; simpl; [reflexivity|].
  rewrite (visitDirectives_other_names config doc st _ Hdoc). simpl. exact IH.
Qed.

(** X17.  On documents in which no directive is the list or the paginate
    directive, [addListFragments] registers no list and throws nothing,
    whatever the schema holds and whatever the other directives are. *)
Theorem addListFragments_without_lists config documents :
  Forall (fun doc =>
            Forall (fun site => has_directive_name config site.2 = false)
              (documentDirectives doc))
    documents ->
  addListFragments unwrapType parentTypeFromAncestors config documents = Ok ∅.
Proof.
  intros Hnone. unfold addListFragments.
  rewrite (walkDocuments_other_names config _ documents Hnone). reflexivity.
Qed.

(** What one visit of the [Directive] visitor does to the table. *)
Lemma visitDirective_lists config doc ancestors st node r :
  visitDirective unwrapType parentTypeFromAncestors config doc ancestors st node = Ok r ->
  lists r.2 = lists st
  \/ exists listName c,
       registeredName config node = Some listName
       /\ lists r.2
          = <[listName := mkListEntry (selection c) (Lists.type c) (filename doc)]>
              (lists st).
Proof.
  unfold visitDirective, registeredName, nameArgument.
  destruct (has_directive_name config node); [|intros [= <-]; left; reflexivity].
  destruct (List.find _ (directive_arguments node)) as [nameArg|]; simpl.
  - destruct (arg_value nameArg) as [ | | |listName| | | | | ];
      try (intros [= <-]; left; reflexivity).
    destruct (getFields _) as [parentFields|]; [|discriminate].
    destruct (last ancestors ≫= nodeName) as [targetName|]; [|discriminate].
    destruct (connectionSelection _ _ _ _ _) as [c|e]; [|discriminate].
    simpl. intros [= <-]. right. exists listName, c. split; reflexivity.
  - destruct (String.eqb (directive_name node) (listDirective config));
      intros [= <-]; left; reflexivity.
Qed.

Lemma visitDirectives_provenance config (P : string -> ListEntry -> Prop) doc sites :
  forall st st',
    (forall site listName c,
        site ∈ sites -> registeredName config site.2 = Some listName ->
        P listName (mkListEntry (selection c) (Lists.type c) (filename doc))) ->
    visitDirectives unwrapType parentTypeFromAncestors config doc st sites = Ok st' ->
    (forall name entry, lists st !! name = Some entry -> P name entry) ->
    forall name entry, lists st' !! name = Some entry -> P name entry.
Proof.
  induction sites as [|[ancestors node] sites IH]; intros st st' Hnew; simpl.
  - intros [= <-] Hst. exact Hst.
  - destruct (visitDirective _ _ _ _ _ _ _) as [r|e] eqn:Hvisit; [|discriminate].
    simpl. intros Hrest Hst.
    apply (IH r.2 st'); [|exact Hrest|].
    + intros site listName c Hin. apply Hnew. right. exact Hin.
    + intros name entry.
      destruct (visitDirective_lists _ _ _ _ _ _ Hvisit)
        as [->|(listName & c & Hname & ->)]; [apply Hst|].
      destruct (decide (name = listName)) as [->|Hne].
      * rewrite lookup_insert_eq. intros [= <-].
        apply (Hnew (ancestors, node)); [left | exact Hname].
      * rewrite lookup_insert_ne by congruence. apply Hst.
Qed.

(** X18.  Every list of the table [addListFragments] goes on with was
    registered by a directive of one of the documents that names it, and
    records the file of that document. *)
Theorem registered_lists_name_documents config documents table name entry :
  addListFragments unwrapType parentTypeFromAncestors config documents = Ok table ->
  table !! name = Some entry ->
  exists doc site,
    doc ∈ documents /\ site ∈ documentDirectives doc
    /\ registeredName config site.2 = Some name
    /\ list_filename entry = filename doc.
Proof.
  unfold addListFragments.
  destruct (walkDocuments _ _ _ _ _) as [st|e] eqn:Hwalk; [|discriminate].
  simpl. destruct (Nat.ltb _ _); [discriminate|]. intros [= <-].
  revert name entry.
  assert (Hgen : forall rest st0 st1,
    (forall doc, doc ∈ rest -> doc ∈ documents) ->
    walkDocuments unwrapType parentTypeFromAncestors config st0 rest = Ok st1 ->
    (forall name entry, lists st0 !! name = Some entry ->
       exists doc site,
         doc ∈ documents /\ site ∈ documentDirectives doc
         /\ registeredName config site.2 = Some name
         /\ list_filename entry = filename doc) ->
    forall name entry, lists st1 !! name = Some entry ->
       exists doc site,
         doc ∈ documents /\ site ∈ documentDirectives doc
         /\ registeredName config site.2 = Some name
         /\ list_filename entry = filename doc).
  { induction rest as [|doc rest IH]; intros st0 st1 Hsub; simpl.
    - intros [= <-] H0. exact H0.
    - destruct (visitDirectives _ _ _ _ _ _) as [st2|e] eqn:Hdoc; [|discriminate].
      simpl. intros Hrest H0.
      apply (IH st2 st1); [intros d Hd; apply Hsub; right; exact Hd | exact Hrest |].
      apply (visitDirectives_provenance config _ doc (documentDirectives doc) st0 st2);
        [|exact Hdoc | exact H0].
      intros site listName c Hin Hname. exists doc, site.
      split; [apply Hsub; left|]. split; [exact Hin|]. split; [exact Hname|].
      reflexivity. }
  apply (Hgen documents _ st (fun doc H => H) Hwalk).
  simpl. intros name entry Hlookup. rewrite lookup_empty in Hlookup. discriminate.
Qed.

End MoreListsFacts.

Section MoreGenerateFacts.

Import Lists Generate.

Variable listInsertFragment : string -> string.
Variable listToggleFragment : string -> string.
Variable listRemoveFragment : string -> string.
Variable listDeleteDirective : string -> string.

Lemma mapResult_In_inv {A B} (f : A -> Result B) l l' y :
  mapResult f l = Ok l' -> In y l' -> exists x, In x l /\ f x = Ok y.
Proof.
  revert l'. induction l as [|x l IH]; simpl; intros l'.
  - intros [= <-] [].
  - destruct (f x) as [y'|e] eqn:Hx; [|discriminate].
    destruct (mapResult f l) as [ys|e]; [|discriminate].
    intros [= <-] [<-|Hin].
    + exists x. split; [left; reflexivity | exact Hx].
    + destruct (IH ys eq_refl Hin) as (x' & Hin' & Hx'). exists x'.
      split; [right; exact Hin' | exact Hx'].
Qed.

Lemma existsb_id_last selections :
  existsb (isFieldNamed "id") (selections ++ [idField]) = true.
Proof. rewrite existsb_app. simpl. apply orb_true_r. Qed.

(** The three fragments of one list. *)
Lemma listFragments_ok config name entry defs :
  listFragments listInsertFragment listToggleFragment listRemoveFragment
    config name entry = Ok defs ->
  length defs = 3
  /\ Forall (fun d =>
               exists fragment sels,
                 d = FragmentDefinitionNode fragment (type_name (list_type entry)) sels
                 /\ (is_Some (getType (schema config) (type_name (list_type entry))) ->
                     existsb (isFieldNamed "id") sels = true))
       defs.
Proof.
  unfold listFragments. destruct (list_selection entry) as [selection|]; [|discriminate].
  intros [= <-]. split; [reflexivity|].
  repeat constructor.
  - eexists _, _. split; [reflexivity|]. intros Hknown.
    rewrite (bool_decide_eq_true_2 _ Hknown). simpl.
    destruct (existsb (isFieldNamed "id") selection) eqn:Hid; simpl;
      [exact Hid | apply existsb_id_last].
  - eexists _, _. split; [reflexivity|]. intros _. apply existsb_id_last.
  - eexists _, _. split; [reflexivity|]. intros _. reflexivity.
Qed.

(** The definitions generated from a table. *)
Lemma generatedDefinitions_ok config entries defs :
  generatedDefinitions listInsertFragment listToggleFragment listRemoveFragment
    listDeleteDirective config entries = Ok defs ->
  exists fragments,
    defs = fragments
           ++ map (fun typeName =>
                     DirectiveDefinitionNode (listDeleteDirective typeName) ["FIELD"] true)
                (listTargets (map snd entries))
    /\ length fragments = 3 * length entries
    /\ Forall (fun d =>
                 exists fragment entry sels,
                   In entry entries
                   /\ d = FragmentDefinitionNode fragment
                            (type_name (list_type entry.2)) sels
                   /\ (is_Some (getType (schema config) (type_name (list_type entry.2))) ->
                       existsb (isFieldNamed "id") sels = true))
         fragments.
Proof.
  unfold generatedDefinitions.
  destruct (mapResult _ entries) as [fragments|e] eqn:Hmap; [|discriminate].
  simpl. intros [= <-]. exists (concat fragments). split; [reflexivity|]. split.
  - revert fragments Hmap. induction entries as [|entry entries IH]; simpl; intros fragments.
    + intros [= <-]. reflexivity.
    + destruct (listFragments _ _ _ _ _ _) as [ds|e] eqn:Hone; [|discriminate].
      destruct (mapResult _ entries) as [rest|e]; [|discriminate].
      intros [= <-]. simpl. rewrite length_app, (IH rest eq_refl).
      destruct (listFragments_ok _ _ _ _ Hone) as [-> _]. lia.
  - apply Forall_forall. intros d Hin.
    apply list_elem_of_In, in_concat in Hin as (ds & Hds & Hd).
    destruct (mapResult_In_inv _ _ _ _ Hmap Hds) as (entry & Hentry & Hone).
    destruct (listFragments_ok _ _ _ _ Hone) as [_ Hall].
    rewrite Forall_forall in Hall.
    destruct (Hall d ltac:(apply list_elem_of_In; exact Hd)) as (fragment & sels & -> & Hid).
    exists fragment, entry, sels. split; [exact Hentry|]. split; [reflexivity | exact Hid].
Qed.

Lemma generatedDefinitions_throws_iff config entries e :
  generatedDefinitions listInsertFragment listToggleFragment listRemoveFragment
    listDeleteDirective config entries = Throw e
  <-> e = Error "Lists must have a selection"
      /\ Exists (fun entry => list_selection entry.2 = None) entries.
Proof.
  unfold generatedDefinitions. split.
  - destruct (mapResult _ entries) as [fragments|e'] eqn:Hmap; [discriminate|].
    simpl. intros [= <-].
    destruct (mapResult_throws _ _ _ Hmap) as (entry & Hin & Hone).
    unfold listFragments in Hone.
    destruct (list_selection entry.2) eqn:Hsel; [discriminate|].
    injection Hone as <-. split; [reflexivity|].
    apply Exists_exists. exists entry. split; [apply list_elem_of_In, Hin | exact Hsel].
  - intros [-> Hex].
    induction Hex as [entry entries Hsel|entry entries _ IH]; simpl.
    + unfold listFragments. rewrite Hsel. reflexivity.
    + destruct (listFragments _ _ _ _ _ _) as [ds|e] eqn:Hone.
      * destruct (mapResult _ entries) as [rest|e]; [discriminate|].
        simpl in IH |- *. exact IH.
      * unfold listFragments in Hone.
        destruct (list_selection entry.2); [discriminate|]. simpl. rewrite <- Hone.
        reflexivity.
Qed.

(** X19.  When lists are registered and the document is generated, it
    holds three fragments for each list, then one delete directive, on
    fields and repeatable, for each target of the lists; every fragment is
    on the type of its list, and selects [id] whenever the schema knows that
    type. *)
Theorem generated_fragments_select_id config entries defs :
  generateLists listInsertFragment listToggleFragment listRemoveFragment
    listDeleteDirective config entries = Ok (Some defs) ->
  entries <> []
  /\ exists fragments,
       defs = fragments
              ++ map (fun typeName =>
                        DirectiveDefinitionNode (listDeleteDirective typeName)
                          ["FIELD"] true)
                   (listTargets (map snd entries))
       /\ length fragments = 3 * length entries
       /\ Forall (fun d =>
                    exists fragment entry sels,
                      In entry entries
                      /\ d = FragmentDefinitionNode fragment
                               (type_name (list_type entry.2)) sels
                      /\ (is_Some (getType (schema config)
                                     (type_name (list_type entry.2))) ->
                          existsb (isFieldNamed "id") sels = true))
            fragments.
Proof.
  unfold generateLists. destruct entries as [|entry entries]; [discriminate|].
  cbn [length Nat.eqb].
  destruct (generatedDefinitions _ _ _ _ _ _) as [ds|e] eqn:Hrun; [|discriminate].
  simpl. intros [= <-]. split; [discriminate|].
  apply (generatedDefinitions_ok _ _ _ Hrun).
Qed.

(** X20.  With no list registered nothing is generated and nothing thrown.
    Generating the document throws exactly when some list of the table has
    no selection, a tagged field without a selection set, and then the
    exception is the error [Lists must have a selection]. *)
Theorem generateLists_throws config entries e :
  (generateLists listInsertFragment listToggleFragment listRemoveFragment
     listDeleteDirective config entries = Ok None <-> entries = [])
  /\ (generateLists listInsertFragment listToggleFragment listRemoveFragment
        listDeleteDirective config entries = Throw e
      <-> e = Error "Lists must have a selection"
          /\ Exists (fun entry => list_selection entry.2 = None) entries).
Proof.
  unfold generateLists. destruct entries as [|entry entries].
  - simpl. split; [tauto|]. split; [discriminate|].
    intros [_ Hex]. inversion Hex.
  - cbn [length Nat.eqb].
    rewrite <- (generatedDefinitions_throws_iff config (entry :: entries) e).
    destruct (generatedDefinitions _ _ _ _ _ _) as [ds|e']; simpl.
    + split; split; intros H; discriminate H.
    + split; [split; intros H; discriminate H|].
      split; intros [= <-]; reflexivity.
Qed.

Lemma dedup_fold_spec (l : list string) : forall acc,
  NoDup acc ->
  let result :=
    fold_left (fun seen name => if bool_decide (name ∈ seen) then seen else seen ++ [name])
      l acc in
  NoDup result /\ forall x, x ∈ result <-> x ∈ acc \/ x ∈ l.
Proof.
  induction l as [|y l IH]; intros acc Hacc; simpl.
  - split; [exact Hacc|]. intros x. split; [tauto|]. intros [H|H]; [exact H | inversion H].
  - destruct (bool_decide_reflect (y ∈ acc)) as [Hin|Hout].
    + destruct (IH acc Hacc) as [Hnodup Hmem]. split; [exact Hnodup|].
      intros x. rewrite Hmem, elem_of_cons. split; [tauto|].
      intros [H|[->|H]]; tauto.
    + assert (Hacc' : NoDup (acc ++ [y])).
      { apply NoDup_app. split; [exact Hacc|]. split; [|apply NoDup_singleton].
        intros x Hx Hy. apply list_elem_of_singleton in Hy. subst x. contradiction. }
      destruct (IH _ Hacc') as [Hnodup Hmem]. split; [exact Hnodup|].
      intros x. rewrite Hmem, elem_of_app, list_elem_of_singleton, elem_of_cons. tauto.
Qed.

(** X21.  The targets of the delete directives are the names of the object
    types among the types of the lists, each once and none empty. *)
Theorem listTargets_object_types entries :
  NoDup (listTargets entries)
  /\ forall name,
       name ∈ listTargets entries
       <-> name <> ""
           /\ exists entry,
                entry ∈ entries
                /\ type_kind (list_type entry) = ObjectType
                /\ type_name (list_type entry) = name.
Proof.
  unfold listTargets, dedup.
  destruct (dedup_fold_spec
              (map (fun entry =>
                      match type_kind (list_type entry) with
                      | ObjectType => type_name (list_type entry)
                      | _ => ""
                      end) entries) [] (NoDup_nil_2)) as [Hnodup Hmem].
  cbv zeta in Hnodup, Hmem. split; [apply NoDup_filter, Hnodup|].
  intros name. rewrite list_elem_of_filter, Hmem. split.
  - intros [Hne [Hin|Hin]]; [inversion Hin|]. split; [exact Hne|].
    apply list_elem_of_In, in_map_iff in Hin as (entry & Hname & Hin).
    exists entry. split; [apply list_elem_of_In, Hin|].
    destruct (type_kind (list_type entry)); try (symmetry in Hname; contradiction).
    split; [reflexivity | exact Hname].
  - intros [Hne (entry & Hin & Hkind & Hname)]. split; [exact Hne|]. right.
    apply list_elem_of_In, in_map_iff. exists entry.
    split; [rewrite Hkind; exact Hname | apply list_elem_of_In, Hin].
Qed.

End MoreGenerateFacts.

Lemma connectionSelection_result_witness :
  exists selections edgesField nodeSelection nodeSelectionSet,
    Some [Examples.field "edges"
            (Some [Examples.field "node" (Some [Examples.field "id" None])])]
    = Some selections
    /\ List.find (Lists.isFieldNamed "edges") selections = Some edgesField
    /\ Lists.selectionSetOf edgesField ≫= List.find (Lists.isFieldNamed "node")
       = Some nodeSelection
    /\ Lists.selectionSetOf nodeSelection = Some nodeSelectionSet
    /\ Some [Examples.field "id" None] = Some nodeSelectionSet.
Proof.
  exact (connectionSelection_result Examples.exampleUnwrap Examples.exampleConfig
           (field_lookup "friends" (type_fields Examples.userType))
           Examples.userConnectionType
           (Some [Examples.field "edges"
                    (Some [Examples.field "node" (Some [Examples.field "id" None])])])
           (Lists.mkConnection (Some [Examples.field "id" None]) Examples.userType true)
           eq_refl).
Defined.

Lemma field_visitor_keeps_classification_witness :
  exists alias name arguments directives selections parentFields c,
    Examples.friendsConnection (Examples.nameIs (StringValueNode "Friends"))
    = FieldNode alias name arguments directives (Some selections)
    /\ FieldNode None "friends" []
         [Examples.directive "list" (Examples.nameIs (StringValueNode "Friends"))]
         (Some ([Examples.field "edges"
                   (Some [Examples.field "node" (Some [Examples.field "id" None])])]
                ++ Paginate.pageInfoSelection))
       = FieldNode alias name arguments directives
           (Some (selections ++ Paginate.pageInfoSelection))
    /\ getFields (Examples.exampleParentType (schema Examples.exampleConfig)
                    [NSelection (Examples.field "user" None)])
       = Some parentFields
    /\ Lists.connection c = true
    /\ Lists.connectionSelection Examples.exampleUnwrap Examples.exampleConfig
         (field_lookup name parentFields)
         (Examples.exampleParentType (schema Examples.exampleConfig)
            [NSelection (Examples.field "user" None)])
         (Lists.selectionSetOf
            (Examples.friendsConnection (Examples.nameIs (StringValueNode "Friends"))))
       = Ok c
    /\ forall type,
         Lists.connectionSelection Examples.exampleUnwrap Examples.exampleConfig
           (field_lookup name parentFields) type
           (Lists.selectionSetOf
              (FieldNode None "friends" []
                 [Examples.directive "list" (Examples.nameIs (StringValueNode "Friends"))]
                 (Some ([Examples.field "edges"
                           (Some [Examples.field "node"
                                    (Some [Examples.field "id" None])])]
                        ++ Paginate.pageInfoSelection))))
         = Ok c.
Proof.
  apply (field_visitor_keeps_classification Examples.exampleUnwrap
           Examples.exampleParentType Examples.exampleConfig
           [NSelection (Examples.field "user" None)]
           (Examples.friendsConnection (Examples.nameIs (StringValueNode "Friends")))).
  reflexivity.
Defined.

Lemma addListFragments_without_lists_witness :
  Lists.addListFragments Examples.exampleUnwrap Examples.exampleParentType
    Examples.exampleConfig [MoreExamples.prependQuery; MoreExamples.plainMutation]
  = Ok ∅.
Proof.
  apply (addListFragments_without_lists Examples.exampleUnwrap
           Examples.exampleParentType Examples.exampleConfig
           [MoreExamples.prependQuery; MoreExamples.plainMutation]).
  repeat constructor.
Defined.

Lemma registered_lists_name_documents_witness :
  exists doc site,
    doc ∈ [MoreExamples.prependQuery; MoreExamples.friendsListQuery]
    /\ site ∈ Lists.documentDirectives doc
    /\ Props.registeredName Examples.exampleConfig site.2 = Some "Friends"
    /\ "Friends.graphql" = filename doc.
Proof.
  apply (registered_lists_name_documents Examples.exampleUnwrap
           Examples.exampleParentType Examples.exampleConfig
           [MoreExamples.prependQuery; MoreExamples.friendsListQuery]
           (<["Friends" :=
                Lists.mkListEntry (Some [Examples.field "id" None]) Examples.userType
                  "Friends.graphql"]> (∅ : gmap string Lists.ListEntry))
           "Friends"
           (Lists.mkListEntry (Some [Examples.field "id" None]) Examples.userType
              "Friends.graphql")).
  - vm_compute. reflexivity.
  - vm_compute. reflexivity.
Defined.

Lemma generated_fragments_select_id_witness :
  MoreExamples.friendsEntries <> []
  /\ exists fragments,
    [Generate.FragmentDefinitionNode "Friends_insert" "User"
       [Examples.field "firstName" None; Generate.idField];
     Generate.FragmentDefinitionNode "Friends_toggle" "User"
       [Examples.field "firstName" None; Generate.idField; Generate.idField];
     Generate.FragmentDefinitionNode "Friends_remove" "User" [Generate.idField];
     Generate.DirectiveDefinitionNode "User_delete" ["FIELD"] true]
    = fragments
      ++ map (fun typeName =>
                Generate.DirectiveDefinitionNode (MoreExamples.deleteName typeName)
                  ["FIELD"] true)
           (Generate.listTargets (map snd MoreExamples.friendsEntries))
    /\ length fragments = 3 * length MoreExamples.friendsEntries
    /\ Forall (fun d =>
                 exists fragment entry sels,
                   In entry MoreExamples.friendsEntries
                   /\ d = Generate.FragmentDefinitionNode fragment
                            (type_name (Lists.list_type entry.2)) sels
                   /\ (is_Some (getType (schema Examples.exampleConfig)
                                  (type_name (Lists.list_type entry.2))) ->
                       existsb (Lists.isFieldNamed "id") sels = true))
         fragments.
Proof.
  apply (generated_fragments_select_id MoreExamples.insertName MoreExamples.toggleName
           MoreExamples.removeName MoreExamples.deleteName Examples.exampleConfig
           MoreExamples.friendsEntries).
  vm_compute. reflexivity.
Defined.

(** ** The two visits of the paginate transform together *)

Section MoreDeclaredFacts.

Import Props MoreProps.
Import Paginate Hoist.

Variable parseInt : Value -> Value.


Lemma flagEnabled_enabledEntries fl n :
  flagEnabled fl n = true ->
  exists spec, flag fl n = Some spec /\ In (n, spec) (enabledEntries fl).
Proof.
  unfold flagEnabled. destruct (flag fl n) as [spec|] eqn:Hflag; [|discriminate].
  intros Hen. exists spec. split; [reflexivity|].
  apply list_elem_of_In, list_elem_of_filter. split; [exact Hen|].
  revert Hflag. unfold flag, flagEntries.
  repeat match goal with
         | |- context [String.eqb n ?x] =>
             destruct (String.eqb_spec n x); [subst n; intros [= <-]; set_solver|]
         end.
  discriminate.
Qed.



Lemma fold_replaceArgument_flag_other args n : forall acc,
  n ∉ map arg_name args ->
  flag (fold_left (replaceArgument parseInt) args acc).1.2 n = flag acc.1.2 n.
Proof.
  induction args as [|arg args IH]; intros [[newArgs fl] seen] Hn; [reflexivity|].
  simpl in Hn. apply not_elem_of_cons in Hn as [Hne Hn].
  cbn [fold_left]. rewrite (IH _ Hn). unfold replaceArgument.
  destruct (flag fl (arg_name arg)) as [spec|]; [|reflexivity].
  destruct (negb (enabled spec)); [reflexivity|].
  destruct (negb (isVariable (arg_value arg))); [|reflexivity].
  cbn [fst snd]. rewrite flag_setDefaultValue.
  destruct (String.eqb_spec n (arg_name arg)); [contradiction | reflexivity].
Qed.

Lemma fold_replaceArgument_default args arg spec : forall acc,
  NoDup (map arg_name args) -> In arg args ->
  flag acc.1.2 (arg_name arg) = Some spec -> enabled spec = true ->
  isVariable (arg_value arg) = false ->
  flag (fold_left (replaceArgument parseInt) args acc).1.2 (arg_name arg)
  = Some (withDefault
            (match type spec with
             | TInt => parseInt (literal_value (arg_value arg))
             | TString => literal_value (arg_value arg)
             end) spec).
Proof.
  induction args as [|arg0 args IH]; intros [[newArgs fl] seen] Hnodup Hin Hflag Hen Hlit;
    [destruct Hin|].
  simpl in Hnodup. apply NoDup_cons in Hnodup as [Hfresh Hnodup].
  cbn [fold_left]. cbn [fst snd] in Hflag. destruct Hin as [->|Hin].
  - rewrite (fold_replaceArgument_flag_other _ _ _ Hfresh).
    unfold replaceArgument. rewrite Hflag, Hen, Hlit. cbn [negb fst snd].
    rewrite flag_setDefaultValue, String.eqb_refl, Hflag. reflexivity.
  - apply (IH _ Hnodup Hin); [|exact Hen | exact Hlit].
    assert (Hne : arg_name arg <> arg_name arg0).
    { intros Heq. apply Hfresh. rewrite <- Heq.
      apply list_elem_of_In, in_map, Hin. }
    unfold replaceArgument.
    destruct (flag fl (arg_name arg0)) as [spec0|]; [|exact Hflag].
    destruct (negb (enabled spec0)); [exact Hflag|].
    destruct (negb (isVariable (arg_value arg0))); [|exact Hflag].
    cbn [fst snd]. rewrite flag_setDefaultValue.
    destruct (String.eqb_spec (arg_name arg) (arg_name arg0)); [contradiction|].
    exact Hflag.
Qed.

(** X23.  A literal the call site passes for an enabled flag becomes the
    default value of that flag, parsed as an integer when the flag is one,
    and the flag is otherwise as it was; this is the default the second
    visit gives the variable it declares.  The names of the call-site
    arguments are distinct. *)
Theorem literal_becomes_default args flags arg spec :
  NoDup (map arg_name args) -> In arg args ->
  flag flags (arg_name arg) = Some spec -> enabled spec = true ->
  isVariable (arg_value arg) = false ->
  let value :=
    match type spec with
    | TInt => parseInt (literal_value (arg_value arg))
    | TString => literal_value (arg_value arg)
    end in
  flag (replaceArgumentsWithVariables parseInt args flags).2 (arg_name arg)
  = Some (withDefault value spec)
  /\ In (arg_name arg, withDefault value spec)
       (enabledEntries (replaceArgumentsWithVariables parseInt args flags).2).
Proof.
  intros Hnodup Hin Hflag Hen Hlit value.
  assert (Hdefault :
    flag (replaceArgumentsWithVariables parseInt args flags).2 (arg_name arg)
    = Some (withDefault value spec)).
  { pose proof (fold_replaceArgument_default args arg spec ([], flags, [])
                  Hnodup Hin Hflag Hen Hlit) as Hfold.
    unfold replaceArgumentsWithVariables.
    destruct (fold_left (replaceArgument parseInt) args ([], flags, []))
      as [[newArgs fl'] seen].
    exact Hfold. }
  split; [exact Hdefault|].
  destruct (flagEnabled_enabledEntries
              (replaceArgumentsWithVariables parseInt args flags).2 (arg_name arg))
    as (spec' & Hspec' & Hentry).
  - unfold flagEnabled. rewrite Hdefault. exact Hen.
  - rewrite Hdefault in Hspec'. injection Hspec' as <-. exact Hentry.
Qed.

End MoreDeclaredFacts.


Lemma literal_becomes_default_witness :
  Paginate.flag
    (Paginate.replaceArgumentsWithVariables Examples.decimal
       [mkArgument "first" (IntValueNode "10")]
       (Paginate.updateFlags ["first"; "after"; "last"; "before"] ["first"]
          Paginate.initialFlags)).2
    "first"
  = Some (Paginate.mkFlag true Paginate.TInt (VNumber 10))
  /\ In ("first", Paginate.mkFlag true Paginate.TInt (VNumber 10))
       (Hoist.enabledEntries
          (Paginate.replaceArgumentsWithVariables Examples.decimal
             [mkArgument "first" (IntValueNode "10")]
             (Paginate.updateFlags ["first"; "after"; "last"; "before"] ["first"]
                Paginate.initialFlags)).2).
Proof.
  apply (literal_becomes_default Examples.decimal
           [mkArgument "first" (IntValueNode "10")]
           (Paginate.updateFlags ["first"; "after"; "last"; "before"] ["first"]
              Paginate.initialFlags)
           (mkArgument "first" (IntValueNode "10"))
           (Paginate.mkFlag true Paginate.TInt VUndefined)).
  - apply (bool_decide_unpack _). vm_compute. exact I.
  - left. reflexivity.
  - reflexivity.
  - reflexivity.
  - reflexivity.
Defined.

(** ** The refetch query of a paginated fragment *)

Section MoreRefetchFacts.

Import MoreProps.
Import Paginate Hoist RefetchQuery.

Variable keyFieldsForType : Config -> string -> list string.
Variable unwrapType : Config -> GraphQLType -> UnwrappedType.
Variable wrapType : UnwrappedType -> GraphQLType.
Variable queryField : Config -> string -> option string.

Lemma mapResult_map {A B} (f : A -> Result B) (g : A -> B) l :
  (forall x, In x l -> f x = Ok (g x)) -> mapResult f l = Ok (map g l).
Proof.
  induction l as [|x l IH]; intros Hf; simpl; [reflexivity|].
  rewrite (Hf x) by (left; reflexivity).
  rewrite IH by (intros y Hy; apply Hf; right; exact Hy). reflexivity.
Qed.

(** Reading the default back from [flags[arg.name]] gives the default of the
    entry: the variable is the one [staticVariableDefinition] builds. *)
Lemma paginationVariable_entry fl arg :
  In arg (flagEntries fl) ->
  paginationVariable fl arg
  = Ok (staticVariableDefinition arg.1 (type arg.2) (defaultValue arg.2)).
Proof.
  unfold flagEntries. simpl.
  intros [<-|[<-|[<-|[<-|[<-|[<-|[]]]]]]]; reflexivity.
Qed.

Lemma paginationVariables_enabled fl :
  mapResult (paginationVariable fl) (enabledEntries fl)
  = Ok (map (fun arg => staticVariableDefinition arg.1 (type arg.2) (defaultValue arg.2))
          (enabledEntries fl)).
Proof.
  apply mapResult_map. intros arg Hin. apply paginationVariable_entry.
  apply list_elem_of_In. apply list_elem_of_In in Hin.
  apply list_elem_of_filter in Hin as [_ Hin]. exact Hin.
Qed.

Lemma argumentVariables_references {A} (name : A -> string) (l : list A) :
  argumentVariables (map (fun x => mkArgument (name x) (VariableNode (name x))) l)
  = map name l.
Proof.
  unfold argumentVariables. induction l as [|x l IH]; [reflexivity|].
  simpl. f_equal. exact IH.
Qed.

Lemma fragmentSpreadSelection_variables config fragmentName fl :
  flat_map selectionVariables (fragmentSpreadSelection config fragmentName fl)
  = map fst (enabledEntries fl).
Proof.
  unfold fragmentSpreadSelection. simpl. rewrite !app_nil_r.
  apply (argumentVariables_references fst).
Qed.

(** X24.  The refetch query generated for a fragment is well formed in its
    variables: it declares the pagination variables exactly as the second
    visit declares them on a query, and every variable its selections refer
    to, the pagination ones passed to the fragment and the keys passed to
    the embedding field, is among the variables it declares. *)
Theorem refetch_query_declares_its_variables config doc flags info refetch g :
  refetchQuery keyFieldsForType unwrapType wrapType queryField
    config doc flags info refetch = Ok (Some g) ->
  (exists keyVariables,
      query_variables (generated_document g)
      = map (fun arg => staticVariableDefinition arg.1 (type arg.2) (defaultValue arg.2))
          (enabledEntries flags)
        ++ keyVariables)
  /\ forall v,
       In v (flat_map selectionVariables (query_selections (generated_document g))) ->
       In v (map variable (query_variables (generated_document g))).
Proof.
  unfold refetchQuery. destruct (String.eqb (fragment info) ""); [discriminate|].
  cbv zeta.
  destruct (keys _ _ _ _ _ _) as [found|e]; [|discriminate]. simpl.
  rewrite paginationVariables_enabled. simpl. intros [= <-]. simpl.
  split; [eexists; reflexivity|].
  intros v. rewrite map_app, map_map. cbn [variable staticVariableDefinition].
  destruct (nodeQuery info); simpl.
  - rewrite !app_nil_r.
    rewrite (argumentVariables_references fst found).
    change (argumentVariables
              (map (fun arg => variableAsArgument arg.1) (enabledEntries flags)))
      with (argumentVariables
              (map (fun arg => mkArgument arg.1 (VariableNode arg.1))
                 (enabledEntries flags))).
    rewrite (argumentVariables_references fst (enabledEntries flags)).
    rewrite map_map. simpl. intros Hin. apply in_or_app.
    apply in_app_or in Hin as [Hin|Hin]; [right | left]; exact Hin.
  - rewrite !app_nil_r.
    change (argumentVariables
              (map (fun arg => variableAsArgument arg.1) (enabledEntries flags)))
      with (argumentVariables
              (map (fun arg => mkArgument arg.1 (VariableNode arg.1))
                 (enabledEntries flags))).
    rewrite (argumentVariables_references fst (enabledEntries flags)).
    intros Hin. exact Hin.
Qed.

(** What the second visit records of the definitions: the embedding flag
    goes with the fragment it was computed from. *)
Lemma enterDefinitions_consistent config defs : forall info info',
  fragment info = ""
  \/ nodeQuery info
     = negb (bool_decide (getQueryType (schema config) = Some (fragment info))) ->
  enterDefinitions config info defs = Ok info' ->
  fragment info' = ""
  \/ nodeQuery info'
     = negb (bool_decide (getQueryType (schema config) = Some (fragment info'))).
Proof.
  induction defs as [|d defs IH]; intros info info' Hinfo; simpl.
  - intros [= <-]. exact Hinfo.
  - destruct (enterDefinition config info d) as [info1|e] eqn:Hd; [|discriminate].
    simpl. apply IH.
    destruct d as [operation name directives selections
                  |name typeCondition directives selections]; simpl in Hd.
    + destruct operation; try discriminate. injection Hd as <-. exact Hinfo.
    + injection Hd as <-. right. reflexivity.
Qed.

(** X25.  For a fragment on the query type no schema lookup is made and
    nothing is thrown, whatever keys the query type is configured with: the
    refetch query declares the pagination variables only and spreads the
    fragment at its root. *)
Theorem refetch_query_of_query_fragment config defs doc flags info refetch :
  enterDefinitions config initialInfo defs = Ok info ->
  fragment info <> "" ->
  nodeQuery info = false ->
  let queryDoc :=
    mkQueryDocument (refetchQueryName info)
      (map (fun arg => staticVariableDefinition arg.1 (type arg.2) (defaultValue arg.2))
         (enabledEntries flags))
      (fragmentSpreadSelection config (fragmentName info) flags) in
  refetchQuery keyFieldsForType unwrapType wrapType queryField
    config doc flags info refetch
  = Ok (Some (mkGenerated KindQuery (filename doc) (refetchQueryName info)
                queryDoc queryDoc true (Some refetch))).
Proof.
  intros Hdefs Hfragment Hquery queryDoc.
  destruct (enterDefinitions_consistent config defs initialInfo info
              (or_introl eq_refl) Hdefs) as [Hnone|Hflag]; [contradiction|].
  rewrite Hquery in Hflag. symmetry in Hflag. apply negb_false_iff in Hflag.
  unfold refetchQuery.
  destruct (String.eqb_spec (fragment info) ""); [contradiction|].
  cbv zeta. unfold keys.
  rewrite (mapResult_map (keyVariable unwrapType wrapType config (fragment info))
             (fun _ => [])).
  - simpl. rewrite paginationVariables_enabled. simpl. rewrite Hquery. simpl.
    rewrite app_nil_r. reflexivity.
  - intros key _. unfold keyVariable. rewrite Hflag. reflexivity.
Qed.

End MoreRefetchFacts.

Lemma refetch_query_declares_its_variables_witness :
  exists g,
    RefetchQuery.refetchQuery MoreExamples.idKeys Examples.exampleUnwrap
      MoreExamples.nonNullWrap MoreExamples.noQueryField Examples.exampleConfig
      Examples.bareQuery MoreExamples.forwardFlags MoreExamples.userFriendsInfo
      MoreExamples.forwardRefetch = Ok (Some g)
    /\ map Hoist.variable
         (RefetchQuery.query_variables (RefetchQuery.generated_document g))
       = ["first"; "after"; "id"]
    /\ forall v,
         In v (flat_map MoreProps.selectionVariables
                 (RefetchQuery.query_selections (RefetchQuery.generated_document g))) ->
         In v (map Hoist.variable
                 (RefetchQuery.query_variables (RefetchQuery.generated_document g))).
Proof.
  eexists. split; [vm_compute; reflexivity|]. split; [reflexivity|].
  apply (refetch_query_declares_its_variables MoreExamples.idKeys Examples.exampleUnwrap
           MoreExamples.nonNullWrap MoreExamples.noQueryField Examples.exampleConfig
           Examples.bareQuery MoreExamples.forwardFlags MoreExamples.userFriendsInfo
           MoreExamples.forwardRefetch).
  vm_compute. reflexivity.
Defined.

Lemma refetch_query_of_query_fragment_witness :
  exists g,
    RefetchQuery.refetchQuery MoreExamples.idKeys Examples.exampleUnwrap
      MoreExamples.nonNullWrap MoreExamples.noQueryField Examples.exampleConfig
      Examples.bareQuery MoreExamples.forwardFlags
      (Paginate.mkInfo "QueryFriends" "QueryFriends_Pagination_Query" false "Query")
      MoreExamples.forwardRefetch = Ok (Some g)
    /\ map Hoist.variable
         (RefetchQuery.query_variables (RefetchQuery.generated_document g))
       = ["first"; "after"].
Proof.
  eexists. split.
  - apply (refetch_query_of_query_fragment MoreExamples.idKeys Examples.exampleUnwrap
             MoreExamples.nonNullWrap MoreExamples.noQueryField Examples.exampleConfig
             MoreExamples.queryFragment Examples.bareQuery MoreExamples.forwardFlags
             (Paginate.mkInfo "QueryFriends" "QueryFriends_Pagination_Query" false "Query")
             MoreExamples.forwardRefetch);
      [reflexivity | discriminate | reflexivity].
  - reflexivity.
Defined.

(** ** The first visit of the paginate transform on a paginated document *)

Section MoreVisitFacts.

Import Props MoreProps.
Import Paginate.

Variable parseInt : Value -> Value.
Variable parentTypeFromAncestors : GraphQLSchema -> list ASTNode -> GraphQLNamedType.

Lemma bind_Ok {A B} (m : Result A) (k : A -> Result B) r :
  (x ← m; k x) = Ok r -> exists x, m = Ok x /\ k x = Ok r.
Proof. destruct m as [x|e]; [|discriminate]. simpl. eauto. Qed.

Lemma visitAll_located directiveName
    (visit : VisitState -> SelectionNode -> Result (SelectionNode * VisitState)) l :
  Forall (fun s => forall st r,
            visit st s = Ok r ->
            located st \/ paginates directiveName s = true -> located r.2) l ->
  forall st r,
    (fix all (st : VisitState) (l : list SelectionNode)
       : Result (list SelectionNode * VisitState) :=
       match l with
       | [] => Ok ([], st)
       | s :: l' => r ← visit st s; r' ← all r.2 l'; Ok (r.1 :: r'.1, r'.2)
       end) st l = Ok r ->
    located st \/ existsb (paginates directiveName) l = true -> located r.2.
Proof.
  induction 1 as [|s l Hs _ IH]; intros st r.
  - intros [= <-] [Hst|Hex]; [exact Hst | discriminate].
  - intros Hrun Hor.
    apply bind_Ok in Hrun as (r1 & Hvisit & Hrun).
    apply bind_Ok in Hrun as (r2 & Hrest & Hrun).
    injection Hrun as <-. simpl.
    apply (IH _ _ Hrest).
    destruct Hor as [Hst|Hex].
    + left. apply (Hs _ _ Hvisit). left. exact Hst.
    + simpl in Hex. apply orb_prop in Hex as [Hhere|Hlater]; [left | right; exact Hlater].
      apply (Hs _ _ Hvisit). right. exact Hhere.
Qed.

Lemma enterPaginatedField_located config ancestors st alias name arguments
    directives selections entered :
  enterPaginatedField parseInt parentTypeFromAncestors config ancestors st alias name
    arguments directives selections = Ok entered ->
  located entered.2
  /\ exists arguments' selections',
       entered.1 = FieldNode alias name arguments' directives (Some selections').
Proof.
  unfold enterPaginatedField.
  destruct (declaredArguments _ _ _ _) as [declared|e]; [|discriminate]. simpl.
  destruct (replaceArgumentsWithVariables _ _ _) as [newArgs flags2].
  intros [= <-]. simpl. split; [|eauto].
  split; [reflexivity|]. intros Hnil. apply app_eq_nil in Hnil as [_ Hnil].
  discriminate.
Qed.

Lemma visitSelection_located config sel :
  forall ancestors st r,
    visitSelection parseInt parentTypeFromAncestors config ancestors st sel = Ok r ->
    located st \/ paginates (paginateDirective config) sel = true -> located r.2.
Proof.
  induction sel as [ alias name arguments directives
                   | alias name arguments directives selections IH
                   | name directives
                   | typeCondition directives selections IH ]
    using SelectionNode_nested_ind; intros ancestors st r; simpl.
  - intros [= <-] [Hst|Hex]; [exact Hst | discriminate].
  - destruct (hasDirective (paginateDirective config) directives) eqn:Hdir.
    + intros Hrun _.
      apply bind_Ok in Hrun as (entered & Henter & Hrun).
      destruct (enterPaginatedField_located _ _ _ _ _ _ _ _ _ Henter)
        as (Hlocated & arguments' & selections' & Hnode).
      cbv zeta in Hrun. rewrite Hnode in Hrun.
      apply bind_Ok in Hrun as (r2 & Hrest & Hrun).
      injection Hrun as <-. simpl.
      apply (visitAll_located (paginateDirective config) _ selections
               ltac:(eapply Forall_impl; [exact IH|]; intros s Hs st' r'; apply Hs)
               _ _ Hrest).
      left. exact Hlocated.
    + intros Hrun Hor.
      apply bind_Ok in Hrun as (r2 & Hrest & Hrun).
      injection Hrun as <-. simpl.
      apply (visitAll_located (paginateDirective config) _ selections
               ltac:(eapply Forall_impl; [exact IH|]; intros s Hs st' r'; apply Hs)
               _ _ Hrest).
      exact Hor.
  - intros [= <-] [Hst|Hex]; [exact Hst | discriminate].
  - intros Hrun Hor.
    apply bind_Ok in Hrun as (r2 & Hrest & Hrun).
    injection Hrun as <-. simpl.
    apply (visitAll_located (paginateDirective config) _ selections
             ltac:(eapply Forall_impl; [exact IH|]; intros s Hs st' r'; apply Hs)
             _ _ Hrest).
    exact Hor.
Qed.

Lemma visitSelections_located config ancestors l : forall st r,
  visitSelections parseInt parentTypeFromAncestors config ancestors st l = Ok r ->
  located st \/ existsb (paginates (paginateDirective config)) l = true ->
  located r.2.
Proof.
  induction l as [|s l IH]; simpl; intros st r.
  - intros [= <-] [Hst|Hex]; [exact Hst | discriminate].
  - destruct (visitSelection _ _ _ _ _ s) as [r1|e] eqn:Hvisit; [|discriminate].
    simpl. destruct (visitSelections _ _ _ _ _ l) as [r2|e] eqn:Hrest; [|discriminate].
    simpl. intros [= <-] Hor. simpl. apply (IH _ _ Hrest).
    destruct Hor as [Hst|Hex].
    + left. apply (visitSelection_located _ _ _ _ _ Hvisit). left. exact Hst.
    + apply orb_prop in Hex as [Hhere|Hlater]; [left | right; exact Hlater].
      apply (visitSelection_located _ _ _ _ _ Hvisit). right. exact Hhere.
Qed.

Lemma visitDefinitions_located config ds : forall st r,
  visitDefinitions parseInt parentTypeFromAncestors config st ds = Ok r ->
  located st
  \/ existsb (fun d => existsb (paginates (paginateDirective config))
                         (definitionSelections d)) ds = true ->
  located r.2.
Proof.
  induction ds as [|d ds IH]; simpl; intros st r.
  - intros [= <-] [Hst|Hex]; [exact Hst | discriminate].
  - destruct (visitDefinition _ _ _ _ d) as [r1|e] eqn:Hvisit; [|discriminate].
    simpl. destruct (visitDefinitions _ _ _ _ ds) as [r2|e] eqn:Hrest; [|discriminate].
    simpl. intros [= <-] Hor. simpl. apply (IH _ _ Hrest).
    assert (Hone : located st
                   \/ existsb (paginates (paginateDirective config))
                        (definitionSelections d) = true -> located r1.2).
    { destruct d; simpl in Hvisit |- *;
        destruct (visitSelections _ _ _ _ _ _) as [rs|e] eqn:Hsel; try discriminate;
        simpl in Hvisit; injection Hvisit as <-; simpl;
        apply (visitSelections_located _ _ _ _ _ Hsel). }
    destruct Hor as [Hst|Hex].
    + left. apply Hone. left. exact Hst.
    + apply orb_prop in Hex as [Hhere|Hlater]; [left | right; exact Hlater].
      apply Hone. right. exact Hhere.
Qed.

(** X26.  Whenever the transform returns on a document in which some field
    with a selection set carries the paginate directive, at any depth and
    whether in an operation or in a fragment, the document it returns has a
    refetch descriptor, and the path of the descriptor is not empty. *)
Theorem paginated_document_gets_refetch config doc doc' :
  paginateDocument parseInt parentTypeFromAncestors config doc = Ok doc' ->
  paginatesDocument (paginateDirective config) doc = true ->
  exists r, refetch doc' = Some r /\ path r <> [].
Proof.
  unfold paginateDocument, visitDocument, paginatesDocument.
  destruct (visitDefinitions _ _ _ _ _) as [visited|e] eqn:Hvisit; [|discriminate].
  simpl. intros Hrun Hex.
  destruct (visitDefinitions_located config _ _ _ Hvisit (or_intror Hex))
    as [Hpaginated Hpath].
  rewrite Hpaginated in Hrun.
  destruct (enterDefinitions config initialInfo visited.1) as [info|e];
    [|discriminate].
  simpl in Hrun. injection Hrun as <-. simpl. eexists. split; [reflexivity|].
  exact Hpath.
Qed.

End MoreVisitFacts.

Lemma paginated_document_gets_refetch_witness :
  exists r,
    refetch
      (match Paginate.paginateDocument Examples.decimal Examples.exampleParentType
               Examples.exampleConfig Examples.backwardsQuery with
       | Ok doc' => doc'
       | Throw _ => Examples.backwardsQuery
       end)
    = Some r
    /\ path r <> [].
Proof.
  apply (paginated_document_gets_refetch Examples.decimal Examples.exampleParentType
           Examples.exampleConfig Examples.backwardsQuery).
  - vm_compute. reflexivity.
  - reflexivity.
Defined.
